(** * pdf-viewer: text overlay, selection tracking and search highlighting

  A shallow embedding of the client-side pieces of the viewer that the
  specification describes:

  - [frontend/js/search.js]   (class [SearchManager])
  - the viewer core           (class [PDFViewer]: [createTextLayer],
                               [getSelectedText], [handleSelectionChange],
                               paging, zoom and keyboard shortcuts)
  - [debounce]                (the helper the search box is wired with)

  JavaScript strings are sequences of code units and are modelled by
  [string]; JavaScript numbers are IEEE 754 binary64 values and are
  modelled by Rocq's primitive [float]; the DOM is modelled by the part
  of the tree the code touches (text layers, overlay spans, text nodes
  and highlight elements). *)

From Stdlib Require Import String Ascii List ZArith Lia Bool Arith.
From Stdlib Require Import Floats.
Import ListNotations.

Set Implicit Arguments.

(* ================================================================= *)
(** ** JavaScript string built-ins used by the code *)

Module JSString.

Open Scope string_scope.

(** A [string] stands for a JavaScript string all of whose code units
    are below 256. On these strings [toLowerCase] maps code unit to
    code unit, as [lowerChar] below has it; a string with other code
    units, on which lower-casing can change the length of the text, is
    not a value of this type. *)

(** The first [n] code units of [s], and [s] without them. *)
Fixpoint take (n : nat) (s : string) : string :=
  match n, s with
  | S n', String c s' => String c (take n' s')
  | _, _ => EmptyString
  end.

Fixpoint drop (n : nat) (s : string) : string :=
  match n, s with
  | S n', String _ s' => drop n' s'
  | _, _ => s
  end.

(** [s.substring(indexStart, indexEnd)]: both indices are clamped to
    the length of [s] and swapped when they come in the wrong order. *)
Definition substring (s : string) (indexStart indexEnd : nat) : string :=
  let a := Nat.min indexStart (String.length s) in
  let b := Nat.min indexEnd (String.length s) in
  let lo := Nat.min a b in
  let hi := Nat.max a b in
  take (hi - lo) (drop lo s).

(** [s.substring(indexStart)]: the end defaults to the length. *)
Definition substringFrom (s : string) (indexStart : nat) : string :=
  substring s indexStart (String.length s).

(** The abstract operation StringIndexOf: the least position [>= pos]
    at which [t] occurs in [s]; [None] stands for [-1]. *)
Fixpoint indexOfAux (t s : string) (pos : nat) : option nat :=
  if prefix t s then Some pos
  else match s with
       | EmptyString => None
       | String _ s' => indexOfAux t s' (S pos)
       end.

(** [s.indexOf(t, fromIndex)] *)
Definition indexOf (s t : string) (fromIndex : nat) : option nat :=
  let k := Nat.min fromIndex (String.length s) in
  indexOfAux t (drop k s) k.

(** [s.includes(t)] *)
Definition includes (s t : string) : bool :=
  match indexOf s t 0 with
  | Some _ => true
  | None => false
  end.

(** Truthiness of a string: only the empty string is falsy. *)
Definition truthy (s : string) : bool :=
  match s with
  | EmptyString => false
  | String _ _ => true
  end.

(** White space as [trim] sees it, on the code units below 256: TAB, LF,
    VT, FF, CR, SPACE and NO-BREAK SPACE. *)
Definition isWhiteSpace (c : ascii) : bool :=
  let n := nat_of_ascii c in
  (((9 <=? n) && (n <=? 13)) || (n =? 32) || (n =? 160))%nat.

Fixpoint trimStart (s : string) : string :=
  match s with
  | EmptyString => EmptyString
  | String c s' => if isWhiteSpace c then trimStart s' else s
  end.

Fixpoint trimEnd (s : string) : string :=
  match s with
  | EmptyString => EmptyString
  | String c s' =>
      match trimEnd s' with
      | EmptyString => if isWhiteSpace c then EmptyString else String c EmptyString
      | r => String c r
      end
  end.

(** [s.trim()] *)
Definition trim (s : string) : string := trimEnd (trimStart s).

(** Lower-casing of one code unit below 256: A-Z, and the accented
    capitals U+00C0..U+00DE except the multiplication sign U+00D7, move
    up by 32. *)
Definition lowerChar (c : ascii) : ascii :=
  let n := nat_of_ascii c in
  if (((65 <=? n) && (n <=? 90)) || ((192 <=? n) && (n <=? 222) && negb (n =? 215)))%nat
  then ascii_of_nat (n + 32)
  else c.

(** [s.toLowerCase()] *)
Fixpoint toLowerCase (s : string) : string :=
  match s with
  | EmptyString => EmptyString
  | String c s' => String (lowerChar c) (toLowerCase s')
  end.

(** [t] occurs in [s] at position [i]. *)
Definition occursAt (t s : string) (i : nat) : Prop :=
  i <= String.length s /\ prefix t (drop i s) = true.

(** The positions [0 .. length s] tried in order: the first position at
    which [t] occurs in [s], as the specification words it. *)
Definition firstOccurrence (s t : string) : option nat :=
  find (fun i => prefix t (drop i s)) (seq 0 (S (String.length s))).

End JSString.

(* ================================================================= *)
(** ** The part of the DOM that search and the overlay share *)

Module DOM.

Open Scope string_scope.

(** The two classes a highlight marker can carry. *)
Inductive ClassName := search_highlight | search_current.

(** A highlight marker [<span class=... data-search-match=...>text</span>].
    [eid] is the identity of the element object: two elements with the
    same markup but different [eid] are different objects. The
    [data-search-match] attribute holds the decimal rendering of a
    number and is kept as that number. *)
Record Element := {
  eid : nat;
  className : ClassName;
  dataSearchMatch : nat;
  textContent : string
}.

Inductive Node :=
| TextNode (data : string)
| ElementNode (e : Element).

(** An overlay span is given by its child nodes; a text layer (one per
    page) by its spans; the document by its text layers, in document
    order. *)
Definition Span := list Node.
Definition TextLayer := list Span.
Definition Document := list TextLayer.

Definition nodeText (n : Node) : string :=
  match n with
  | TextNode data => data
  | ElementNode e => textContent e
  end.

(** [span.textContent] *)
Fixpoint spanTextContent (span : Span) : string :=
  match span with
  | [] => ""
  | n :: rest => nodeText n ++ spanTextContent rest
  end.

(** [node.normalize()]: empty text nodes are removed and adjacent text
    nodes are merged. *)
Fixpoint normalize (ns : list Node) : list Node :=
  match ns with
  | [] => []
  | ElementNode e :: rest => ElementNode e :: normalize rest
  | TextNode s :: rest =>
      match normalize rest with
      | TextNode t :: rest' => TextNode (s ++ t) :: rest'
      | r => if JSString.truthy s then TextNode s :: r else r
      end
  end.

(** The elements below a span, a layer, the document, in document
    order. *)
Fixpoint spanElements (span : Span) : list Element :=
  match span with
  | [] => []
  | TextNode _ :: rest => spanElements rest
  | ElementNode e :: rest => e :: spanElements rest
  end.

Definition layerElements (l : TextLayer) : list Element :=
  flat_map spanElements l.

Definition documentElements (d : Document) : list Element :=
  flat_map layerElements d.

(** Apply [f] to every element of the document. *)
Definition mapNode (f : Element -> Element) (n : Node) : Node :=
  match n with
  | TextNode s => TextNode s
  | ElementNode e => ElementNode (f e)
  end.

Definition mapElements (f : Element -> Element) (d : Document) : Document :=
  map (map (map (mapNode f))) d.

(** Apply [f] to the first element, in document order, that satisfies
    [p]; the boolean tells whether one was found. *)
Fixpoint updateFirstInSpan (p : Element -> bool) (f : Element -> Element)
         (span : Span) : Span * bool :=
  match span with
  | [] => ([], false)
  | TextNode s :: rest =>
      let '(rest', found) := updateFirstInSpan p f rest in
      (TextNode s :: rest', found)
  | ElementNode e :: rest =>
      if p e then (ElementNode (f e) :: rest, true)
      else let '(rest', found) := updateFirstInSpan p f rest in
           (ElementNode e :: rest', found)
  end.

Fixpoint updateFirstInLayer (p : Element -> bool) (f : Element -> Element)
         (l : TextLayer) : TextLayer * bool :=
  match l with
  | [] => ([], false)
  | span :: rest =>
      let '(span', found) := updateFirstInSpan p f span in
      if found then (span' :: rest, true)
      else let '(rest', found') := updateFirstInLayer p f rest in
           (span :: rest', found')
  end.

Fixpoint updateFirst (p : Element -> bool) (f : Element -> Element)
         (d : Document) : Document :=
  match d with
  | [] => []
  | l :: rest =>
      let '(l', found) := updateFirstInLayer p f l in
      if found then l' :: rest else l :: updateFirst p f rest
  end.

(** [document.querySelector]: the first element satisfying [p]. *)
Definition querySelector (p : Element -> bool) (d : Document) : option Element :=
  find p (documentElements d).

(** [document.querySelectorAll]: the static list of the elements
    satisfying [p]. *)
Definition querySelectorAll (p : Element -> bool) (d : Document) : list Element :=
  filter p (documentElements d).

(** What the HTML parser hands back of a text it is given: the input
    stream is preprocessed by normalising newlines (CR LF and a lone CR
    become LF), and the tree builder then ignores every U+0000. All
    other code units come back as they are: the serialiser escapes
    [&], [<], [>] and the no-break space, and the parser undoes
    that. *)
Definition NUL : ascii := "000"%char.
Definition LF : ascii := "010"%char.
Definition CR : ascii := "013"%char.

Fixpoint normalizeNewlines (afterCR : bool) (s : string) : string :=
  match s with
  | EmptyString => EmptyString
  | String c rest =>
      if Ascii.eqb c CR then String LF (normalizeNewlines true rest)
      else if Ascii.eqb c LF then
        if afterCR then normalizeNewlines false rest
        else String LF (normalizeNewlines false rest)
      else String c (normalizeNewlines false rest)
  end.

Fixpoint dropNUL (s : string) : string :=
  match s with
  | EmptyString => EmptyString
  | String c rest =>
      if Ascii.eqb c NUL then dropNUL rest else String c (dropNUL rest)
  end.

Definition parsedText (s : string) : string :=
  dropNUL (normalizeNewlines false s).

(** A text without CR and without U+0000: the parser hands it back as
    it is. *)
Fixpoint parserSafe (s : string) : bool :=
  match s with
  | EmptyString => true
  | String c rest =>
      negb (Ascii.eqb c CR) && negb (Ascii.eqb c NUL) && parserSafe rest
  end.

(** A node as it comes back from the serialiser and the parser. Markup
    stands between a text and the element next to it, so each text is
    preprocessed on its own. *)
Definition parsedNode (n : Node) : Node :=
  match n with
  | TextNode s => TextNode (parsedText s)
  | ElementNode e =>
      ElementNode {| eid := eid e; className := className e;
                     dataSearchMatch := dataSearchMatch e;
                     textContent := parsedText (textContent e) |}
  end.

(** Assigning [innerHTML] from another element's [innerHTML]: the
    markup is serialised and parsed again, which yields the parsed
    texts and the same attributes on new element objects; a text that
    comes back empty gives no node. [next] is the first unused
    identity. *)
Fixpoint freshen (next : nat) (ns : list Node) : list Node * nat :=
  match ns with
  | [] => ([], next)
  | TextNode s :: rest =>
      let '(rest', next') := freshen next rest in
      (TextNode s :: rest', next')
  | ElementNode e :: rest =>
      let e' := {| eid := next; className := className e;
                   dataSearchMatch := dataSearchMatch e;
                   textContent := textContent e |} in
      let '(rest', next') := freshen (S next) rest in
      (ElementNode e' :: rest', next')
  end.

Definition reparse (next : nat) (ns : list Node) : list Node * nat :=
  freshen next (normalize (map parsedNode ns)).

End DOM.

(* ================================================================= *)
(** ** [frontend/js/search.js]: class [SearchManager] *)

Module SearchManager.

Import JSString DOM.
Open Scope string_scope.

(** One entry of [this.searchMatches]. [element] is the highlight
    element the code created with [document.createElement]. *)
Record SearchMatch := {
  element : Element;
  pageIndex : nat;
  spanIndex : nat;
  text : string
}.

(** [searchResults.textContent]: empty, or [`${current} of ${total}`]. *)
Inductive ResultsText :=
| NoResults
| ResultsOf (current : Z) (total : nat).

(** What the manager asks of its surroundings: [pdfViewer.goToPage] and
    the deferred [element.scrollIntoView]. *)
Inductive Effect :=
| GoToPage (pageNum : nat)
| ScrollIntoView (target : Element).

(** The manager together with the page it lives in. [pdfDoc] tells
    whether [this.pdfViewer.pdfDoc] is set; [searchInput] is
    [this.searchInput.value]; [nextId] is the first element identity
    not yet handed out. *)
Record State := {
  pdfDoc : bool;
  searchInput : string;
  searchMatches : list SearchMatch;
  currentSearchIndex : Z;
  document : Document;
  nextId : nat;
  searchResults : ResultsText;
  searchPrevDisabled : bool;
  searchNextDisabled : bool;
  effects : list Effect
}.

Definition setSearchInput (v : string) (this : State) : State :=
  {| pdfDoc := pdfDoc this; searchInput := v;
     searchMatches := searchMatches this;
     currentSearchIndex := currentSearchIndex this;
     document := document this; nextId := nextId this;
     searchResults := searchResults this;
     searchPrevDisabled := searchPrevDisabled this;
     searchNextDisabled := searchNextDisabled this;
     effects := effects this |}.

Definition setSearchMatches (ms : list SearchMatch) (this : State) : State :=
  {| pdfDoc := pdfDoc this; searchInput := searchInput this;
     searchMatches := ms;
     currentSearchIndex := currentSearchIndex this;
     document := document this; nextId := nextId this;
     searchResults := searchResults this;
     searchPrevDisabled := searchPrevDisabled this;
     searchNextDisabled := searchNextDisabled this;
     effects := effects this |}.

Definition setCurrentSearchIndex (i : Z) (this : State) : State :=
  {| pdfDoc := pdfDoc this; searchInput := searchInput this;
     searchMatches := searchMatches this;
     currentSearchIndex := i;
     document := document this; nextId := nextId this;
     searchResults := searchResults this;
     searchPrevDisabled := searchPrevDisabled this;
     searchNextDisabled := searchNextDisabled this;
     effects := effects this |}.

Definition setDocument (d : Document) (n : nat) (this : State) : State :=
  {| pdfDoc := pdfDoc this; searchInput := searchInput this;
     searchMatches := searchMatches this;
     currentSearchIndex := currentSearchIndex this;
     document := d; nextId := n;
     searchResults := searchResults this;
     searchPrevDisabled := searchPrevDisabled this;
     searchNextDisabled := searchNextDisabled this;
     effects := effects this |}.

Definition setResults (r : ResultsText) (disabled : bool) (this : State) : State :=
  {| pdfDoc := pdfDoc this; searchInput := searchInput this;
     searchMatches := searchMatches this;
     currentSearchIndex := currentSearchIndex this;
     document := document this; nextId := nextId this;
     searchResults := r;
     searchPrevDisabled := disabled;
     searchNextDisabled := disabled;
     effects := effects this |}.

Definition addEffects (es : list Effect) (this : State) : State :=
  {| pdfDoc := pdfDoc this; searchInput := searchInput this;
     searchMatches := searchMatches this;
     currentSearchIndex := currentSearchIndex this;
     document := document this; nextId := nextId this;
     searchResults := searchResults this;
     searchPrevDisabled := searchPrevDisabled this;
     searchNextDisabled := searchNextDisabled this;
     effects := effects this ++ es |}.

(** [constructor(pdfViewer)], in a page whose text layers are [d]. *)
Definition constructor (loaded : bool) (d : Document) (n : nat) : State :=
  {| pdfDoc := loaded; searchInput := "";
     searchMatches := []; currentSearchIndex := (-1)%Z;
     document := d; nextId := n;
     searchResults := NoResults;
     searchPrevDisabled := false; searchNextDisabled := false;
     effects := [] |}.

(** [updateSearchResults()] *)
Definition updateSearchResults (this : State) : State :=
  match searchMatches this with
  | [] => setResults NoResults true this
  | _ :: _ =>
      setResults (ResultsOf (currentSearchIndex this + 1)
                            (List.length (searchMatches this))) false this
  end.

(** The selector ['.search-highlight, .search-current']. *)
Definition isHighlight (e : Element) : bool :=
  match className e with
  | search_highlight => true
  | search_current => true
  end.

(** The selector ['.search-current']. *)
Definition isCurrent (e : Element) : bool :=
  match className e with
  | search_current => true
  | search_highlight => false
  end.

(** The selector [`[data-search-match="${i}"]`]. *)
Definition hasSearchMatch (i : Z) (e : Element) : bool :=
  (Z.of_nat (dataSearchMatch e) =? i)%Z.

Definition setClass (c : ClassName) (e : Element) : Element :=
  {| eid := eid e; className := c;
     dataSearchMatch := dataSearchMatch e; textContent := textContent e |}.

(** One round of the [forEach] in [clearSearchHighlights]: in the parent
    of [highlight], the element is replaced by a text node holding its
    text, and the parent is normalised. *)
Definition isNode (highlight : Element) (n : Node) : bool :=
  match n with
  | TextNode _ => false
  | ElementNode e => (eid e =? eid highlight)%nat
  end.

Definition replaceChild (highlight : Element) (n : Node) : Node :=
  match n with
  | TextNode s => TextNode s
  | ElementNode e =>
      if (eid e =? eid highlight)%nat then TextNode (textContent e) else n
  end.

Definition unwrapIn (highlight : Element) (parent : Span) : Span :=
  if existsb (isNode highlight) parent
  then normalize (map (replaceChild highlight) parent)
  else parent.

Definition unwrap (d : Document) (highlight : Element) : Document :=
  map (map (unwrapIn highlight)) d.

(** [clearSearchHighlights()] *)
Definition clearSearchHighlights (this : State) : State :=
  let highlights := querySelectorAll isHighlight (document this) in
  setDocument (fold_left unwrap highlights (document this)) (nextId this) this.

(** [highlightCurrentMatch()] *)
Definition highlightCurrentMatch (this : State) : State :=
  let d := mapElements
             (fun el => if isCurrent el then setClass search_highlight el else el)
             (document this) in
  let i := currentSearchIndex this in
  let d :=
    if ((0 <=? i) && (i <? Z.of_nat (List.length (searchMatches this))))%Z
    then match querySelector (hasSearchMatch i) d with
         | Some _ => updateFirst (hasSearchMatch i) (setClass search_current) d
         | None => d
         end
    else d in
  updateSearchResults (setDocument d (nextId this) this).

(** [scrollToCurrentMatch()] *)
Definition scrollToCurrentMatch (this : State) : State :=
  let i := currentSearchIndex this in
  if ((0 <=? i) && (i <? Z.of_nat (List.length (searchMatches this))))%Z
  then match nth_error (searchMatches this) (Z.to_nat i),
             querySelector (hasSearchMatch i) (document this) with
       | Some currentMatch, Some el =>
           addEffects [GoToPage (pageIndex currentMatch); ScrollIntoView el] this
       | _, _ => this
       end
  else this.

(** [list.forEach((x, index) => ...)] where the callback may change the
    visited node in place and threads the state [s]. *)
Fixpoint forEach {A St : Type} (callback : A -> nat -> St -> St * A)
         (l : list A) (index : nat) (s : St) : St * list A :=
  match l with
  | [] => (s, [])
  | x :: rest =>
      let '(s1, x') := callback x index s in
      let '(s2, rest') := forEach callback rest (S index) s1 in
      (s2, x' :: rest')
  end.

(** What the scan of [performSearch] threads through its two loops:
    [this.searchMatches] and the next free element identity. *)
Definition Scan := (list SearchMatch * nat)%type.

(** The body of the inner [forEach] of [performSearch] for one span.
    The [while] loop ends in [break], so its body runs at most once. *)
Definition searchSpan (searchTerm searchTermLower : string) (pageIndex : nat)
           (span : Span) (spanIndex : nat) (acc : Scan) : Scan * Span :=
  let '(matches, next) := acc in
  let text := toLowerCase (spanTextContent span) in
  let originalText := spanTextContent span in
  if includes text searchTermLower then
    match indexOf text searchTermLower 0 with
    | Some index =>
        let beforeText := substring originalText 0 index in
        let matchText :=
          substring originalText index (index + String.length searchTerm) in
        let afterText :=
          substringFrom originalText (index + String.length searchTerm) in
        let highlightSpan :=
          {| eid := next; className := search_highlight;
             dataSearchMatch := List.length matches;
             textContent := matchText |} in
        let newContent :=
          ((if truthy beforeText then [TextNode beforeText] else [])
           ++ [ElementNode highlightSpan]
           ++ (if truthy afterText then [TextNode afterText] else []))%list in
        let matches' :=
          (matches ++ [{| element := highlightSpan;
                          pageIndex := pageIndex + 1;
                          spanIndex := spanIndex;
                          text := matchText |}])%list in
        let '(span', next') := reparse (S next) newContent in
        ((matches', next'), span')
    | None => (acc, span)
    end
  else (acc, span).

(** The body of the outer [forEach] for one text layer. *)
Definition searchLayer (searchTerm searchTermLower : string)
           (textLayer : TextLayer) (pageIndex : nat) (acc : Scan)
  : Scan * TextLayer :=
  forEach (searchSpan searchTerm searchTermLower pageIndex) textLayer 0 acc.

(** [performSearch(searchTerm)]. After [clearSearchHighlights] no
    highlight element is left, so [textLayer.querySelectorAll('span')]
    lists exactly the overlay spans of the layer. *)
Definition performSearch (searchTerm : string) (this : State) : State :=
  let this := clearSearchHighlights this in
  let this := setSearchMatches [] this in
  let this := setCurrentSearchIndex (-1)%Z this in
  if negb (pdfDoc this) || negb (truthy searchTerm) then this
  else
    let searchTermLower := toLowerCase searchTerm in
    let '((matches, next), d) :=
      forEach (searchLayer searchTerm searchTermLower) (document this) 0
              (searchMatches this, nextId this) in
    let this := setDocument d next (setSearchMatches matches this) in
    let this :=
      if (0 <? List.length (searchMatches this))%nat
      then highlightCurrentMatch (setCurrentSearchIndex 0%Z this)
      else this in
    updateSearchResults this.

(** [handleSearch()] *)
Definition handleSearch (this : State) : State :=
  let searchTerm := trim (searchInput this) in
  if (String.length searchTerm =? 0)%nat then
    let this := clearSearchHighlights this in
    let this := setSearchMatches [] this in
    let this := setCurrentSearchIndex (-1)%Z this in
    updateSearchResults this
  else if (String.length searchTerm <? 2)%nat then this
  else performSearch searchTerm this.

(** [clearSearch()] *)
Definition clearSearch (this : State) : State :=
  let this := setSearchInput "" this in
  let this := clearSearchHighlights this in
  let this := setSearchMatches [] this in
  let this := setCurrentSearchIndex (-1)%Z this in
  updateSearchResults this.

(** [goToNextMatch()]; [%] is the remainder that takes the sign of the
    dividend. *)
Definition goToNextMatch (this : State) : State :=
  if (List.length (searchMatches this) =? 0)%nat then this
  else
    let this :=
      setCurrentSearchIndex
        (Z.rem (currentSearchIndex this + 1)
               (Z.of_nat (List.length (searchMatches this)))) this in
    scrollToCurrentMatch (highlightCurrentMatch this).

(** [goToPreviousMatch()] *)
Definition goToPreviousMatch (this : State) : State :=
  if (List.length (searchMatches this) =? 0)%nat then this
  else
    let this :=
      setCurrentSearchIndex
        (if (currentSearchIndex this <=? 0)%Z
         then Z.of_nat (List.length (searchMatches this)) - 1
         else currentSearchIndex this - 1)%Z this in
    scrollToCurrentMatch (highlightCurrentMatch this).

(** The operations the module offers to the rest of the application:
    typing a term into the search box, next, previous, clear. *)
Definition search (term : string) (this : State) : State :=
  handleSearch (setSearchInput term this).

Definition nextMatch : State -> State := goToNextMatch.
Definition previousMatch : State -> State := goToPreviousMatch.
Definition clear : State -> State := clearSearch.

Inductive Op :=
| OpSearch (term : string)
| OpNext
| OpPrevious
| OpClear.

Definition step (this : State) (op : Op) : State :=
  match op with
  | OpSearch term => search term this
  | OpNext => nextMatch this
  | OpPrevious => previousMatch this
  | OpClear => clear this
  end.

Definition run (ops : list Op) (this : State) : State :=
  fold_left step ops this.

(** [n] calls of [nextMatch]. *)
Fixpoint nextTimes (n : nat) (this : State) : State :=
  match n with
  | O => this
  | S n' => nextTimes n' (nextMatch this)
  end.

(** The match list with the stored [element] of every match replaced. *)
Definition withElements (f : SearchMatch -> Element) (ms : list SearchMatch)
  : list SearchMatch :=
  map (fun m => {| element := f m; pageIndex := pageIndex m;
                   spanIndex := spanIndex m; text := text m |}) ms.

(** The index is [-1] exactly when there is no match, and otherwise
    points into the match list. *)
Definition indexInvariant (this : State) : Prop :=
  (currentSearchIndex this = (-1)%Z <-> searchMatches this = []) /\
  (searchMatches this <> [] ->
   (0 <= currentSearchIndex this < Z.of_nat (List.length (searchMatches this)))%Z).

(** *** The search of section 4.4, in the specification's words

    A case-insensitive scan over the text of every overlay node, in
    page order then node order; a node that contains the term gives one
    match, for the first occurrence only; match indices count up from
    zero in discovery order. *)
Record SpecMatch := {
  matchIndex : nat;
  pageNumber : nat;
  ownerNodeIndex : nat;
  matchedSubstring : string
}.

Definition specMatch (term nodeText : string) : option string :=
  match firstOccurrence (toLowerCase nodeText) (toLowerCase term) with
  | Some i => Some (substring nodeText i (i + String.length term))
  | None => None
  end.

Fixpoint specScanNodes (term : string) (page : nat) (nodes : list string)
         (node : nat) (index : nat) : list SpecMatch :=
  match nodes with
  | [] => []
  | nodeText :: rest =>
      match specMatch term nodeText with
      | Some sub =>
          {| matchIndex := index; pageNumber := page;
             ownerNodeIndex := node; matchedSubstring := sub |}
          :: specScanNodes term page rest (S node) (S index)
      | None => specScanNodes term page rest (S node) index
      end
  end.

Fixpoint specScanPages (term : string) (pages : list (list string))
         (page : nat) (index : nat) : list SpecMatch :=
  match pages with
  | [] => []
  | nodes :: rest =>
      let found := specScanNodes term page nodes 0 index in
      (found ++ specScanPages term rest (S page) (index + List.length found))%list
  end.

Definition specSearch (term : string) (pages : list (list string))
  : list SpecMatch :=
  specScanPages term pages 1 0.

(** The node a match belongs to: its page and its place on the page. *)
Definition owner (r : SpecMatch) : nat * nat :=
  (pageNumber r, ownerNodeIndex r).

(** A stored match read as the specification's record: its index is
    the [data-search-match] value the code gave its highlight. *)
Definition toSpec (m : SearchMatch) : SpecMatch :=
  {| matchIndex := dataSearchMatch (element m);
     pageNumber := pageIndex m;
     ownerNodeIndex := spanIndex m;
     matchedSubstring := text m |}.

(** The markup [performSearch] builds for a matching span. *)
Definition wrapped (before : string) (h : Element) (after : string) : Span :=
  ((if truthy before then [TextNode before] else [])
   ++ [ElementNode h]
   ++ (if truthy after then [TextNode after] else []))%list.

(** The element the parser creates for the stored highlight of a match:
    the same attributes and the parsed text under the next identity. *)
Definition live (m : SearchMatch) : Element :=
  {| eid := S (eid (element m));
     className := className (element m);
     dataSearchMatch := dataSearchMatch (element m);
     textContent := parsedText (textContent (element m)) |}.

(** Two nodes, spans, documents that differ at most in the classes of
    their elements. *)
Definition sameButClass (n n' : Node) : Prop :=
  match n, n' with
  | TextNode s, TextNode s' => s = s'
  | ElementNode e, ElementNode e' =>
      eid e = eid e' /\ dataSearchMatch e = dataSearchMatch e' /\
      textContent e = textContent e'
  | _, _ => False
  end.

Definition upToClass (d d' : Document) : Prop :=
  Forall2 (Forall2 (Forall2 sameButClass)) d d'.

(** A plain overlay, as [createTextLayer] builds it: every span holds
    one non-empty text node. *)
Definition plainSpan (span : Span) : bool :=
  match span with
  | [TextNode s] => truthy s
  | _ => false
  end.

(** A span with some text in it that, if it holds no element, is a
    single text node. *)
Definition settled (span : Span) : Prop :=
  truthy (spanTextContent span) = true /\
  (spanElements span = [] -> plainSpan span = true).

(** An element other than [h]. *)
Definition otherThan (h e : Element) : bool := negb (eid e =? eid h)%nat.

(** The stored match and the new span for a node whose text holds the
    term at index [i], when [index] matches were found before and
    [next] is the next free identity. *)
Definition matchAt (term : string) (page node : nat) (span : Span)
           (index next i : nat) : SearchMatch :=
  {| element :=
       {| eid := next; className := search_highlight;
          dataSearchMatch := index;
          textContent :=
            substring (spanTextContent span) i (i + String.length term) |};
     pageIndex := page + 1;
     spanIndex := node;
     text := substring (spanTextContent span) i (i + String.length term) |}.

Definition spanAt (term : string) (page node : nat) (span : Span)
           (index next i : nat) : Span :=
  wrapped (parsedText (substring (spanTextContent span) 0 i))
          (live (matchAt term page node span index next i))
          (parsedText
             (substringFrom (spanTextContent span) (i + String.length term))).

(** The stored element of [m] was created by a scan that started at the
    identity [next]: each match takes two identities, the first for the
    stored element, the second for the one the parser creates. *)
Definition freshFrom (next : nat) (m : SearchMatch) : Prop :=
  exists k, eid (element m) = next + 2 * k.

(** The identity, the match attribute and the text of an element: all
    of it but the class. *)
Definition key (e : Element) : nat * nat * string :=
  (eid e, dataSearchMatch e, textContent e).

Definition keepsKey (f : Element -> Element) : Prop :=
  forall e, eid (f e) = eid e /\ dataSearchMatch (f e) = dataSearchMatch e /\
            textContent (f e) = textContent e.

(** Every overlay node of the document is plain. *)
Definition plainOverlay (d : Document) : bool :=
  forallb (forallb plainSpan) d.

(** The text of every overlay node, page by page. *)
Definition overlayText (d : Document) : list (list string) :=
  map (map spanTextContent) d.

(** No overlay node has a CR or a U+0000 in its text. *)
Definition parserSafeOverlay (d : Document) : bool :=
  forallb (forallb parserSafe) (overlayText d).

(** Example page contents. *)
Definition overlayOf (pages : list (list string)) : Document :=
  map (map (fun s => [TextNode s])) pages.

Definition exampleWorld : State :=
  constructor true (overlayOf [["Hello"; "World"]]) 0.

Definition exampleCats : State :=
  constructor true
    (overlayOf [["A dog"; "sat"]; ["The Cat sat"; "on"; "a cat. cat!"]]) 0.

(** One overlay node whose text is "cat", a carriage return, "dog". *)
Definition exampleCarriageReturn : State :=
  constructor true (overlayOf [["cat" ++ String CR "dog"]]) 0.

End SearchManager.

(* ================================================================= *)
(** ** The viewer core: class [PDFViewer] *)

Module PDFViewer.

Import JSString.

(** *** Numbers *)

(** [m[i]] on an array of numbers used in arithmetic: a missing entry
    is [undefined], which arithmetic turns into [NaN]. *)
Definition at_ (m : list float) (i : nat) : float := nth i m nan.

(** Truthiness of a number: [0], [-0] and [NaN] are falsy. *)
Definition numTruthy (x : float) : bool :=
  negb (PrimFloat.eqb x 0) && negb (is_nan x).

(** [x >= 0] *)
Definition geZero (x : float) : bool := PrimFloat.leb 0 x.

(** The values that compare [>= 0] in the specification of the floats:
    zeros, positive numbers, [+infinity]. *)
Definition nonneg (x : SpecFloat.spec_float) : bool :=
  match x with
  | SpecFloat.S754_zero _ => true
  | SpecFloat.S754_infinity s => negb s
  | SpecFloat.S754_finite s _ _ => negb s
  | SpecFloat.S754_nan => false
  end.

(** Modelled from the spec: [pdfjsLib.Util.transform(m1, m2)] belongs to
    the rendering library; section 4.1 describes it as the composition
    of the two affine transforms by the standard 2x3 matrix product, on
    matrices written [a, b, c, d, e, f]. *)
Definition Util_transform (m1 m2 : list float) : list float :=
  [ at_ m1 0 * at_ m2 0 + at_ m1 2 * at_ m2 1;
    at_ m1 1 * at_ m2 0 + at_ m1 3 * at_ m2 1;
    at_ m1 0 * at_ m2 2 + at_ m1 2 * at_ m2 3;
    at_ m1 1 * at_ m2 2 + at_ m1 3 * at_ m2 3;
    at_ m1 0 * at_ m2 4 + at_ m1 2 * at_ m2 5 + at_ m1 4;
    at_ m1 1 * at_ m2 4 + at_ m1 3 * at_ m2 5 + at_ m1 5 ]%float.

(** *** Text items and overlay spans *)

(** One entry of [textContent.items]. [transform] is [None] when the
    property is missing ([undefined] or [null]); an array that is
    present may still have any length. An empty [str], [dir] or
    [fontName] also stands for a missing one: the code only tests their
    truthiness. *)
Record TextItem := {
  str : string;
  dir : string;
  transform : option (list float);
  width : float;
  height : float;
  fontName : string
}.

Record Viewport := {
  viewportTransform : list float;
  viewportWidth : float;
  viewportHeight : float
}.

(** A span of the text layer: its text and the style the code computes
    for it. Lengths are kept as numbers, without their ['px'] suffix.
    The styles that are the same on every span (absolute position,
    transparent colour, [white-space: pre], ...) are left out. *)
Record OverlaySpan := {
  spanText : string;
  spanDir : string;
  left : float;
  top : float;
  fontSize : float;
  fontFamily : string;
  rotate : option float;
  size : option (float * float)
}.

(** The text-layer container, the items reported by [console.warn], and
    the counter the code logs at the end. *)
Record TextLayer := {
  children : list OverlaySpan;
  layerWidth : float;
  layerHeight : float;
  warned : list TextItem;
  textElementCount : nat
}.

Definition orElse (s default : string) : string :=
  if truthy s then s else default.

(** [!textItem.str || textItem.str.trim() === ''] *)
Definition isBlank (textItem : TextItem) : bool :=
  negb (truthy (str textItem)) || String.eqb (trim (str textItem)) "".

(** A transform with six entries, none of them [NaN]. *)
Definition wellFormed (t : option (list float)) : bool :=
  match t with
  | Some m => (List.length m =? 6)%nat && forallb (fun x => negb (is_nan x)) m
  | None => false
  end.

Section WithMath.

(** [Math.atan2] is the only numeric built-in the primitive floats do
    not offer. *)
Variable atan2 : float -> float -> float.

(** The body of the [try] block for one text item; [None] when it
    throws, which reading an entry of a missing transform does. *)
Definition createSpan (viewport : Viewport) (textItem : TextItem)
  : option OverlaySpan :=
  match transform textItem with
  | None => None
  | Some itemTransform =>
      let transform := Util_transform (viewportTransform viewport) itemTransform in
      let left := at_ transform 4 in
      let top := at_ transform 5 in
      let fontHeight :=
        sqrt (at_ transform 2 * at_ transform 2
              + at_ transform 3 * at_ transform 3)%float in
      let angle := atan2 (at_ transform 1) (at_ transform 0) in
      Some {| spanText := str textItem;
              spanDir := orElse (dir textItem) "ltr";
              left := left;
              top := top;
              fontSize := fontHeight;
              fontFamily := orElse (fontName textItem) "sans-serif";
              rotate :=
                if PrimFloat.ltb 0x1.47ae147ae147bp-7 (abs angle) (* 0.01 *)
                then Some angle else None;
              size :=
                if numTruthy (width textItem) && numTruthy (height textItem)
                then Some (abs (at_ transform 0 * width textItem
                                + at_ transform 2 * height textItem),
                           abs (at_ transform 1 * width textItem
                                + at_ transform 3 * height textItem))%float
                else None |}
  end.

(** The [for] loop of [createTextLayer]. *)
Fixpoint appendSpans (viewport : Viewport) (textItems : list TextItem)
         (container : TextLayer) : TextLayer :=
  match textItems with
  | [] => container
  | textItem :: rest =>
      if isBlank textItem then appendSpans viewport rest container
      else
        match createSpan viewport textItem with
        | Some span =>
            appendSpans viewport rest
              {| children := children container ++ [span];
                 layerWidth := layerWidth container;
                 layerHeight := layerHeight container;
                 warned := warned container;
                 textElementCount := S (textElementCount container) |}
        | None =>
            appendSpans viewport rest
              {| children := children container;
                 layerWidth := layerWidth container;
                 layerHeight := layerHeight container;
                 warned := warned container ++ [textItem];
                 textElementCount := textElementCount container |}
        end
  end.

(** [createTextLayer(textContent, container, viewport)]; [textContent]
    is [None] when it, or its [items], is missing. *)
Definition createTextLayer (textContent : option (list TextItem))
           (container : TextLayer) (viewport : Viewport) : TextLayer :=
  match textContent with
  | None => container
  | Some textItems =>
      appendSpans viewport textItems
        {| children := [];
           layerWidth := viewportWidth viewport;
           layerHeight := viewportHeight viewport;
           warned := warned container;
           textElementCount := 0 |}
  end.

End WithMath.

(** *** Selection tracking *)

Inductive Display := DisplayUnset | DisplayBlock | DisplayNone.

(** The fields [handleSelectionChange] reads and writes:
    [lastSelectedText] ([None] for [null]), the number shown in
    [selectionCount], and the [display] style of [selectionInfo] and of
    [contextMenu]. *)
Record Selection := {
  lastSelectedText : option string;
  selectionCount : nat;
  selectionInfo : Display;
  contextMenu : Display
}.

(** [constructor()], for the fields above. *)
Definition constructor : Selection :=
  {| lastSelectedText := None; selectionCount := 0;
     selectionInfo := DisplayUnset; contextMenu := DisplayUnset |}.

(** [getSelectedText()], where [selection] is
    [window.getSelection().toString()]. *)
Definition getSelectedText (selection : string) : string := trim selection.

(** [hideContextMenu()] *)
Definition hideContextMenu (this : Selection) : Selection :=
  {| lastSelectedText := lastSelectedText this;
     selectionCount := selectionCount this;
     selectionInfo := selectionInfo this;
     contextMenu := DisplayNone |}.

(** The callback [handleSelectionChange] hands to [setTimeout]; it runs
    once the delay is over, when the window's selection reads
    [selection]. *)
Definition handleSelectionChange (this : Selection) (selection : string)
  : Selection :=
  let selectedText := getSelectedText selection in
  if (0 <? String.length selectedText)%nat then
    {| lastSelectedText := Some selectedText;
       selectionCount := String.length selectedText;
       selectionInfo := DisplayBlock;
       contextMenu := contextMenu this |}
  else
    hideContextMenu
      {| lastSelectedText := lastSelectedText this;
         selectionCount := 0;
         selectionInfo := DisplayNone;
         contextMenu := contextMenu this |}.

(** A run of selection-change events, each given by what the selection
    reads when its callback fires. *)
Definition selectionChanges (events : list string) (this : Selection)
  : Selection :=
  fold_left handleSelectionChange events this.

(** The most recent non-empty selected text among [events], if any:
    the specification's "last-known selected text". *)
Fixpoint lastNonEmpty (events : list string) (before : option string)
  : option string :=
  match events with
  | [] => before
  | selection :: rest =>
      lastNonEmpty rest
        (if truthy (trim selection) then Some (trim selection) else before)
  end.

(** *** The statements of the specification *)

(** The transform property is there. *)
Definition present (t : option (list float)) : bool :=
  match t with
  | Some _ => true
  | None => false
  end.

(** The items that get a span, and the items that are skipped with a
    warning. *)
Definition kept (textItem : TextItem) : bool :=
  negb (isBlank textItem) && present (transform textItem).

Definition skipped (textItem : TextItem) : bool :=
  negb (isBlank textItem) && negb (present (transform textItem)).

(** The font size as section 4.1 spells it out in components,
    [sqrt(b^2 + d^2)] of the matrix [a, b, c, d, e, f]. *)
Definition specFontSize (m : list float) : float :=
  sqrt (at_ m 1 * at_ m 1 + at_ m 3 * at_ m 3)%float.

(** The norm of the image [(c, d)] of the vertical basis vector. *)
Definition verticalNorm (m : list float) : float :=
  sqrt (at_ m 2 * at_ m 2 + at_ m 3 * at_ m 3)%float.

(** *** Example inputs *)

(** [Math.atan2] where the examples need it: at [y = 0], [x > 0] the
    angle is exactly [0]; elsewhere the examples do not look at it. *)
Definition exampleAtan2 (y x : float) : float :=
  if PrimFloat.eqb y 0 && PrimFloat.ltb 0 x then 0%float else nan.

Definition identityViewport : Viewport :=
  {| viewportTransform := [1; 0; 0; 1; 0; 0]%float;
     viewportWidth := 612; viewportHeight := 792 |}.

Definition item (s : string) (t : option (list float)) : TextItem :=
  {| str := s; dir := ""; transform := t;
     width := 0; height := 0; fontName := "" |}.

Definition emptyLayer : TextLayer :=
  {| children := []; layerWidth := 0; layerHeight := 0;
     warned := []; textElementCount := 0 |}.

End PDFViewer.

(* ================================================================= *)
(** ** [frontend/js/search.js]: the rest of class [SearchManager] *)

Module SearchManagerRest.

Import JSString DOM SearchManager.
Open Scope string_scope.

(** What [handleSearchKeydown] reads of a keyboard event. The call of
    [event.preventDefault()] on Enter changes nothing of the manager and
    is left out. *)
Record KeyboardEvent := {
  key : string;
  shiftKey : bool
}.

(** [handleSearchKeydown(event)] *)
Definition handleSearchKeydown (event : KeyboardEvent) (this : State) : State :=
  if String.eqb (key event) "Enter" then
    if shiftKey event then goToPreviousMatch this else goToNextMatch this
  else if String.eqb (key event) "Escape" then clearSearch this
  else this.

(** [[...new Set(xs)]]: the values of [xs] in the order of their first
    occurrence. *)
Definition newSet (xs : list nat) : list nat :=
  fold_left (fun set x => if existsb (Nat.eqb x) set then set else set ++ [x])%list
            xs [].

(** The object [getSearchStats()] returns. *)
Record SearchStats := {
  totalMatches : nat;
  currentMatch : Z;
  searchTerm : string;
  pagesWithMatches : list nat
}.

(** [getSearchStats()] *)
Definition getSearchStats (this : State) : SearchStats :=
  {| totalMatches := List.length (searchMatches this);
     currentMatch := (currentSearchIndex this + 1)%Z;
     searchTerm := trim (searchInput this);
     pagesWithMatches := newSet (map pageIndex (searchMatches this)) |}.

(** [element.closest('span')]: a highlight element is itself a [span],
    so the closest one is the element. *)
Definition closestSpan (e : Element) : option Element := Some e.

(** [getMatchContext(match, contextLength = 50)]. Nothing in the [try]
    block throws on a stored match. [Math.max(0, a - b)] on lengths is
    the truncated difference. *)
Definition getMatchContext (m : SearchMatch) (contextLength : nat) : string :=
  match closestSpan (element m) with
  | None => text m
  | Some span =>
      let parentText := textContent span in
      match indexOf (toLowerCase parentText) (toLowerCase (text m)) 0 with
      | None => text m
      | Some matchStart =>
          let start := Nat.max 0 (matchStart - contextLength) in
          let end_ := Nat.min (String.length parentText)
                              (matchStart + String.length (text m) + contextLength) in
          let context := substring parentText start end_ in
          let context := if (0 <? start)%nat then "..." ++ context else context in
          let context :=
            if (end_ <? String.length parentText)%nat then context ++ "..."
            else context in
          context
      end
  end.

(** One entry of [results], and the exported object without its time
    stamp. *)
Record ExportedResult := {
  index : nat;
  page : nat;
  resultText : string;
  context : string
}.

Record ExportData := {
  exportedTerm : string;
  exportedTotal : nat;
  results : list ExportedResult
}.

(** [array.map((x, index) => ...)] *)
Fixpoint mapIndexed {A B : Type} (f : A -> nat -> B) (l : list A) (i : nat)
  : list B :=
  match l with
  | [] => []
  | x :: rest => f x i :: mapIndexed f rest (S i)
  end.

(** What [exportSearchResults()] does: it alerts that there is nothing
    to export, or it offers the export data for download (the file name
    carries the clock and is left out). *)
Inductive Exported :=
| AlertNoResults
| Download (data : ExportData).

(** [exportSearchResults()] *)
Definition exportSearchResults (this : State) : Exported :=
  if (List.length (searchMatches this) =? 0)%nat then AlertNoResults
  else
    let searchTerm := trim (searchInput this) in
    let results :=
      mapIndexed (fun m index =>
                    {| index := index + 1;
                       page := pageIndex m;
                       resultText := text m;
                       context := getMatchContext m 50 |})
                 (searchMatches this) 0 in
    Download {| exportedTerm := searchTerm;
                exportedTotal := List.length (searchMatches this);
                results := results |}.

(** The label and the buttons agree with the match list: what
    [updateSearchResults] writes. *)
Definition displayAgrees (this : State) : Prop :=
  match searchMatches this with
  | [] => searchResults this = NoResults
          /\ searchPrevDisabled this = true
          /\ searchNextDisabled this = true
  | _ :: _ => searchResults this
              = ResultsOf (currentSearchIndex this + 1)
                          (List.length (searchMatches this))
              /\ searchPrevDisabled this = false
              /\ searchNextDisabled this = false
  end.

(** The number of elements that carry the class [search-current]. *)
Definition currentCount (d : Document) : nat :=
  List.length (filter isCurrent (documentElements d)).

(** [updateFirst] as it shows in the list of the document's elements. *)
Fixpoint updateFirstOf (p : Element -> bool) (f : Element -> Element)
         (es : list Element) : list Element :=
  match es with
  | [] => []
  | e :: rest => if p e then f e :: rest else e :: updateFirstOf p f rest
  end.

(** [m] is the match the scan stores for some node whose lower-cased
    text holds the lower-cased term, first at index [i]. *)
Definition isMatchAt (term : string) (m : SearchMatch) : Prop :=
  exists page node span index next i,
    firstOccurrence (toLowerCase (spanTextContent span)) (toLowerCase term)
    = Some i
    /\ m = matchAt term page node span index next i.

(** The highlight elements of the document carry, in document order,
    the match indices 0, 1, 2, ... of the match list. *)
Definition attrsInOrder (this : State) : Prop :=
  map dataSearchMatch (documentElements (document this))
  = seq 0 (List.length (searchMatches this)).

(** A move from [before] to [after] arrives at a match: the index of
    [after] points at a match [m], exactly one element [e] of the
    document is marked current and it carries that index, and the move
    asked for the page of [m] and then for [e] to be scrolled into
    view. *)
Definition arrives (before after : State) : Prop :=
  exists m e,
    nth_error (searchMatches after) (Z.to_nat (currentSearchIndex after)) = Some m
    /\ filter isCurrent (documentElements (document after)) = [e]
    /\ Z.of_nat (dataSearchMatch e) = currentSearchIndex after
    /\ effects after
       = (effects before ++ [GoToPage (pageIndex m); ScrollIntoView e])%list.

(** The state with the index on match [j] and with the stored element
    of every match replaced by what [f] gives for it. *)
Definition pointedAt (j : nat) (f : SearchMatch -> Element) (this : State)
  : State :=
  setCurrentSearchIndex (Z.of_nat j)
    (setSearchMatches (withElements f (searchMatches this)) this).

(** The keys of the search box. *)
Definition enter : KeyboardEvent := {| key := "Enter"; shiftKey := false |}.
Definition shiftEnter : KeyboardEvent := {| key := "Enter"; shiftKey := true |}.
Definition escape : KeyboardEvent := {| key := "Escape"; shiftKey := false |}.

End SearchManagerRest.

(* ================================================================= *)
(** ** The utilities: [debounce] *)

Module Utils.

(** [debounce(func, wait)] returns a function with one hidden variable,
    [timeout]. Time is a count of milliseconds. A pending timer is kept
    with the moment it was set and the arguments its [later] closure
    holds. *)
Record Timer (A : Type) := {
  setAt : nat;
  args : A
}.

(** What can happen to a debounced function: it is called, or the
    browser runs the pending [later]. *)
Inductive Event (A : Type) :=
| Called (now : nat) (a : A)
| TimerFires (now : nat).

Arguments Called {A} now a.
Arguments TimerFires {A} now.

(** The clock, the pending timer if any, and the calls of [func] made so
    far, each with its time. *)
Record Debounced (A : Type) := {
  clock : nat;
  timeout : option (Timer A);
  invoked : list (nat * A)
}.

Definition idle {A : Type} : Debounced A :=
  {| clock := 0; timeout := None; invoked := [] |}.

(** One event. A call clears the pending timer and sets a new one
    ([clearTimeout(timeout); timeout = setTimeout(later, wait)]); the
    browser runs a timer no sooner than [wait] after it was set, and
    [later] then calls [func] with the arguments of that call. [None]
    when the event cannot happen: the clock would run backwards, or no
    timer is due. *)
Definition step {A : Type} (wait : nat) (d : Debounced A) (e : Event A)
  : option (Debounced A) :=
  match e with
  | Called now a =>
      if (clock d <=? now)%nat then
        Some {| clock := now;
                timeout := Some {| setAt := now; args := a |};
                invoked := invoked d |}
      else None
  | TimerFires now =>
      match timeout d with
      | Some t =>
          if ((clock d <=? now) && (setAt t + wait <=? now))%nat then
            Some {| clock := now;
                    timeout := None;
                    invoked := (invoked d ++ [(now, args t)])%list |}
          else None
      | None => None
      end
  end.

Fixpoint run {A : Type} (wait : nat) (d : Debounced A) (es : list (Event A))
  : option (Debounced A) :=
  match es with
  | [] => Some d
  | e :: rest =>
      match step wait d e with
      | Some d' => run wait d' rest
      | None => None
      end
  end.

(** The calls among the events, and the last of them. *)
Fixpoint calls {A : Type} (es : list (Event A)) : list (nat * A) :=
  match es with
  | [] => []
  | Called now a :: rest => (now, a) :: calls rest
  | TimerFires _ :: rest => calls rest
  end.

(** How the state of a debounced function stands to the calls [cs] made
    of it so far: no call lies in the future; a pending timer belongs
    to the latest call; every run of [func] came [wait] or more after a
    call, with that call's arguments and with no call in between; and
    there are no more runs and pending timers than calls. *)
Definition follows {A : Type} (wait : nat) (d : Debounced A)
           (cs : list (nat * A)) : Prop :=
  (forall t1 a1, In (t1, a1) cs -> (t1 <= clock d)%nat)
  /\ (forall t, timeout d = Some t ->
        In (setAt t, args t) cs
        /\ forall t1 a1, In (t1, a1) cs -> (t1 <= setAt t)%nat)
  /\ (forall t a, In (t, a) (invoked d) ->
        (t <= clock d)%nat
        /\ exists t0, In (t0, a) cs /\ (t0 + wait <= t)%nat
             /\ forall t1 a1, In (t1, a1) cs -> (t1 <= t0 \/ t <= t1)%nat)
  /\ (List.length (invoked d)
      + (match timeout d with Some _ => 1 | None => 0 end)
      <= List.length cs)%nat.

End Utils.

(* ================================================================= *)
(** ** The viewer core: pages, zoom and keys *)

Module PDFViewerNavigation.

Import JSString.
Open Scope string_scope.

(** The numbers that occur as page numbers: integers, and the [NaN]
    that [parseInt] returns for an input that does not start with
    digits. Every comparison with [NaN] is false, and [NaN] stays [NaN]
    under [++] and [--]. *)
Inductive num :=
| Int (z : Z)
| NaN.

Definition leNum (a b : num) : bool :=
  match a, b with
  | Int x, Int y => (x <=? y)%Z
  | _, _ => false
  end.

Definition ltNum (a b : num) : bool :=
  match a, b with
  | Int x, Int y => (x <? y)%Z
  | _, _ => false
  end.

Definition geNum (a b : num) : bool := leNum b a.
Definition gtNum (a b : num) : bool := ltNum b a.

Definition incr (a : num) : num :=
  match a with
  | Int x => Int (x + 1)
  | NaN => NaN
  end.

Definition decr (a : num) : num :=
  match a with
  | Int x => Int (x - 1)
  | NaN => NaN
  end.

(** One [option] element of the zoom [select]. *)
Record ZoomOption := {
  value : string;
  selected : bool
}.

(** What the viewer asks of the page: to scroll a page container into
    view, to render all pages again, to select all text. *)
Inductive Effect :=
| ScrollIntoView (pageNum : Z)
| Rerender
| SelectAll.

(** The fields the methods below read and write. [pdfDoc] holds
    [pdfDoc.numPages] once a document is loaded; [pageInput] is the
    number last written to [pageInput.value]; [pageContainers] is the
    number of elements [page-1], [page-2], ... in the viewer;
    [zoomOptions] are the options of [zoomSelect]. *)
Record Viewer := {
  pdfDoc : option Z;
  currentPage : num;
  pageInput : num;
  prevBtnDisabled : bool;
  nextBtnDisabled : bool;
  pageContainers : Z;
  zoomOptions : list ZoomOption;
  scale : float;
  effects : list Effect
}.

Definition setPage (p : num) (this : Viewer) : Viewer :=
  {| pdfDoc := pdfDoc this; currentPage := p; pageInput := pageInput this;
     prevBtnDisabled := prevBtnDisabled this;
     nextBtnDisabled := nextBtnDisabled this;
     pageContainers := pageContainers this;
     zoomOptions := zoomOptions this; scale := scale this;
     effects := effects this |}.

Definition setPageInput (p : num) (this : Viewer) : Viewer :=
  {| pdfDoc := pdfDoc this; currentPage := currentPage this; pageInput := p;
     prevBtnDisabled := prevBtnDisabled this;
     nextBtnDisabled := nextBtnDisabled this;
     pageContainers := pageContainers this;
     zoomOptions := zoomOptions this; scale := scale this;
     effects := effects this |}.

Definition setButtons (prev next : bool) (this : Viewer) : Viewer :=
  {| pdfDoc := pdfDoc this; currentPage := currentPage this;
     pageInput := pageInput this;
     prevBtnDisabled := prev; nextBtnDisabled := next;
     pageContainers := pageContainers this;
     zoomOptions := zoomOptions this; scale := scale this;
     effects := effects this |}.

Definition setZoom (options : list ZoomOption) (s : float) (this : Viewer)
  : Viewer :=
  {| pdfDoc := pdfDoc this; currentPage := currentPage this;
     pageInput := pageInput this;
     prevBtnDisabled := prevBtnDisabled this;
     nextBtnDisabled := nextBtnDisabled this;
     pageContainers := pageContainers this;
     zoomOptions := options; scale := s;
     effects := effects this |}.

Definition addEffect (e : Effect) (this : Viewer) : Viewer :=
  {| pdfDoc := pdfDoc this; currentPage := currentPage this;
     pageInput := pageInput this;
     prevBtnDisabled := prevBtnDisabled this;
     nextBtnDisabled := nextBtnDisabled this;
     pageContainers := pageContainers this;
     zoomOptions := zoomOptions this; scale := scale this;
     effects := (effects this ++ [e])%list |}.

(** [updateNavigationButtons()] *)
Definition updateNavigationButtons (this : Viewer) : Viewer :=
  setButtons
    (leNum (currentPage this) (Int 1))
    (match pdfDoc this with
     | None => true
     | Some numPages => geNum (currentPage this) (Int numPages)
     end)
    this.

(** [scrollToPage(pageNum)]: the element [page-N] exists for
    [1 <= N <= pageContainers]. *)
Definition scrollToPage (pageNum : num) (this : Viewer) : Viewer :=
  match pageNum with
  | Int z =>
      if ((1 <=? z) && (z <=? pageContainers this))%Z
      then addEffect (ScrollIntoView z) this
      else this
  | NaN => this
  end.

(** [previousPage()] *)
Definition previousPage (this : Viewer) : Viewer :=
  if leNum (currentPage this) (Int 1) then this
  else
    let this := setPage (decr (currentPage this)) this in
    let this := setPageInput (currentPage this) this in
    let this := updateNavigationButtons this in
    scrollToPage (currentPage this) this.

(** [nextPage()] *)
Definition nextPage (this : Viewer) : Viewer :=
  match pdfDoc this with
  | None => this
  | Some numPages =>
      if geNum (currentPage this) (Int numPages) then this
      else
        let this := setPage (incr (currentPage this)) this in
        let this := setPageInput (currentPage this) this in
        let this := updateNavigationButtons this in
        scrollToPage (currentPage this) this
  end.

(** [goToPage(pageNum)] *)
Definition goToPage (pageNum : num) (this : Viewer) : Viewer :=
  match pdfDoc this with
  | None => this
  | Some numPages =>
      if ltNum pageNum (Int 1) || gtNum pageNum (Int numPages) then this
      else
        let this := setPage pageNum this in
        let this := updateNavigationButtons this in
        scrollToPage (currentPage this) this
  end.

(** [Array.from(options).findIndex(option => option.selected)], [-1]
    when no option is selected. *)
Fixpoint findSelected (options : list ZoomOption) (i : Z) : Z :=
  match options with
  | [] => (-1)%Z
  | o :: rest => if selected o then i else findSelected rest (i + 1)
  end.

(** Assigning [select.selectedIndex]: the option at that index becomes
    the only selected one; an index outside the options deselects all. *)
Fixpoint selectAt (options : list ZoomOption) (i : Z) : list ZoomOption :=
  match options with
  | [] => []
  | o :: rest =>
      {| value := value o; selected := (i =? 0)%Z |} :: selectAt rest (i - 1)
  end.

(** [select.value]: the value of the first selected option, or the
    empty string. *)
Fixpoint selectValue (options : list ZoomOption) : string :=
  match options with
  | [] => ""
  | o :: rest => if selected o then value o else selectValue rest
  end.

Section WithParse.

(** [parseFloat], on the values of the zoom options. *)
Variable parseFloat : string -> float.

(** [handleZoomChange({ target: this.zoomSelect })]; the pages are
    rendered again afterwards. *)
Definition handleZoomChange (this : Viewer) : Viewer :=
  let value := selectValue (zoomOptions this) in
  let this :=
    if String.eqb value "fit-width" || String.eqb value "fit-page"
    then setZoom (zoomOptions this) 1%float this
    else setZoom (zoomOptions this) (parseFloat value) this in
  addEffect Rerender this.

(** [zoomIn()] *)
Definition zoomIn (this : Viewer) : Viewer :=
  let currentIndex := findSelected (zoomOptions this) 0 in
  if (currentIndex <? Z.of_nat (List.length (zoomOptions this)) - 3)%Z then
    handleZoomChange
      (setZoom (selectAt (zoomOptions this) (currentIndex + 1)) (scale this) this)
  else this.

(** [zoomOut()] *)
Definition zoomOut (this : Viewer) : Viewer :=
  let currentIndex := findSelected (zoomOptions this) 0 in
  if (0 <? currentIndex)%Z then
    handleZoomChange
      (setZoom (selectAt (zoomOptions this) (currentIndex - 1)) (scale this) this)
  else this.

(** What [handleKeydown] reads of a keyboard event. *)
Record KeyboardEvent := {
  key : string;
  ctrlKey : bool
}.

(** [handleKeydown(event)] *)
Definition handleKeydown (event : KeyboardEvent) (this : Viewer) : Viewer :=
  match pdfDoc this with
  | None => this
  | Some _ =>
      if ctrlKey event && String.eqb (key event) "a" then addEffect SelectAll this
      else if String.eqb (key event) "ArrowLeft" || String.eqb (key event) "ArrowUp"
      then previousPage this
      else if String.eqb (key event) "ArrowRight" || String.eqb (key event) "ArrowDown"
      then nextPage this
      else if String.eqb (key event) "+" || String.eqb (key event) "="
      then zoomIn this
      else if String.eqb (key event) "-"
      then zoomOut this
      else this
  end.

End WithParse.

(** The current page is one of the document's pages. *)
Definition onAPage (this : Viewer) : Prop :=
  exists numPages z,
    pdfDoc this = Some numPages /\ currentPage this = Int z
    /\ (1 <= z <= numPages)%Z.

(** The buttons tell whether there is a page before and a page after. *)
Definition buttonsAgree (this : Viewer) : Prop :=
  exists numPages z,
    pdfDoc this = Some numPages /\ currentPage this = Int z
    /\ prevBtnDisabled this = (z <=? 1)%Z
    /\ nextBtnDisabled this = (numPages <=? z)%Z.

(** Exactly the option at index [i] is selected. *)
Definition onlySelected (options : list ZoomOption) (i : Z) : Prop :=
  (0 <= i < Z.of_nat (List.length options))%Z
  /\ forall k o, nth_error options k = Some o ->
                 selected o = (Z.of_nat k =? i)%Z.

(** *** Example inputs *)

(** A viewer as [loadPDF] leaves it for a document of [numPages] pages,
    with the zoom options of the page. *)
Definition loaded (numPages : Z) (options : list ZoomOption) : Viewer :=
  {| pdfDoc := Some numPages; currentPage := Int 1; pageInput := Int 1;
     prevBtnDisabled := true; nextBtnDisabled := (numPages <=? 1)%Z;
     pageContainers := numPages;
     zoomOptions := options; scale := 1%float; effects := [] |}.

Definition exampleOptions : list ZoomOption :=
  [ {| value := "0.5"; selected := false |};
    {| value := "1"; selected := true |};
    {| value := "1.5"; selected := false |};
    {| value := "2"; selected := false |};
    {| value := "fit-width"; selected := false |};
    {| value := "fit-page"; selected := false |} ].

(** [parseFloat] on the values of the example options. *)
Definition exampleParseFloat (s : string) : float :=
  if String.eqb s "0.5" then 0.5%float
  else if String.eqb s "1" then 1%float
  else if String.eqb s "1.5" then 1.5%float
  else if String.eqb s "2" then 2%float
  else nan.

End PDFViewerNavigation.

(* ================================================================= *)
(** ** The text layers as the search sees them *)

Module Overlay.

Import JSString.

(** The children of a span after [span.textContent = s]: one text node,
    or none when [s] is empty. *)
Definition spanNodes (span : PDFViewer.OverlaySpan) : DOM.Span :=
  if truthy (PDFViewer.spanText span)
  then [DOM.TextNode (PDFViewer.spanText span)]
  else [].

(** What [textLayer.querySelectorAll('span')] finds in a layer that
    [createTextLayer] filled. *)
Definition layerNodes (layer : PDFViewer.TextLayer) : DOM.TextLayer :=
  map spanNodes (PDFViewer.children layer).

Section WithMath.

Variable atan2 : float -> float -> float.

(** The text layers of a document whose pages are given by their text
    items and viewport, each filled by [createTextLayer] from an empty
    [div]. *)
Definition textLayers (pages : list (list PDFViewer.TextItem * PDFViewer.Viewport))
  : DOM.Document :=
  map (fun page =>
         layerNodes (PDFViewer.createTextLayer atan2 (Some (fst page))
                       PDFViewer.emptyLayer (snd page)))
      pages.

End WithMath.

(** No item that gets a span has a CR or a U+0000 in its string. *)
Definition parserSafeItems
           (pages : list (list PDFViewer.TextItem * PDFViewer.Viewport)) : bool :=
  forallb (fun page =>
             forallb (fun textItem => DOM.parserSafe (PDFViewer.str textItem))
                     (filter PDFViewer.kept (fst page)))
          pages.

(** One page with two items. *)
Definition examplePages
  : list (list PDFViewer.TextItem * PDFViewer.Viewport) :=
  [([PDFViewer.item "Hello" (Some [12; 0; 0; 12; 50; 100]%float);
     PDFViewer.item "World" (Some [12; 0; 0; 12; 90; 100]%float)],
    PDFViewer.identityViewport)].

End Overlay.

(* ================================================================= *)
(** * Properties *)

(** ** Strings *)

Module JSStringFacts.

Import JSString.
Open Scope string_scope.

Lemma append_empty_r (s : string) : s ++ "" = s.
Proof. induction s as [|c s IH]; simpl; [reflexivity | now rewrite IH]. Qed.

Lemma append_assoc (s t u : string) : (s ++ t) ++ u = s ++ (t ++ u).
Proof. induction s as [|c s IH]; simpl; [reflexivity | now rewrite IH]. Qed.

Lemma truthy_append_r (s t : string) : truthy t = true -> truthy (s ++ t) = true.
Proof. destruct s; simpl; auto. Qed.

Lemma truthy_false (s : string) : truthy s = false -> s = "".
Proof. destruct s; simpl; [reflexivity | discriminate]. Qed.

Lemma truthy_length (s : string) : truthy s = (0 <? String.length s)%nat.
Proof. destruct s; reflexivity. Qed.

Lemma take_drop (n : nat) (s : string) : take n s ++ drop n s = s.
Proof.
  revert s; induction n as [|n IH]; intros [|c s]; simpl; try reflexivity.
  now rewrite IH.
Qed.

Lemma drop_0 (s : string) : drop 0 s = s.
Proof. destruct s; reflexivity. Qed.

Lemma drop_add (n m : nat) (s : string) : drop (n + m) s = drop m (drop n s).
Proof.
  revert s; induction n as [|n IH]; intros s.
  - now rewrite drop_0.
  - destruct s as [|c s]; simpl; [now destruct m | apply IH].
Qed.

Lemma length_drop (n : nat) (s : string) :
  String.length (drop n s) = String.length s - n.
Proof.
  revert s; induction n as [|n IH]; intros [|c s]; simpl; auto.
Qed.

Lemma take_all (n : nat) (s : string) : String.length s <= n -> take n s = s.
Proof.
  revert s; induction n as [|n IH]; intros [|c s]; simpl; intros H;
    try reflexivity; try lia.
  rewrite IH; [reflexivity | lia].
Qed.

(** [substring] with its clamped indices in order. *)
Lemma substring_ordered (s : string) (a b : nat) :
  Nat.min a (String.length s) <= Nat.min b (String.length s) ->
  substring s a b =
  take (Nat.min b (String.length s) - Nat.min a (String.length s))
       (drop (Nat.min a (String.length s)) s).
Proof.
  intros H; unfold substring.
  replace (Nat.min (Nat.min a (String.length s)) (Nat.min b (String.length s)))
    with (Nat.min a (String.length s)) by lia.
  replace (Nat.max (Nat.min a (String.length s)) (Nat.min b (String.length s)))
    with (Nat.min b (String.length s)) by lia.
  reflexivity.
Qed.

(** The three pieces [performSearch] cuts a text into always add up to
    the text, whatever the index and the length are. *)
Lemma substring_split (s : string) (i n : nat) :
  substring s 0 i ++ substring s i (i + n) ++ substringFrom s (i + n) = s.
Proof.
  unfold substringFrom.
  rewrite !substring_ordered by lia.
  set (L := String.length s).
  set (a := Nat.min i L). set (b := Nat.min (i + n) L).
  replace (Nat.min 0 L) with 0 by lia.
  replace (Nat.min L L) with L by lia.
  rewrite drop_0, Nat.sub_0_r.
  assert (Hab : a <= b) by (subst a b; lia).
  replace (take (L - b) (drop b s)) with (drop b s)
    by (symmetry; apply take_all; rewrite length_drop; subst L; lia).
  replace b with (a + (b - a)) at 2 by lia.
  rewrite drop_add, take_drop. apply take_drop.
Qed.

(** *** [indexOf] finds the first occurrence *)

Lemma find_seq_shift (p : nat -> bool) (start len : nat) :
  find p (seq (S start) len) =
  option_map S (find (fun i => p (S i)) (seq start len)).
Proof.
  revert start; induction len as [|len IH]; intros start; simpl.
  - reflexivity.
  - destruct (p (S start)); [reflexivity | apply IH].
Qed.

Lemma indexOfAux_find (t s : string) (pos : nat) :
  indexOfAux t s pos =
  option_map (fun i => pos + i) (firstOccurrence s t).
Proof.
  unfold firstOccurrence.
  revert pos; induction s as [|c s IH]; intros pos.
  - simpl. destruct t; simpl; [f_equal; lia | reflexivity].
  - change (seq 0 (S (String.length (String c s))))
      with (0 :: seq 1 (S (String.length s))).
    cbn [indexOfAux find]. rewrite drop_0.
    destruct (prefix t (String c s)) eqn:E.
    + simpl. f_equal. lia.
    + rewrite IH, find_seq_shift. cbn [drop].
      destruct (find _ (seq 0 _)); simpl; [f_equal; lia | reflexivity].
Qed.

Lemma indexOf_firstOccurrence (s t : string) :
  indexOf s t 0 = firstOccurrence s t.
Proof.
  unfold indexOf. replace (Nat.min 0 (String.length s)) with 0 by lia.
  rewrite drop_0, indexOfAux_find. destruct (firstOccurrence s t); reflexivity.
Qed.

Lemma find_seq_least (p : nat -> bool) (start len i : nat) :
  find p (seq start len) = Some i ->
  (start <= i < start + len)%nat /\ p i = true /\
  forall j, (start <= j < i)%nat -> p j = false.
Proof.
  revert start; induction len as [|len IH]; intros start; simpl.
  - discriminate.
  - destruct (p start) eqn:E.
    + intros [= <-]. repeat split; try lia; auto.
    + intros H. apply IH in H as (H1 & H2 & H3).
      repeat split; try lia; auto.
      intros j Hj. destruct (Nat.eq_dec j start) as [->|]; auto.
      apply H3; lia.
Qed.

(** What [indexOf] returns is an occurrence, and no smaller position is
    one. *)
Lemma indexOf_least (s t : string) (i : nat) :
  indexOf s t 0 = Some i ->
  occursAt t s i /\ forall j, j < i -> ~ occursAt t s j.
Proof.
  rewrite indexOf_firstOccurrence. unfold firstOccurrence, occursAt.
  intros H. apply find_seq_least in H as (H1 & H2 & H3).
  split; [split; [lia | exact H2] |].
  intros j Hj [_ Hp]. rewrite H3 in Hp by lia. discriminate.
Qed.

(** *** The built-ins on a few inputs *)

Example substring_World : substring "World" 1 4 = "orl".
Proof. reflexivity. Qed.

Example substring_swaps_and_clamps : substring "World" 9 3 = "ld".
Proof. reflexivity. Qed.

Example indexOf_first_of_two : indexOf "a cat. cat!" "cat" 0 = Some 2.
Proof. reflexivity. Qed.

Example indexOf_absent : indexOf "Hello" "orl" 0 = None.
Proof. reflexivity. Qed.

Example toLowerCase_The_Cat : toLowerCase "The Cat" = "the cat".
Proof. reflexivity. Qed.

Example trim_both_ends : trim "  a b  " = "a b".
Proof. reflexivity. Qed.

Example trim_blank : trim "   " = "".
Proof. reflexivity. Qed.

End JSStringFacts.

(** ** The DOM operations *)

Module DOMFacts.

Import JSString DOM JSStringFacts.
Open Scope string_scope.

Lemma spanTextContent_app (a b : Span) :
  spanTextContent (a ++ b)%list = spanTextContent a ++ spanTextContent b.
Proof.
  induction a as [|n a IH]; simpl; [reflexivity |].
  now rewrite IH, append_assoc.
Qed.

Lemma spanElements_app (a b : Span) :
  spanElements (a ++ b)%list = (spanElements a ++ spanElements b)%list.
Proof.
  induction a as [|[s|e] a IH]; simpl; [reflexivity | exact IH | now rewrite IH].
Qed.

(** [normalize] keeps the text and the elements of a span. *)
Lemma normalize_text (ns : list Node) :
  spanTextContent (normalize ns) = spanTextContent ns.
Proof.
  induction ns as [|[s|e] ns IH]; simpl; [reflexivity | | now rewrite IH].
  rewrite <- IH.
  destruct (normalize ns) as [|[t|e] r]; simpl.
  - destruct (truthy s) eqn:E; simpl; [reflexivity |].
    apply truthy_false in E; now subst.
  - now rewrite append_assoc.
  - destruct (truthy s) eqn:E; simpl; [reflexivity |].
    apply truthy_false in E; now subst.
Qed.

Lemma normalize_elements (ns : list Node) :
  spanElements (normalize ns) = spanElements ns.
Proof.
  induction ns as [|[s|e] ns IH]; simpl; [reflexivity | | now rewrite IH].
  rewrite <- IH.
  destruct (normalize ns) as [|[t|e] r]; simpl;
    try reflexivity; destruct (truthy s); reflexivity.
Qed.

(** A span without elements normalises to a single text node, or to
    nothing when its text is empty. *)
Lemma normalize_no_elements (ns : list Node) :
  spanElements ns = [] ->
  normalize ns =
  if truthy (spanTextContent ns) then [TextNode (spanTextContent ns)] else [].
Proof.
  induction ns as [|[s|e] ns IH]; simpl; intros H;
    [reflexivity | | discriminate].
  rewrite (IH H).
  destruct (truthy (spanTextContent ns)) eqn:E.
  - now rewrite truthy_append_r.
  - apply truthy_false in E. rewrite E, append_empty_r.
    destruct (truthy s); reflexivity.
Qed.

Lemma freshen_text (next : nat) (ns : list Node) :
  spanTextContent (fst (freshen next ns)) = spanTextContent ns.
Proof.
  revert next; induction ns as [|[s|e] ns IH]; intros next; simpl.
  - reflexivity.
  - specialize (IH next). destruct (freshen next ns); simpl in *.
    now rewrite IH.
  - specialize (IH (S next)). destruct (freshen (S next) ns); simpl in *.
    now rewrite IH.
Qed.

Lemma reparse_text (next : nat) (ns : list Node) :
  spanTextContent (fst (reparse next ns))
  = spanTextContent (map parsedNode ns).
Proof. unfold reparse. now rewrite freshen_text, normalize_text. Qed.

(** The parser hands back a text without CR and U+0000 as it is, and
    the pieces of such a text are such texts. *)
Lemma normalizeNewlines_safe (s : string) (afterCR : bool) :
  parserSafe s = true ->
  (afterCR = true -> forall rest, s <> String LF rest) ->
  normalizeNewlines afterCR s = s.
Proof.
  revert afterCR. induction s as [| c s IH]; intros afterCR H Hlf;
    [reflexivity |].
  cbn in H |- *. apply andb_prop in H as [H Hs]. apply andb_prop in H as [H1 H2].
  destruct (Ascii.eqb c CR); [discriminate H1 |].
  destruct (Ascii.eqb_spec c LF) as [-> | _].
  - destruct afterCR; [now contradiction (Hlf eq_refl s) |].
    f_equal. apply IH; [exact Hs | discriminate].
  - f_equal. apply IH; [exact Hs | discriminate].
Qed.

Lemma dropNUL_safe (s : string) : parserSafe s = true -> dropNUL s = s.
Proof.
  induction s as [| c s IH]; intros H; [reflexivity |].
  cbn in H |- *. apply andb_prop in H as [H Hs]. apply andb_prop in H as [H1 H2].
  destruct (Ascii.eqb c NUL); [discriminate H2 |].
  f_equal. now apply IH.
Qed.

Lemma parsedText_safe (s : string) : parserSafe s = true -> parsedText s = s.
Proof.
  intros H. unfold parsedText.
  rewrite (@normalizeNewlines_safe s false H) by discriminate.
  now apply dropNUL_safe.
Qed.

Lemma parserSafe_append (s t : string) :
  parserSafe (s ++ t) = parserSafe s && parserSafe t.
Proof.
  induction s as [| c s IH]; [reflexivity |].
  cbn. rewrite IH. now rewrite andb_assoc.
Qed.

Lemma parserSafe_take (n : nat) (s : string) :
  parserSafe s = true -> parserSafe (take n s) = true.
Proof.
  revert s. induction n as [| n IH]; intros [| c s] H; try reflexivity.
  cbn in H |- *. apply andb_prop in H as [H Hs]. rewrite H. now apply IH.
Qed.

Lemma parserSafe_drop (n : nat) (s : string) :
  parserSafe s = true -> parserSafe (drop n s) = true.
Proof.
  revert s. induction n as [| n IH]; intros [| c s] H; try exact H.
  cbn in H |- *. apply andb_prop in H as [_ Hs]. now apply IH.
Qed.

Lemma parserSafe_substring (s : string) (a b : nat) :
  parserSafe s = true -> parserSafe (substring s a b) = true.
Proof.
  intros H. unfold substring. now apply parserSafe_take, parserSafe_drop.
Qed.

(** Changing classes keeps texts, identities and attributes. *)
Lemma mapNode_text (f : Element -> Element) (span : Span) :
  (forall e, textContent (f e) = textContent e) ->
  spanTextContent (map (mapNode f) span) = spanTextContent span.
Proof.
  intros Hf; induction span as [|[s|e] span IH]; simpl;
    [reflexivity | now rewrite IH | now rewrite IH, Hf].
Qed.

Lemma mapNode_elements (f : Element -> Element) (span : Span) :
  spanElements (map (mapNode f) span) = map f (spanElements span).
Proof.
  induction span as [|[s|e] span IH]; simpl;
    [reflexivity | exact IH | now rewrite IH].
Qed.

Lemma mapElements_elements (f : Element -> Element) (d : Document) :
  documentElements (mapElements f d) = map f (documentElements d).
Proof.
  unfold documentElements, mapElements, layerElements.
  induction d as [|l d IH]; simpl; [reflexivity |].
  rewrite map_app, IH. f_equal.
  induction l as [|span l IHl]; simpl; [reflexivity |].
  now rewrite map_app, IHl, mapNode_elements.
Qed.

Lemma mapElements_text (f : Element -> Element) (d : Document) :
  (forall e, textContent (f e) = textContent e) ->
  map (map spanTextContent) (mapElements f d) = map (map spanTextContent) d.
Proof.
  intros Hf. unfold mapElements. rewrite map_map.
  apply map_ext; intros l. rewrite map_map.
  apply map_ext; intros span. now apply mapNode_text.
Qed.

End DOMFacts.

(** ** The search module *)

Module SearchManagerFacts.

Import JSString DOM SearchManager JSStringFacts DOMFacts.
Local Open Scope nat_scope.

(** *** [clearSearchHighlights] *)

Lemma replaceChild_text (h : Element) (span : Span) :
  spanTextContent (map (replaceChild h) span) = spanTextContent span.
Proof.
  induction span as [|[s|e] span IH]; simpl; [reflexivity | now rewrite IH |].
  destruct (eid e =? eid h); simpl; now rewrite IH.
Qed.

Lemma unwrapIn_text (h : Element) (span : Span) :
  spanTextContent (unwrapIn h span) = spanTextContent span.
Proof.
  unfold unwrapIn. destruct (existsb (isNode h) span); [| reflexivity].
  now rewrite normalize_text, replaceChild_text.
Qed.

Lemma replaceChild_elements (h : Element) (span : Span) :
  spanElements (map (replaceChild h) span) = filter (otherThan h) (spanElements span).
Proof.
  unfold otherThan.
  induction span as [|[s|e] span IH]; simpl; [reflexivity | exact IH |].
  destruct (eid e =? eid h); simpl; now rewrite IH.
Qed.

Lemma filter_otherThan_absent (h : Element) (span : Span) :
  existsb (isNode h) span = false ->
  filter (otherThan h) (spanElements span) = spanElements span.
Proof.
  unfold otherThan.
  induction span as [|[s|e] span IH]; simpl; [reflexivity | exact IH |].
  intros H. apply orb_false_iff in H as [H1 H2].
  rewrite H1; simpl. now rewrite IH.
Qed.

Lemma unwrapIn_elements (h : Element) (span : Span) :
  spanElements (unwrapIn h span) = filter (otherThan h) (spanElements span).
Proof.
  unfold unwrapIn. destruct (existsb (isNode h) span) eqn:E.
  - now rewrite normalize_elements, replaceChild_elements.
  - now rewrite filter_otherThan_absent.
Qed.

Lemma filter_flat_map {A B : Type} (p : B -> bool) (f : A -> list B) (l : list A) :
  filter p (flat_map f l) = flat_map (fun x => filter p (f x)) l.
Proof.
  induction l as [|x l IH]; simpl; [reflexivity |].
  now rewrite filter_app, IH.
Qed.

Lemma unwrap_elements (d : Document) (h : Element) :
  documentElements (unwrap d h) = filter (otherThan h) (documentElements d).
Proof.
  unfold documentElements, unwrap, layerElements.
  rewrite filter_flat_map, flat_map_concat_map, map_map, <- flat_map_concat_map.
  apply flat_map_ext; intros l.
  rewrite filter_flat_map, flat_map_concat_map, map_map, <- flat_map_concat_map.
  apply flat_map_ext; intros span. apply unwrapIn_elements.
Qed.

Lemma unwrap_text (d : Document) (h : Element) :
  overlayText (unwrap d h) = overlayText d.
Proof.
  unfold overlayText, unwrap. rewrite map_map.
  apply map_ext; intros l. rewrite map_map.
  apply map_ext; intros span. apply unwrapIn_text.
Qed.

Lemma fold_unwrap_text (hs : list Element) (d : Document) :
  overlayText (fold_left unwrap hs d) = overlayText d.
Proof.
  revert d; induction hs as [|h hs IH]; intros d; simpl; [reflexivity |].
  now rewrite IH, unwrap_text.
Qed.

Lemma fold_unwrap_In (hs : list Element) (d : Document) (e : Element) :
  In e (documentElements (fold_left unwrap hs d)) ->
  In e (documentElements d) /\ forall h, In h hs -> eid e <> eid h.
Proof.
  revert d; induction hs as [|h hs IH]; intros d; simpl.
  - intros H; split; [exact H | intros h []].
  - intros H. apply IH in H as [H1 H2].
    rewrite unwrap_elements in H1. apply filter_In in H1 as [H1 H3].
    split; [exact H1 |].
    intros h' [<- | Hh']; [| now apply H2].
    unfold otherThan in H3. apply negb_true_iff, Nat.eqb_neq in H3. exact H3.
Qed.

Lemma filter_isHighlight (es : list Element) : filter isHighlight es = es.
Proof.
  induction es as [|e es IH]; simpl; [reflexivity |].
  unfold isHighlight at 1. destruct (className e); now rewrite IH.
Qed.

(** After [clearSearchHighlights] the document holds no highlight
    element, and every overlay node has the text it had. *)
Lemma clear_elements (this : State) :
  documentElements (document (clearSearchHighlights this)) = [].
Proof.
  unfold clearSearchHighlights, querySelectorAll; simpl.
  rewrite filter_isHighlight.
  destruct (documentElements (fold_left unwrap _ _)) as [|e es] eqn:E;
    [reflexivity | exfalso].
  assert (H : In e (documentElements
                      (fold_left unwrap (documentElements (document this))
                                 (document this))))
    by (rewrite E; now left).
  apply fold_unwrap_In in H as [H1 H2]. now apply (H2 e H1).
Qed.

Lemma clear_text (this : State) :
  overlayText (document (clearSearchHighlights this)) = overlayText (document this).
Proof. unfold clearSearchHighlights; simpl. apply fold_unwrap_text. Qed.

(** Without highlight elements [clearSearchHighlights] changes nothing
    in the document. *)
Lemma clear_plain (this : State) :
  documentElements (document this) = [] ->
  document (clearSearchHighlights this) = document this.
Proof.
  intros H. unfold clearSearchHighlights, querySelectorAll; simpl.
  now rewrite H.
Qed.

(** *** What the operations do to the match list and the index *)

Lemma updateSearchResults_fields (this : State) :
  searchMatches (updateSearchResults this) = searchMatches this /\
  currentSearchIndex (updateSearchResults this) = currentSearchIndex this /\
  document (updateSearchResults this) = document this /\
  nextId (updateSearchResults this) = nextId this.
Proof.
  unfold updateSearchResults.
  destruct (searchMatches this) eqn:E; simpl; rewrite ?E;
    repeat split; reflexivity.
Qed.

Lemma highlightCurrentMatch_fields (this : State) :
  searchMatches (highlightCurrentMatch this) = searchMatches this /\
  currentSearchIndex (highlightCurrentMatch this) = currentSearchIndex this.
Proof.
  unfold highlightCurrentMatch.
  destruct (updateSearchResults_fields
              (setDocument
                 (let d := mapElements
                             (fun el => if isCurrent el
                                        then setClass search_highlight el else el)
                             (document this) in
                  if ((0 <=? currentSearchIndex this)
                      && (currentSearchIndex this
                          <? Z.of_nat (length (searchMatches this))))%Z
                  then match querySelector (hasSearchMatch (currentSearchIndex this)) d with
                       | Some _ =>
                           updateFirst (hasSearchMatch (currentSearchIndex this))
                                       (setClass search_current) d
                       | None => d
                       end
                  else d) (nextId this) this)) as (H1 & H2 & _).
  split; [exact H1 | exact H2].
Qed.

Lemma scrollToCurrentMatch_fields (this : State) :
  searchMatches (scrollToCurrentMatch this) = searchMatches this /\
  currentSearchIndex (scrollToCurrentMatch this) = currentSearchIndex this /\
  document (scrollToCurrentMatch this) = document this.
Proof.
  unfold scrollToCurrentMatch.
  destruct (_ && _)%bool; [| repeat split; reflexivity].
  destruct (nth_error _ _); [| repeat split; reflexivity].
  destruct (querySelector _ _); repeat split; reflexivity.
Qed.

Lemma goToNextMatch_fields (this : State) :
  searchMatches this <> [] ->
  searchMatches (goToNextMatch this) = searchMatches this /\
  currentSearchIndex (goToNextMatch this) =
  Z.rem (currentSearchIndex this + 1) (Z.of_nat (length (searchMatches this))).
Proof.
  intros H. unfold goToNextMatch.
  destruct (searchMatches this) as [|m ms] eqn:E; [contradiction |].
  cbn [length Nat.eqb].
  destruct (scrollToCurrentMatch_fields
              (highlightCurrentMatch
                 (setCurrentSearchIndex
                    (Z.rem (currentSearchIndex this + 1)
                           (Z.of_nat (S (length ms)))) this))) as (H1 & H2 & _).
  rewrite H1, H2.
  destruct (highlightCurrentMatch_fields
              (setCurrentSearchIndex
                 (Z.rem (currentSearchIndex this + 1)
                        (Z.of_nat (S (length ms)))) this)) as (H3 & H4).
  rewrite H3, H4. simpl. auto.
Qed.

Lemma goToPreviousMatch_fields (this : State) :
  searchMatches this <> [] ->
  searchMatches (goToPreviousMatch this) = searchMatches this /\
  currentSearchIndex (goToPreviousMatch this) =
  (if (currentSearchIndex this <=? 0)%Z
   then Z.of_nat (length (searchMatches this)) - 1
   else currentSearchIndex this - 1)%Z.
Proof.
  intros H. unfold goToPreviousMatch.
  destruct (searchMatches this) as [|m ms] eqn:E; [contradiction |].
  cbn [length Nat.eqb].
  set (i := (if (currentSearchIndex this <=? 0)%Z
             then Z.of_nat (S (length ms)) - 1
             else currentSearchIndex this - 1)%Z).
  destruct (scrollToCurrentMatch_fields
              (highlightCurrentMatch (setCurrentSearchIndex i this)))
    as (H1 & H2 & _).
  rewrite H1, H2.
  destruct (highlightCurrentMatch_fields (setCurrentSearchIndex i this))
    as (H3 & H4).
  rewrite H3, H4. simpl. auto.
Qed.

Lemma length_nonempty {A : Type} (l : list A) : 1 <= length l -> l <> [].
Proof. destruct l; simpl; [lia | discriminate]. Qed.

Lemma nextTimes_fields (k : nat) (this : State) :
  1 <= length (searchMatches this) ->
  (0 <= currentSearchIndex this < Z.of_nat (length (searchMatches this)))%Z ->
  searchMatches (nextTimes k this) = searchMatches this /\
  currentSearchIndex (nextTimes k this) =
  ((currentSearchIndex this + Z.of_nat k)
     mod Z.of_nat (length (searchMatches this)))%Z.
Proof.
  revert this; induction k as [|k IH]; intros this HN Hi.
  - simpl. split; [reflexivity |].
    rewrite Z.add_0_r, Z.mod_small; [reflexivity | lia].
  - cbn [nextTimes]. unfold nextMatch.
    destruct (goToNextMatch_fields this (length_nonempty HN)) as (H1 & H2).
    assert (H3 : currentSearchIndex (goToNextMatch this) =
                 ((currentSearchIndex this + 1)
                    mod Z.of_nat (length (searchMatches this)))%Z)
      by (rewrite H2; apply Z.rem_mod_nonneg; lia).
    destruct (IH (goToNextMatch this)) as (H4 & H5).
    + now rewrite H1.
    + rewrite H1, H3. apply Z.mod_pos_bound. lia.
    + rewrite H4, H5, H1, H3. split; [reflexivity |].
      rewrite Zplus_mod_idemp_l. f_equal. lia.
Qed.

Lemma performSearch_index (term : string) (this : State) :
  currentSearchIndex (performSearch term this) =
  match searchMatches (performSearch term this) with
  | [] => (-1)%Z
  | _ :: _ => 0%Z
  end.
Proof.
  unfold performSearch.
  destruct (negb _ || negb _)%bool; [reflexivity |].
  destruct (forEach _ _ _ _) as [[ms next] d].
  match goal with
  | |- context [updateSearchResults ?st] =>
      destruct (updateSearchResults_fields st) as (H1 & H2 & _);
      rewrite H1, H2
  end.
  cbn [searchMatches setDocument setSearchMatches].
  destruct ms as [|m ms]; [reflexivity |].
  cbn [length Nat.ltb Nat.leb].
  match goal with
  | |- context [highlightCurrentMatch ?st] =>
      destruct (highlightCurrentMatch_fields st) as (H3 & H4);
      rewrite H3, H4
  end.
  reflexivity.
Qed.

Lemma cleared_fields (this : State) :
  let this' :=
    updateSearchResults
      (setCurrentSearchIndex (-1)%Z
         (setSearchMatches [] (clearSearchHighlights this))) in
  searchMatches this' = [] /\ currentSearchIndex this' = (-1)%Z /\
  document this' = document (clearSearchHighlights this).
Proof. simpl. repeat split; reflexivity. Qed.

Lemma indexInvariant_of (this : State) :
  currentSearchIndex this =
  match searchMatches this with [] => (-1)%Z | _ :: _ => 0%Z end ->
  indexInvariant this.
Proof.
  unfold indexInvariant. destruct (searchMatches this) as [|m ms]; intros ->.
  - split; [tauto | congruence].
  - split; [split; discriminate |]. intros _. simpl. lia.
Qed.

Lemma handleSearch_invariant (this : State) :
  indexInvariant this -> indexInvariant (handleSearch this).
Proof.
  intros H. unfold handleSearch.
  destruct (String.length (trim (searchInput this)) =? 0).
  - apply indexInvariant_of. reflexivity.
  - destruct (String.length (trim (searchInput this)) <? 2); [exact H |].
    apply indexInvariant_of, performSearch_index.
Qed.

Lemma step_invariant (this : State) (op : Op) :
  indexInvariant this -> indexInvariant (step this op).
Proof.
  intros H. destruct op as [term| | |]; cbn [step].
  - unfold search. apply handleSearch_invariant. exact H.
  - unfold nextMatch.
    destruct (searchMatches this) as [|m ms] eqn:E.
    + unfold goToNextMatch. rewrite E. exact H.
    + assert (Hne : searchMatches this <> []) by (rewrite E; discriminate).
      destruct (goToNextMatch_fields this Hne) as (H1 & H2).
      destruct H as [_ H]. specialize (H Hne).
      unfold indexInvariant. rewrite H1, H2.
      assert (HL : (0 < Z.of_nat (length (searchMatches this)))%Z)
        by (rewrite E; simpl; lia).
      rewrite Z.rem_mod_nonneg by lia.
      assert (Hb := Z.mod_pos_bound (currentSearchIndex this + 1) _ HL).
      split; [split; [lia | intros; contradiction] | lia].
  - unfold previousMatch.
    destruct (searchMatches this) as [|m ms] eqn:E.
    + unfold goToPreviousMatch. rewrite E. exact H.
    + assert (Hne : searchMatches this <> []) by (rewrite E; discriminate).
      destruct (goToPreviousMatch_fields this Hne) as (H1 & H2).
      destruct H as [_ H]. specialize (H Hne).
      unfold indexInvariant. rewrite H1, H2.
      assert (HL : (0 < Z.of_nat (length (searchMatches this)))%Z)
        by (rewrite E; simpl; lia).
      destruct (currentSearchIndex this <=? 0)%Z eqn:C;
        [apply Z.leb_le in C | apply Z.leb_gt in C];
        (split; [split; [lia | intros; contradiction] | lia]).
  - unfold clear, clearSearch. apply indexInvariant_of. reflexivity.
Qed.

(** *** The scan of [performSearch], one span at a time *)

Lemma reparse_wrapped (n : nat) (before after : string) (h : Element) :
  reparse n (wrapped before h after) =
  (wrapped (parsedText before)
           {| eid := n; className := className h;
              dataSearchMatch := dataSearchMatch h;
              textContent := parsedText (textContent h) |}
           (parsedText after), S n).
Proof.
  unfold reparse, wrapped.
  assert (B : map parsedNode (if truthy before then [TextNode before] else [])
              = if truthy before then [TextNode (parsedText before)] else [])
    by (destruct (truthy before); reflexivity).
  assert (A : map parsedNode (if truthy after then [TextNode after] else [])
              = if truthy after then [TextNode (parsedText after)] else [])
    by (destruct (truthy after); reflexivity).
  rewrite !map_app, A, B. cbn [map parsedNode].
  destruct before as [| b before]; destruct after as [| a after];
    cbn [truthy app];
    try change (parsedText "") with "";
    cbn [truthy app normalize freshen];
    repeat match goal with
    | |- context [parsedText (String ?c ?s)] =>
        destruct (parsedText (String c s))
    end; reflexivity.
Qed.

Lemma wrapped_text (before after : string) (h : Element) :
  spanTextContent (wrapped before h after) =
  (before ++ textContent h ++ after)%string.
Proof.
  unfold wrapped. destruct before, after; simpl;
    rewrite ?append_empty_r; reflexivity.
Qed.

Lemma wrapped_elements (before after : string) (h : Element) :
  spanElements (wrapped before h after) = [h].
Proof. unfold wrapped. destruct before, after; reflexivity. Qed.

Lemma searchSpan_eq (term : string) (page node : nat) (span : Span)
      (ms : list SearchMatch) (next : nat) :
  searchSpan term (toLowerCase term) page span node (ms, next) =
  match firstOccurrence (toLowerCase (spanTextContent span)) (toLowerCase term) with
  | Some i =>
      (((ms ++ [matchAt term page node span (length ms) next i])%list,
        S (S next)),
       spanAt term page node span (length ms) next i)
  | None => ((ms, next), span)
  end.
Proof.
  unfold searchSpan, includes. rewrite indexOf_firstOccurrence.
  destruct (firstOccurrence _ _) as [i|]; [| reflexivity].
  cbv zeta.
  match goal with
  | |- context [reparse ?n (?a ++ [ElementNode ?h] ++ ?b)%list] =>
      change (a ++ [ElementNode h] ++ b)%list
        with (wrapped (substring (spanTextContent span) 0 i) h
                      (substringFrom (spanTextContent span)
                                     (i + String.length term)))
  end.
  rewrite reparse_wrapped. reflexivity.
Qed.

(** The text of a span after the scan: its three pieces, each as the
    parser hands it back; the text it had when that holds no CR and no
    U+0000. *)
Lemma spanAt_pieces (term : string) (page node : nat) (span : Span)
      (index next i : nat) :
  spanTextContent (spanAt term page node span index next i) =
  (parsedText (substring (spanTextContent span) 0 i)
   ++ parsedText (substring (spanTextContent span) i (i + String.length term))
   ++ parsedText (substringFrom (spanTextContent span) (i + String.length term)))%string.
Proof. unfold spanAt. now rewrite wrapped_text. Qed.

Lemma spanAt_text (term : string) (page node : nat) (span : Span)
      (index next i : nat) :
  parserSafe (spanTextContent span) = true ->
  spanTextContent (spanAt term page node span index next i) =
  spanTextContent span.
Proof.
  intros H. rewrite spanAt_pieces. unfold substringFrom.
  rewrite !parsedText_safe by now apply parserSafe_substring.
  apply substring_split.
Qed.

Lemma plainSpan_inv (span : Span) :
  plainSpan span = true ->
  exists s, span = [TextNode s] /\ truthy s = true.
Proof.
  destruct span as [|[s|e] [|n rest]]; simpl; try discriminate.
  intros H. now exists s.
Qed.

Lemma plainSpan_settled (span : Span) : plainSpan span = true -> settled span.
Proof.
  intros H. split; [| intros _; exact H].
  apply plainSpan_inv in H as (s & -> & Hs). simpl.
  now rewrite append_empty_r.
Qed.

(** *** The scan of one text layer, then of the document

    The lemmas below describe a scan that starts with the matches [ms]
    and the next identity [next]: which matches it adds, and what it
    leaves in the document. *)

Lemma searchLayer_scan (term : string) (page : nat) (layer : TextLayer) :
  forall (node : nat) (ms : list SearchMatch) (next : nat),
  exists (new : list SearchMatch) (layer' : TextLayer),
    forEach (searchSpan term (toLowerCase term) page) layer node (ms, next)
    = (((ms ++ new)%list, next + 2 * length new), layer')
    /\ map toSpec new
       = specScanNodes term (page + 1) (map spanTextContent layer) node (length ms)
    /\ (forallb parserSafe (map spanTextContent layer) = true ->
        map spanTextContent layer' = map spanTextContent layer)
    /\ Forall (freshFrom next) new
    /\ (layerElements layer = [] -> layerElements layer' = map live new)
    /\ (forallb plainSpan layer = true ->
        forallb parserSafe (map spanTextContent layer) = true ->
        Forall settled layer').
Proof.
  induction layer as [|span rest IH]; intros node ms next.
  - exists [], []. simpl. rewrite app_nil_r, Nat.add_0_r.
    repeat split; auto.
  - cbn [forEach]. rewrite searchSpan_eq.
    cbn [map specScanNodes]. unfold specMatch.
    destruct (firstOccurrence _ _) as [i|] eqn:E.
    + set (m := matchAt term page node span (length ms) next i).
      destruct (IH (S node) (ms ++ [m])%list (S (S next)))
        as (new & layer' & H1 & H2 & H3 & H4 & H5 & H6).
      exists (m :: new), (spanAt term page node span (length ms) next i :: layer').
      rewrite H1. repeat split.
      * rewrite <- app_assoc. cbn [app length]. do 2 f_equal. lia.
      * cbn [map]. f_equal.
        rewrite H2, length_app. cbn [length].
        now rewrite (Nat.add_1_r (length ms)).
      * cbn [map forallb]. intros H. apply andb_true_iff in H as [Hs Hr].
        now rewrite spanAt_text, H3.
      * constructor; [exists 0; simpl; lia |].
        eapply Forall_impl; [| exact H4].
        intros m' [k Hk]. exists (S k). lia.
      * unfold layerElements. cbn [flat_map map]. intros H.
        apply app_eq_nil in H as [_ H].
        unfold spanAt. rewrite wrapped_elements. cbn [app]. f_equal.
        now apply H5.
      * cbn [map forallb]. intros H S.
        apply andb_true_iff in H as [Hp Hr].
        apply andb_true_iff in S as [Ss Sr].
        constructor; [| now apply H6].
        split.
        -- rewrite spanAt_text by exact Ss.
           now apply plainSpan_settled in Hp as [Hp _].
        -- unfold spanAt. rewrite wrapped_elements. discriminate.
    + destruct (IH (S node) ms next)
        as (new & layer' & H1 & H2 & H3 & H4 & H5 & H6).
      exists new, (span :: layer').
      rewrite H1. repeat split; auto.
      * cbn [map forallb]. intros H. apply andb_true_iff in H as [Hs Hr].
        now rewrite H3.
      * unfold layerElements. cbn [flat_map]. intros H.
        apply app_eq_nil in H as [Hs H]. rewrite Hs. cbn [app].
        now apply H5.
      * cbn [map forallb]. intros H S.
        apply andb_true_iff in H as [Hp Hr].
        apply andb_true_iff in S as [Ss Sr].
        constructor; [now apply plainSpan_settled | now apply H6].
Qed.

Lemma searchDocument_scan (term : string) (d : Document) :
  forall (page : nat) (ms : list SearchMatch) (next : nat),
  exists (new : list SearchMatch) (d' : Document),
    forEach (searchLayer term (toLowerCase term)) d page (ms, next)
    = (((ms ++ new)%list, next + 2 * length new), d')
    /\ map toSpec new
       = specScanPages term (overlayText d) (page + 1) (length ms)
    /\ (parserSafeOverlay d = true -> overlayText d' = overlayText d)
    /\ Forall (freshFrom next) new
    /\ (documentElements d = [] -> documentElements d' = map live new)
    /\ (plainOverlay d = true -> parserSafeOverlay d = true ->
        Forall (Forall settled) d').
Proof.
  induction d as [|layer rest IH]; intros page ms next.
  - exists [], []. simpl. rewrite app_nil_r, Nat.add_0_r.
    repeat split; auto.
  - cbn [forEach]. unfold searchLayer at 1.
    destruct (searchLayer_scan term page layer 0 ms next)
      as (new1 & layer' & A1 & A2 & A3 & A4 & A5 & A6).
    rewrite A1.
    destruct (IH (S page) (ms ++ new1)%list (next + 2 * length new1))
      as (new2 & d' & B1 & B2 & B3 & B4 & B5 & B6).
    rewrite B1.
    exists (new1 ++ new2)%list, (layer' :: d').
    repeat split.
    + rewrite app_assoc, length_app. do 2 f_equal. lia.
    + unfold overlayText. cbn [map specScanPages].
      rewrite map_app, A2. f_equal.
      rewrite B2, length_app. unfold overlayText.
      rewrite <- A2, length_map. reflexivity.
    + unfold parserSafeOverlay, overlayText in *. cbn [map forallb].
      intros H. apply andb_true_iff in H as [Hl Hr].
      now rewrite A3, B3.
    + apply Forall_app. split; [exact A4 |].
      eapply Forall_impl; [| exact B4].
      intros m [k Hk]. exists (length new1 + k). lia.
    + unfold documentElements. cbn [flat_map]. intros H.
      apply app_eq_nil in H as [Hl Hr].
      rewrite map_app. f_equal; [now apply A5 | now apply B5].
    + unfold plainOverlay, parserSafeOverlay, overlayText in *.
      cbn [map forallb]. intros H S.
      apply andb_true_iff in H as [Hl Hr].
      apply andb_true_iff in S as [Sl Sr].
      constructor; [now apply A6 | now apply B6].
Qed.

(** *** Documents that differ in classes only *)

Lemma Forall2_same {A : Type} (R : A -> A -> Prop) (l : list A) :
  (forall x, R x x) -> Forall2 R l l.
Proof. intros H; induction l; constructor; auto. Qed.

Lemma Forall2_chain {A : Type} (R : A -> A -> Prop) :
  (forall x y z, R x y -> R y z -> R x z) ->
  forall l1 l2 l3, Forall2 R l1 l2 -> Forall2 R l2 l3 -> Forall2 R l1 l3.
Proof.
  intros HR l1 l2 l3 H; revert l3.
  induction H as [|x y l l' Hxy _ IH]; intros l3 H3; inversion H3; subst;
    constructor; eauto.
Qed.

Lemma Forall2_map_eq {A B : Type} (R : A -> A -> Prop) (f : A -> B) (l l' : list A) :
  (forall x y, R x y -> f y = f x) -> Forall2 R l l' -> map f l' = map f l.
Proof.
  intros Hf H; induction H as [|x y l l' Hxy _ IH]; simpl;
    [reflexivity | now rewrite IH, (Hf x y Hxy)].
Qed.

Lemma Forall2_flat_map_eq {A B C : Type} (R : A -> A -> Prop)
      (f : A -> list B) (g : B -> C) (l l' : list A) :
  (forall x y, R x y -> map g (f y) = map g (f x)) ->
  Forall2 R l l' -> map g (flat_map f l') = map g (flat_map f l).
Proof.
  intros Hf H; induction H as [|x y l l' Hxy _ IH]; simpl;
    [reflexivity | now rewrite !map_app, IH, (Hf x y Hxy)].
Qed.

Lemma Forall2_Forall {A : Type} (R : A -> A -> Prop) (P : A -> Prop) (l l' : list A) :
  (forall x y, R x y -> P x -> P y) -> Forall2 R l l' -> Forall P l -> Forall P l'.
Proof.
  intros HP H; induction H as [|x y l l' Hxy _ IH]; intros HF;
    [constructor | inversion HF; subst; constructor; eauto].
Qed.

Lemma sameButClass_refl (n : Node) : sameButClass n n.
Proof. destruct n; simpl; auto. Qed.

Lemma sameButClass_trans (x y z : Node) :
  sameButClass x y -> sameButClass y z -> sameButClass x z.
Proof.
  destruct x, y, z; simpl; try tauto; try congruence.
  intros (A1 & A2 & A3) (B1 & B2 & B3). repeat split; congruence.
Qed.

Lemma upToClass_refl (d : Document) : upToClass d d.
Proof.
  apply Forall2_same; intros l. apply Forall2_same; intros span.
  apply Forall2_same, sameButClass_refl.
Qed.

Lemma upToClass_trans (d1 d2 d3 : Document) :
  upToClass d1 d2 -> upToClass d2 d3 -> upToClass d1 d3.
Proof.
  apply Forall2_chain; intros x y z. apply Forall2_chain; clear x y z.
  intros x y z. apply Forall2_chain, sameButClass_trans.
Qed.

Lemma span_upToClass_text (span span' : Span) :
  Forall2 sameButClass span span' -> spanTextContent span' = spanTextContent span.
Proof.
  intros H; induction H as [|[s|e] [s'|e'] l l' Hn _ IH]; simpl in *;
    try contradiction; try reflexivity.
  - now subst; rewrite IH.
  - destruct Hn as (_ & _ & ->). now rewrite IH.
Qed.

Lemma span_upToClass_key (span span' : Span) :
  Forall2 sameButClass span span' ->
  map key (spanElements span') = map key (spanElements span).
Proof.
  intros H; induction H as [|[s|e] [s'|e'] l l' Hn _ IH]; simpl in *;
    try contradiction; try reflexivity; try exact IH.
  destruct Hn as (A & B & C). unfold key at 1 3. now rewrite A, B, C, IH.
Qed.

Lemma span_upToClass_settled (span span' : Span) :
  Forall2 sameButClass span span' -> settled span -> settled span'.
Proof.
  intros H [Ht Hp]. split.
  - now rewrite (span_upToClass_text H).
  - intros He.
    assert (Hk := span_upToClass_key H). rewrite He in Hk. simpl in Hk.
    symmetry in Hk. apply map_eq_nil in Hk.
    destruct (plainSpan_inv _ (Hp Hk)) as (s & -> & Hs).
    inversion H as [|n n' l l' Hn Hl]; subst.
    inversion Hl; subst.
    destruct n' as [s'|e']; simpl in Hn; [subst; exact Hs | contradiction].
Qed.

Lemma upToClass_text (d d' : Document) :
  upToClass d d' -> overlayText d' = overlayText d.
Proof.
  unfold upToClass, overlayText. apply Forall2_map_eq; intros l l'.
  apply Forall2_map_eq; intros span span'. apply span_upToClass_text.
Qed.

Lemma upToClass_key (d d' : Document) :
  upToClass d d' ->
  map key (documentElements d') = map key (documentElements d).
Proof.
  unfold upToClass, documentElements, layerElements.
  apply Forall2_flat_map_eq; intros l l'.
  apply Forall2_flat_map_eq; intros span span'. apply span_upToClass_key.
Qed.

Lemma upToClass_settled (d d' : Document) :
  upToClass d d' -> Forall (Forall settled) d -> Forall (Forall settled) d'.
Proof.
  unfold upToClass. apply Forall2_Forall; intros l l'.
  apply Forall2_Forall; intros span span'. apply span_upToClass_settled.
Qed.

Lemma mapNode_sameButClass (f : Element -> Element) (n : Node) :
  keepsKey f -> sameButClass n (mapNode f n).
Proof.
  intros Hf. destruct n as [s|e]; simpl; [reflexivity |].
  destruct (Hf e) as (A & B & C). auto.
Qed.

Lemma mapElements_upToClass (f : Element -> Element) (d : Document) :
  keepsKey f -> upToClass d (mapElements f d).
Proof.
  intros Hf. unfold upToClass, mapElements.
  induction d as [|l d IHd]; simpl; constructor; [| exact IHd].
  clear IHd. induction l as [|span l IHl]; simpl; constructor; [| exact IHl].
  clear IHl. induction span as [|n span IHs]; simpl; constructor;
    [now apply mapNode_sameButClass | exact IHs].
Qed.

Lemma updateFirstInSpan_upToClass (p : Element -> bool) (f : Element -> Element)
      (span : Span) :
  keepsKey f -> Forall2 sameButClass span (fst (updateFirstInSpan p f span)).
Proof.
  intros Hf. induction span as [|[s|e] span IH]; simpl.
  - constructor.
  - destruct (updateFirstInSpan p f span) as [rest' found]; simpl in *.
    constructor; [reflexivity | exact IH].
  - destruct (p e).
    + simpl. constructor.
      * apply (mapNode_sameButClass (ElementNode e) Hf).
      * apply Forall2_same, sameButClass_refl.
    + destruct (updateFirstInSpan p f span) as [rest' found]; simpl in *.
      constructor; [apply sameButClass_refl | exact IH].
Qed.

Lemma updateFirstInLayer_upToClass (p : Element -> bool) (f : Element -> Element)
      (l : TextLayer) :
  keepsKey f ->
  Forall2 (Forall2 sameButClass) l (fst (updateFirstInLayer p f l)).
Proof.
  intros Hf. induction l as [|span l IH]; simpl; [constructor |].
  assert (Hs := updateFirstInSpan_upToClass p span Hf).
  destruct (updateFirstInSpan p f span) as [span' found]; simpl in *.
  destruct found; simpl.
  - constructor; [exact Hs |].
    apply Forall2_same; intros x. apply Forall2_same, sameButClass_refl.
  - destruct (updateFirstInLayer p f l) as [rest' found']; simpl in *.
    constructor; [apply Forall2_same, sameButClass_refl | exact IH].
Qed.

Lemma updateFirst_upToClass (p : Element -> bool) (f : Element -> Element)
      (d : Document) :
  keepsKey f -> upToClass d (updateFirst p f d).
Proof.
  intros Hf. unfold upToClass.
  induction d as [|l d IH]; simpl; [constructor |].
  assert (Hl := updateFirstInLayer_upToClass p l Hf).
  destruct (updateFirstInLayer p f l) as [l' found]; simpl in *.
  destruct found.
  - constructor; [exact Hl | apply upToClass_refl].
  - constructor; [| exact IH].
    apply Forall2_same; intros x. apply Forall2_same, sameButClass_refl.
Qed.

Lemma setClass_keepsKey (c : ClassName) : keepsKey (setClass c).
Proof. intros e. simpl. auto. Qed.

Lemma unmark_keepsKey :
  keepsKey (fun el => if isCurrent el then setClass search_highlight el else el).
Proof. intros e. destruct (isCurrent e); simpl; auto. Qed.

(** [highlightCurrentMatch] changes classes and nothing else. *)
Lemma highlightCurrentMatch_upToClass (this : State) :
  upToClass (document this) (document (highlightCurrentMatch this)).
Proof.
  unfold highlightCurrentMatch.
  match goal with
  | |- context [updateSearchResults ?st] =>
      destruct (updateSearchResults_fields st) as (_ & _ & H & _); rewrite H
  end.
  cbn [document setDocument].
  assert (H1 := mapElements_upToClass (document this) unmark_keepsKey).
  destruct (_ && _)%bool; [| exact H1].
  destruct (querySelector _ _); [| exact H1].
  eapply upToClass_trans; [exact H1 |].
  apply updateFirst_upToClass, setClass_keepsKey.
Qed.

(** *** [performSearch] as a whole *)

Lemma plainSpan_elements (span : Span) :
  plainSpan span = true -> spanElements span = [].
Proof. intros H. apply plainSpan_inv in H as (s & -> & _). reflexivity. Qed.

Lemma plainOverlay_elements (d : Document) :
  plainOverlay d = true -> documentElements d = [].
Proof.
  unfold plainOverlay, documentElements, layerElements.
  induction d as [|l d IH]; simpl; [reflexivity |].
  intros H. apply andb_true_iff in H as [Hl Hd]. rewrite (IH Hd), app_nil_r.
  clear IH Hd. induction l as [|span l IHl]; simpl; [reflexivity |].
  simpl in Hl. apply andb_true_iff in Hl as [Hs Hl].
  now rewrite (plainSpan_elements _ Hs), IHl.
Qed.

Lemma performSearch_early (term : string) (this : State) :
  pdfDoc this = false \/ truthy term = false ->
  searchMatches (performSearch term this) = [] /\
  document (performSearch term this) = document (clearSearchHighlights this).
Proof.
  intros H. unfold performSearch.
  replace (negb _ || negb (truthy term))%bool with true; [split; reflexivity |].
  cbn [pdfDoc setCurrentSearchIndex setSearchMatches clearSearchHighlights setDocument].
  destruct H as [-> | ->]; [reflexivity | now rewrite orb_true_r].
Qed.

Lemma performSearch_outcome (term : string) (this : State) :
  pdfDoc this = true -> truthy term = true ->
  exists d' : Document,
    map toSpec (searchMatches (performSearch term this))
    = specSearch term (overlayText (document this))
    /\ (parserSafeOverlay (document this) = true ->
        overlayText d' = overlayText (document this))
    /\ Forall (freshFrom (nextId this)) (searchMatches (performSearch term this))
    /\ documentElements d' = map live (searchMatches (performSearch term this))
    /\ (plainOverlay (document this) = true ->
        parserSafeOverlay (document this) = true ->
        Forall (Forall settled) d')
    /\ upToClass d' (document (performSearch term this)).
Proof.
  intros Hdoc Hterm.
  destruct (searchDocument_scan term (document (clearSearchHighlights this))
                                0 [] (nextId this))
    as (new & d' & H1 & H2 & H3 & H4 & H5 & H6).
  exists d'.
  assert (E : searchMatches (performSearch term this) = new /\
              upToClass d' (document (performSearch term this))).
  { unfold performSearch.
    replace (negb _ || negb (truthy term))%bool with false
      by (cbn [pdfDoc setCurrentSearchIndex setSearchMatches
                 clearSearchHighlights setDocument];
          now rewrite Hdoc, Hterm).
    change (forEach
              (searchLayer term (toLowerCase term))
              (document (clearSearchHighlights this)) 0
              ([], nextId this)) with
      (forEach
         (searchLayer term (toLowerCase term))
         (document (setCurrentSearchIndex (-1)%Z
                      (setSearchMatches [] (clearSearchHighlights this)))) 0
         (searchMatches (setCurrentSearchIndex (-1)%Z
                           (setSearchMatches [] (clearSearchHighlights this))),
          nextId (setCurrentSearchIndex (-1)%Z
                    (setSearchMatches [] (clearSearchHighlights this))))) in H1.
    rewrite H1. cbn [app].
    match goal with
    | |- context [updateSearchResults ?st] =>
        destruct (updateSearchResults_fields st) as (A1 & _ & A3 & _);
        rewrite A1, A3
    end.
    cbn [searchMatches setDocument setSearchMatches].
    destruct (0 <? length new).
    - match goal with
      | |- context [highlightCurrentMatch ?st] =>
          destruct (highlightCurrentMatch_fields st) as (B1 & _);
          rewrite B1; split; [reflexivity |];
          apply (highlightCurrentMatch_upToClass st)
      end.
    - split; [reflexivity | apply upToClass_refl]. }
  destruct E as [E1 E2]. rewrite E1.
  repeat split.
  - rewrite H2, clear_text. reflexivity.
  - intros Hs. rewrite H3, clear_text; [reflexivity |].
    unfold parserSafeOverlay. now rewrite clear_text.
  - exact H4.
  - apply H5, clear_elements.
  - intros Hp Hs. apply H6.
    + now rewrite (clear_plain this (plainOverlay_elements _ Hp)).
    + unfold parserSafeOverlay. now rewrite clear_text.
  - exact E2.
Qed.

Lemma performSearch_text (term : string) (this : State) :
  parserSafeOverlay (document this) = true ->
  overlayText (document (performSearch term this)) = overlayText (document this).
Proof.
  intros Hs.
  destruct (pdfDoc this) eqn:Hd; [destruct (truthy term) eqn:Ht |].
  - destruct (performSearch_outcome term this Hd Ht) as (d' & _ & H & _ & _ & _ & U).
    rewrite (upToClass_text U). now apply H.
  - destruct (performSearch_early term this (or_intror Ht)) as [_ ->].
    apply clear_text.
  - destruct (performSearch_early term this (or_introl Hd)) as [_ ->].
    apply clear_text.
Qed.

Lemma handleSearch_text (this : State) :
  parserSafeOverlay (document this) = true ->
  overlayText (document (handleSearch this)) = overlayText (document this).
Proof.
  intros Hs. unfold handleSearch.
  destruct (String.length (trim (searchInput this)) =? 0).
  - destruct (cleared_fields this) as (_ & _ & H). cbv zeta in H.
    rewrite H. apply clear_text.
  - destruct (String.length (trim (searchInput this)) <? 2); [reflexivity |].
    now apply performSearch_text.
Qed.

Lemma clearSearch_document (this : State) :
  document (clearSearch this) = document (clearSearchHighlights this).
Proof. reflexivity. Qed.

(** *** Unwrapping settled spans *)

Lemma unwrapIn_settled (h : Element) (span : Span) :
  settled span -> settled (unwrapIn h span).
Proof.
  intros [Ht Hp]. split; [now rewrite unwrapIn_text |].
  unfold unwrapIn. destruct (existsb (isNode h) span); [| exact Hp].
  rewrite normalize_elements. intros He.
  rewrite (normalize_no_elements _ He), replaceChild_text, Ht.
  simpl. exact Ht.
Qed.

Lemma fold_unwrap_settled (hs : list Element) (d : Document) :
  Forall (Forall settled) d -> Forall (Forall settled) (fold_left unwrap hs d).
Proof.
  revert d; induction hs as [|h hs IH]; intros d H; simpl; [exact H |].
  apply IH. unfold unwrap.
  apply Forall_map. eapply Forall_impl; [| exact H].
  intros l Hl. apply Forall_map. eapply Forall_impl; [| exact Hl].
  intros span. apply unwrapIn_settled.
Qed.

Lemma settled_plainOverlay (d : Document) :
  Forall (Forall settled) d -> documentElements d = [] -> plainOverlay d = true.
Proof.
  unfold plainOverlay, documentElements, layerElements.
  induction d as [|l d IH]; simpl; intros H He; [reflexivity |].
  inversion H as [|? ? Hl Hd]; subst.
  apply app_eq_nil in He as [He1 He2].
  rewrite (IH Hd He2), andb_true_r. clear IH Hd He2 H.
  induction l as [|span l IHl]; simpl; [reflexivity |].
  inversion Hl as [|? ? Hs Hr]; subst. simpl in He1.
  apply app_eq_nil in He1 as [Ha Hb].
  destruct Hs as [_ Hs]. now rewrite (Hs Ha), (IHl Hb Hr).
Qed.

Lemma plainOverlay_settled (d : Document) :
  plainOverlay d = true -> Forall (Forall settled) d.
Proof.
  unfold plainOverlay. intros H.
  apply Forall_forall; intros l Hl. apply Forall_forall; intros span Hs.
  apply plainSpan_settled.
  rewrite forallb_forall in H. specialize (H l Hl).
  rewrite forallb_forall in H. now apply H.
Qed.

(** Two plain overlays with the same texts are the same document. *)
Lemma plainOverlay_eq (d d' : Document) :
  plainOverlay d = true -> plainOverlay d' = true ->
  overlayText d' = overlayText d -> d' = d.
Proof.
  unfold plainOverlay, overlayText.
  revert d'; induction d as [|l d IH]; intros [|l' d']; simpl;
    try discriminate; [reflexivity |].
  intros H H' E. apply andb_true_iff in H as [Hl Hd].
  apply andb_true_iff in H' as [Hl' Hd']. injection E as El Ed.
  f_equal; [| now apply IH].
  clear IH Hd Hd' Ed. revert l' Hl' El.
  induction l as [|span l IHl]; intros [|span' l']; simpl;
    try discriminate; [reflexivity |].
  intros Hl' El. simpl in Hl. apply andb_true_iff in Hl as [Hs Hr].
  apply andb_true_iff in Hl' as [Hs' Hr']. injection El as Es Er.
  f_equal; [| now apply IHl].
  apply plainSpan_inv in Hs as (s & -> & _).
  apply plainSpan_inv in Hs' as (s' & -> & _).
  simpl in Es. rewrite !append_empty_r in Es. now subst.
Qed.

Lemma clear_restores (this : State) (d : Document) :
  plainOverlay d = true ->
  Forall (Forall settled) (document this) ->
  overlayText (document this) = overlayText d ->
  document (clearSearchHighlights this) = d.
Proof.
  intros Hp Hs Ht. apply plainOverlay_eq; [exact Hp | |].
  - apply settled_plainOverlay; [| apply clear_elements].
    unfold clearSearchHighlights; simpl. now apply fold_unwrap_settled.
  - now rewrite clear_text.
Qed.

Lemma performSearch_settled (term : string) (this : State) :
  plainOverlay (document this) = true ->
  parserSafeOverlay (document this) = true ->
  Forall (Forall settled) (document (performSearch term this)).
Proof.
  intros Hp Hs.
  assert (Hc : document (clearSearchHighlights this) = document this)
    by (apply clear_plain, plainOverlay_elements, Hp).
  destruct (pdfDoc this) eqn:Hd; [destruct (truthy term) eqn:Ht |].
  - destruct (performSearch_outcome term this Hd Ht) as (d' & _ & _ & _ & _ & H & U).
    apply (upToClass_settled U), H; [exact Hp | exact Hs].
  - destruct (performSearch_early term this (or_intror Ht)) as [_ ->].
    rewrite Hc. now apply plainOverlay_settled.
  - destruct (performSearch_early term this (or_introl Hd)) as [_ ->].
    rewrite Hc. now apply plainOverlay_settled.
Qed.

Lemma handleSearch_settled (this : State) :
  plainOverlay (document this) = true ->
  parserSafeOverlay (document this) = true ->
  Forall (Forall settled) (document (handleSearch this)).
Proof.
  intros Hp Hs. unfold handleSearch.
  destruct (String.length (trim (searchInput this)) =? 0).
  - destruct (cleared_fields this) as (_ & _ & H). cbv zeta in H. rewrite H.
    rewrite (clear_plain this (plainOverlay_elements _ Hp)).
    now apply plainOverlay_settled.
  - destruct (String.length (trim (searchInput this)) <? 2);
      [now apply plainOverlay_settled | now apply performSearch_settled].
Qed.

(** *** Navigation, and terms shorter than two characters *)

(** C4: with [N >= 1] matches and the index at [i], [nextMatch] moves
    the index to [(i + 1) mod N], [previousMatch] moves it to [N - 1]
    when [i = 0] and to [i - 1] otherwise, and [N] calls of [nextMatch]
    bring it back to [i]; the match list stays as it is. *)
Theorem navigation_wraps (this : State) (N : nat) (i : Z) :
  length (searchMatches this) = N -> 1 <= N ->
  currentSearchIndex this = i -> (0 <= i < Z.of_nat N)%Z ->
  currentSearchIndex (nextMatch this) = ((i + 1) mod Z.of_nat N)%Z /\
  currentSearchIndex (previousMatch this) =
    (if (i =? 0)%Z then Z.of_nat N - 1 else i - 1)%Z /\
  currentSearchIndex (nextTimes N this) = i /\
  searchMatches (nextMatch this) = searchMatches this /\
  searchMatches (previousMatch this) = searchMatches this.
Proof.
  intros HN H1N Hi Hr. subst N i.
  assert (Hne : searchMatches this <> []) by now apply length_nonempty.
  destruct (goToNextMatch_fields this Hne) as (A1 & A2).
  destruct (goToPreviousMatch_fields this Hne) as (B1 & B2).
  destruct (nextTimes_fields (length (searchMatches this)) this H1N Hr)
    as (C1 & C2).
  unfold nextMatch, previousMatch.
  repeat split; try assumption.
  - rewrite A2. apply Z.rem_mod_nonneg; lia.
  - rewrite B2.
    destruct (currentSearchIndex this <=? 0)%Z eqn:C;
      destruct (currentSearchIndex this =? 0)%Z eqn:D;
      try reflexivity; lia.
  - rewrite C2.
    rewrite <- (Z.mul_1_l (Z.of_nat (length (searchMatches this)))) at 1.
    rewrite Z.mod_add by lia. apply Z.mod_small. lia.
Qed.

(** C5: when the trimmed content of the search box has exactly one
    character, [handleSearch] returns the state it was given: the match
    list, the current index and the document with its highlight markers
    are untouched. *)
Theorem search_one_character_noop (this : State) :
  String.length (trim (searchInput this)) = 1 ->
  handleSearch this = this.
Proof.
  intros H. unfold handleSearch. rewrite H. reflexivity.
Qed.

(** C6: when the trimmed content of the search box is empty,
    [handleSearch] leaves an empty match list, the index [-1], and a
    document without any highlight marker, in which every overlay node
    has the text it had. *)
Theorem search_empty_clears (this : State) :
  String.length (trim (searchInput this)) = 0 ->
  searchMatches (handleSearch this) = [] /\
  currentSearchIndex (handleSearch this) = (-1)%Z /\
  querySelectorAll isHighlight (document (handleSearch this)) = [] /\
  overlayText (document (handleSearch this)) = overlayText (document this).
Proof.
  intros H. unfold handleSearch. rewrite H. cbn [Nat.eqb].
  destruct (cleared_fields this) as (H1 & H2 & H3).
  cbv zeta in H1, H2, H3. rewrite H1, H2, H3.
  unfold querySelectorAll. rewrite clear_elements, clear_text.
  repeat split; reflexivity.
Qed.

(** C9: the constructor establishes, and every operation of the module
    (search with any term, next, previous, clear) preserves, that the
    current index is [-1] exactly when the match list is empty and lies
    in [[0, count)] otherwise. *)
Theorem index_invariant :
  (forall loaded d n, indexInvariant (constructor loaded d n)) /\
  (forall this op, indexInvariant this -> indexInvariant (step this op)).
Proof.
  split.
  - intros loaded d n. apply indexInvariant_of. reflexivity.
  - exact step_invariant.
Qed.

Lemma navigation_wraps_witness :
  currentSearchIndex (nextMatch (search "cat" exampleCats)) = ((0 + 1) mod Z.of_nat 2)%Z
  /\ currentSearchIndex (previousMatch (search "cat" exampleCats))
     = (if (0 =? 0)%Z then Z.of_nat 2 - 1 else 0 - 1)%Z
  /\ currentSearchIndex (nextTimes 2 (search "cat" exampleCats)) = 0%Z
  /\ searchMatches (nextMatch (search "cat" exampleCats))
     = searchMatches (search "cat" exampleCats)
  /\ searchMatches (previousMatch (search "cat" exampleCats))
     = searchMatches (search "cat" exampleCats).
Proof.
  apply (@navigation_wraps (search "cat" exampleCats) 2 0%Z).
  - reflexivity.
  - lia.
  - reflexivity.
  - lia.
Defined.

Lemma search_one_character_noop_witness :
  handleSearch (setSearchInput " c " (search "cat" exampleCats))
  = setSearchInput " c " (search "cat" exampleCats).
Proof.
  apply (search_one_character_noop
           (setSearchInput " c " (search "cat" exampleCats))).
  reflexivity.
Defined.

Lemma search_empty_clears_witness :
  searchMatches (handleSearch (setSearchInput "  " (search "cat" exampleCats))) = []
  /\ currentSearchIndex
       (handleSearch (setSearchInput "  " (search "cat" exampleCats))) = (-1)%Z
  /\ querySelectorAll isHighlight
       (document (handleSearch (setSearchInput "  " (search "cat" exampleCats)))) = []
  /\ overlayText
       (document (handleSearch (setSearchInput "  " (search "cat" exampleCats))))
     = overlayText (document (setSearchInput "  " (search "cat" exampleCats))).
Proof.
  apply (search_empty_clears
           (setSearchInput "  " (search "cat" exampleCats))).
  reflexivity.
Defined.

Lemma index_invariant_witness :
  indexInvariant (constructor true (overlayOf [["Hello"; "World"]]) 0)
  /\ indexInvariant (step (search "cat" exampleCats) OpPrevious).
Proof.
  destruct index_invariant as [H1 H2].
  split; [apply H1 |].
  apply H2. unfold indexInvariant.
  split; [split; discriminate |].
  intros _. simpl. lia.
Defined.

(** *** The scan, clearing, and the stored elements *)

Lemma specScanNodes_index (term : string) (page : nat) (nodes : list string) :
  forall node index,
  map matchIndex (specScanNodes term page nodes node index)
  = seq index (length (specScanNodes term page nodes node index)).
Proof.
  induction nodes as [|t nodes IH]; intros node index; simpl; [reflexivity |].
  destruct (specMatch term t); simpl; [now rewrite IH | apply IH].
Qed.

Lemma specScanPages_index (term : string) (pages : list (list string)) :
  forall page index,
  map matchIndex (specScanPages term pages page index)
  = seq index (length (specScanPages term pages page index)).
Proof.
  induction pages as [|nodes pages IH]; intros page index; simpl;
    [reflexivity |].
  now rewrite map_app, length_app, seq_app, specScanNodes_index, IH.
Qed.

Lemma specScanNodes_owner (term : string) (page : nat) (nodes : list string) :
  forall node index,
  Forall (fun r => pageNumber r = page /\ node <= ownerNodeIndex r)
         (specScanNodes term page nodes node index)
  /\ NoDup (map owner (specScanNodes term page nodes node index)).
Proof.
  induction nodes as [|t nodes IH]; intros node index; simpl.
  - split; constructor.
  - destruct (specMatch term t) as [sub|].
    + destruct (IH (S node) (S index)) as [F N]. split.
      * constructor; [simpl; split; [reflexivity | lia] |].
        eapply Forall_impl; [| exact F]. intros r [H1 H2]. split; [exact H1 | lia].
      * cbn [map]. constructor; [| exact N].
        intros Hin. apply in_map_iff in Hin as (r & E & Hr).
        rewrite Forall_forall in F. destruct (F r Hr) as [_ H2].
        unfold owner in E. simpl in E. injection E as _ E. lia.
    + destruct (IH (S node) index) as [F N]. split; [| exact N].
      eapply Forall_impl; [| exact F]. intros r [H1 H2]. split; [exact H1 | lia].
Qed.

Lemma specScanPages_owner (term : string) (pages : list (list string)) :
  forall page index,
  Forall (fun r => page <= pageNumber r) (specScanPages term pages page index)
  /\ NoDup (map owner (specScanPages term pages page index)).
Proof.
  induction pages as [|nodes pages IH]; intros page index; simpl.
  - split; constructor.
  - destruct (specScanNodes_owner term page nodes 0 index) as [F1 N1].
    destruct (IH (S page)
                 (index + length (specScanNodes term page nodes 0 index)))
      as [F2 N2].
    split.
    + apply Forall_app. split.
      * eapply Forall_impl; [| exact F1]. intros r [H1 _]. lia.
      * eapply Forall_impl; [| exact F2]. intros r H. simpl in H. lia.
    + rewrite map_app. apply NoDup_app; [exact N1 | exact N2 |].
      intros a Ha Hb.
      apply in_map_iff in Ha as (r & <- & Hr).
      apply in_map_iff in Hb as (r' & E & Hr').
      rewrite Forall_forall in F1, F2.
      destruct (F1 r Hr) as [H1 _]. specialize (F2 r' Hr'). simpl in F2.
      unfold owner in E. injection E as E _. lia.
Qed.

(** C2: for a term of two characters or more, in a viewer that shows
    overlay nodes only once a document is loaded, the matches
    [performSearch] records are those of the specification's scan: every
    node's text is tried case-insensitively in page order then node
    order, a node that contains the term gives exactly one match, the
    one of the first occurrence, so that no node owns two matches; the
    match indices are 0, 1, 2, ... in discovery order; and the current
    index is 0 when there is a match and -1 otherwise. *)
Theorem performSearch_scans (term : string) (this : State) :
  2 <= String.length term ->
  (pdfDoc this = false -> document this = []) ->
  map toSpec (searchMatches (performSearch term this))
  = specSearch term (overlayText (document this))
  /\ NoDup (map (fun m => (pageIndex m, spanIndex m))
                (searchMatches (performSearch term this)))
  /\ map (fun m => dataSearchMatch (element m)) (searchMatches (performSearch term this))
     = seq 0 (length (searchMatches (performSearch term this)))
  /\ currentSearchIndex (performSearch term this)
     = match searchMatches (performSearch term this) with
       | [] => (-1)%Z
       | _ :: _ => 0%Z
       end.
Proof.
  intros Hlen Hdoc.
  assert (Ht : truthy term = true)
    by (rewrite truthy_length; apply Nat.ltb_lt; lia).
  assert (H : map toSpec (searchMatches (performSearch term this))
              = specSearch term (overlayText (document this))).
  { destruct (pdfDoc this) eqn:Hd.
    - now destruct (performSearch_outcome term this Hd Ht) as (d' & H & _).
    - destruct (performSearch_early term this (or_introl Hd)) as [-> _].
      now rewrite (Hdoc eq_refl). }
  split; [exact H | split; [| split]].
  - assert (E := f_equal (map owner) H). rewrite map_map in E.
    unfold owner at 1 in E. cbn [toSpec pageNumber ownerNodeIndex] in E.
    rewrite E. apply specScanPages_owner.
  - assert (E := f_equal (map matchIndex) H). rewrite map_map in E.
    cbn [toSpec matchIndex] in E. rewrite E.
    unfold specSearch. rewrite specScanPages_index.
    now rewrite <- (length_map toSpec), H.
  - apply performSearch_index.
Qed.

Lemma performSearch_scans_witness :
  map toSpec (searchMatches (performSearch "cat" exampleCats))
  = specSearch "cat" (overlayText (document exampleCats))
  /\ NoDup (map (fun m => (pageIndex m, spanIndex m))
                (searchMatches (performSearch "cat" exampleCats)))
  /\ map (fun m => dataSearchMatch (element m))
         (searchMatches (performSearch "cat" exampleCats))
     = seq 0 (length (searchMatches (performSearch "cat" exampleCats)))
  /\ currentSearchIndex (performSearch "cat" exampleCats)
     = match searchMatches (performSearch "cat" exampleCats) with
       | [] => (-1)%Z
       | _ :: _ => 0%Z
       end.
Proof.
  apply (performSearch_scans "cat" exampleCats).
  - simpl. lia.
  - simpl. discriminate.
Defined.

(** The two-page scenario of the specification: no match on page 1,
    two nodes with the term on page 2, one of them twice. *)
Example search_cat_two_pages :
  map toSpec (searchMatches (search "cat" exampleCats))
  = [ {| matchIndex := 0; pageNumber := 2; ownerNodeIndex := 0;
         matchedSubstring := "Cat" |};
      {| matchIndex := 1; pageNumber := 2; ownerNodeIndex := 2;
         matchedSubstring := "cat" |} ]
  /\ currentSearchIndex (search "cat" exampleCats) = 0%Z.
Proof. vm_compute. split; reflexivity. Qed.

Lemma search_clear_no_highlight (term : string) (this : State) :
  querySelectorAll isHighlight (document (clear (search term this))) = [].
Proof.
  unfold clear. rewrite clearSearch_document.
  unfold querySelectorAll. now rewrite clear_elements.
Qed.

Lemma search_clear_text (term : string) (this : State) :
  parserSafeOverlay (document this) = true ->
  overlayText (document (clear (search term this))) = overlayText (document this).
Proof.
  intros Hs. unfold clear. rewrite clearSearch_document.
  change (document (clearSearchHighlights (setSearchInput "" (search term this))))
    with (document (clearSearchHighlights (search term this))).
  rewrite clear_text. unfold search.
  now rewrite handleSearch_text.
Qed.

Lemma search_clear_document (term : string) (this : State) :
  parserSafeOverlay (document this) = true ->
  plainOverlay (document this) = true ->
  document (clear (search term this)) = document this.
Proof.
  intros Hs Hp. unfold clear. rewrite clearSearch_document.
  apply clear_restores; [exact Hp | |].
  - unfold search.
    apply (handleSearch_settled (setSearchInput term this) Hp Hs).
  - unfold search. now rewrite handleSearch_text.
Qed.

(** C3: the round trip fails on the code for a text that holds a
    carriage return: the overlay node "cat", CR, "dog" is found by the
    term "cat", and after [clear] there is no highlight marker left but
    the node's text is "cat", LF, "dog": the re-parse of the markup in
    [performSearch] has turned the CR into an LF, and [clear] does not
    bring it back. *)
Theorem search_then_clear_alters_text :
  map toSpec (searchMatches (search "cat" exampleCarriageReturn))
  = [ {| matchIndex := 0; pageNumber := 1; ownerNodeIndex := 0;
         matchedSubstring := "cat" |} ]
  /\ querySelectorAll isHighlight
       (document (clear (search "cat" exampleCarriageReturn))) = []
  /\ overlayText (document exampleCarriageReturn)
     = [["cat" ++ String CR "dog"]]%string
  /\ overlayText (document (clear (search "cat" exampleCarriageReturn)))
     = [["cat" ++ String LF "dog"]]%string
  /\ overlayText (document (clear (search "cat" exampleCarriageReturn)))
     <> overlayText (document exampleCarriageReturn).
Proof. vm_compute. repeat split; discriminate. Qed.

(** The same loss for U+0000, which the parser drops. *)
Example search_then_clear_drops_NUL :
  overlayText
    (document
       (clear (search "cat"
                 (constructor true
                    (overlayOf [["cat" ++ String NUL "dog"]%string]) 0))))
  = [["catdog"]].
Proof. reflexivity. Qed.

(** X22: after a search followed by [clear] no highlight marker is left
    in the document, whatever the texts and the term; and where no
    overlay node has a CR or a U+0000 in its text, every overlay node
    has the text it had, and an overlay as [createTextLayer] builds it
    (one non-empty text node per span) is restored node for node. *)
Theorem clear_undoes_search (term : string) (this : State) :
  querySelectorAll isHighlight (document (clear (search term this))) = []
  /\ (parserSafeOverlay (document this) = true ->
      overlayText (document (clear (search term this)))
      = overlayText (document this)
      /\ (plainOverlay (document this) = true ->
          document (clear (search term this)) = document this)).
Proof.
  split; [apply search_clear_no_highlight |].
  intros Hs. split; [now apply search_clear_text |].
  intros Hp. now apply search_clear_document.
Qed.

Lemma clear_undoes_search_witness :
  overlayText (document (clear (search "orl" exampleWorld)))
  = overlayText (document exampleWorld)
  /\ querySelectorAll isHighlight (document (clear (search "orl" exampleWorld))) = []
  /\ document (clear (search "orl" exampleWorld)) = document exampleWorld.
Proof.
  destruct (clear_undoes_search "orl" exampleWorld) as (H2 & H).
  destruct (H eq_refl) as (H1 & H3).
  split; [exact H1 | split; [exact H2 | apply H3; reflexivity]].
Defined.

(** The "World" scenario of the specification. *)
Example search_orl_in_World :
  map toSpec (searchMatches (search "orl" exampleWorld))
  = [ {| matchIndex := 0; pageNumber := 1; ownerNodeIndex := 1;
         matchedSubstring := "orl" |} ]
  /\ document (clear (search "orl" exampleWorld))
     = [[[TextNode "Hello"]; [TextNode "World"]]].
Proof. vm_compute. split; reflexivity. Qed.

Lemma map_key_eid (l l' : list Element) :
  map key l = map key l' -> map eid l = map eid l'.
Proof.
  intros H. apply (f_equal (map (fun k => fst (fst k)))) in H.
  now rewrite !map_map in H.
Qed.

Lemma map_key_match (l l' : list Element) :
  map key l = map key l' -> map dataSearchMatch l = map dataSearchMatch l'.
Proof.
  intros H. apply (f_equal (map (fun k => snd (fst k)))) in H.
  now rewrite !map_map in H.
Qed.

Lemma count_in_seq (i start n : nat) :
  start <= i < start + n ->
  length (filter (fun k => k =? i) (seq start n)) = 1.
Proof.
  revert start; induction n as [|n IH]; intros start H; [lia |].
  simpl. destruct (start =? i) eqn:E.
  - apply Nat.eqb_eq in E. subst. simpl. f_equal.
    assert (Hn : forall m s, i < s -> filter (fun k => k =? i) (seq s m) = []).
    { induction m as [|m IHm]; intros s Hs; simpl; [reflexivity |].
      replace (s =? i) with false by (symmetry; apply Nat.eqb_neq; lia).
      apply IHm. lia. }
    rewrite Hn; [reflexivity | lia].
  - apply Nat.eqb_neq in E. apply IH. lia.
Qed.

Lemma filter_hasSearchMatch (i : nat) (es : list Element) :
  length (filter (hasSearchMatch (Z.of_nat i)) es)
  = length (filter (fun k => k =? i) (map dataSearchMatch es)).
Proof.
  induction es as [|e es IH]; simpl; [reflexivity |].
  unfold hasSearchMatch at 1.
  replace (Z.of_nat (dataSearchMatch e) =? Z.of_nat i)%Z
    with (dataSearchMatch e =? i).
  - destruct (dataSearchMatch e =? i); simpl; now rewrite IH.
  - destruct (dataSearchMatch e =? i) eqn:E; symmetry.
    + apply Nat.eqb_eq in E. apply Z.eqb_eq. now rewrite E.
    + apply Nat.eqb_neq in E. apply Z.eqb_neq. lia.
Qed.

Lemma withElements_length (f : SearchMatch -> Element) (ms : list SearchMatch) :
  length (withElements f ms) = length ms.
Proof. apply length_map. Qed.

(** After [performSearch] no element of the document is one of the
    elements stored in the match list. *)
Lemma performSearch_detached (term : string) (this : State) (m : SearchMatch) :
  In m (searchMatches (performSearch term this)) ->
  ~ In (eid (element m))
       (map eid (documentElements (document (performSearch term this)))).
Proof.
  intros Hm Hin.
  destruct (pdfDoc this) eqn:Hd; [destruct (truthy term) eqn:Ht |].
  - destruct (performSearch_outcome term this Hd Ht)
      as (d' & _ & _ & Hf & He & _ & U).
    apply upToClass_key, map_key_eid in U. rewrite U, He, map_map in Hin.
    apply in_map_iff in Hin as (m' & E & Hm').
    rewrite Forall_forall in Hf.
    destruct (Hf m Hm) as [k Hk]. destruct (Hf m' Hm') as [k' Hk'].
    simpl in E. lia.
  - destruct (performSearch_early term this (or_intror Ht)) as [E _].
    rewrite E in Hm. exact Hm.
  - destruct (performSearch_early term this (or_introl Hd)) as [E _].
    rewrite E in Hm. exact Hm.
Qed.

(** For every match index the document holds exactly one element that
    carries it. *)
Lemma performSearch_one_carrier (term : string) (this : State) (i : nat) :
  i < length (searchMatches (performSearch term this)) ->
  length (filter (hasSearchMatch (Z.of_nat i))
                 (documentElements (document (performSearch term this))))
  = 1.
Proof.
  intros Hi.
  destruct (pdfDoc this) eqn:Hd; [destruct (truthy term) eqn:Ht |].
  - destruct (performSearch_outcome term this Hd Ht)
      as (d' & Hs & _ & _ & He & _ & U).
    apply upToClass_key, map_key_match in U.
    rewrite filter_hasSearchMatch, U, He, map_map.
    cbn [live dataSearchMatch].
    assert (E := f_equal (map matchIndex) Hs). rewrite map_map in E.
    cbn [toSpec matchIndex] in E. rewrite E.
    unfold specSearch. rewrite specScanPages_index.
    apply count_in_seq.
    fold (specSearch term (overlayText (document this))).
    rewrite <- Hs, length_map. lia.
  - destruct (performSearch_early term this (or_intror Ht)) as [E _].
    rewrite E in Hi. simpl in Hi. lia.
  - destruct (performSearch_early term this (or_introl Hd)) as [E _].
    rewrite E in Hi. simpl in Hi. lia.
Qed.

End SearchManagerFacts.

(** ** Numbers: the sign of a square root of a sum of squares *)

Module FloatFacts.

Import SpecFloat PDFViewer.
Local Open Scope Z_scope.

Lemma shr_1_nonneg (mrs : shr_record) :
  0 <= shr_m mrs -> 0 <= shr_m (shr_1 mrs).
Proof.
  destruct mrs as [m r s]; simpl.
  destruct m as [|[p|p|]|[p|p|]]; simpl; lia.
Qed.

Lemma iter_pos_nonneg (p : positive) :
  forall mrs, 0 <= shr_m mrs -> 0 <= shr_m (iter_pos shr_1 p mrs).
Proof.
  induction p as [p IH|p IH|]; intros mrs H; simpl.
  - apply IH, IH, shr_1_nonneg, H.
  - apply IH, IH, H.
  - apply shr_1_nonneg, H.
Qed.

Lemma shr_nonneg (mrs : shr_record) (e n : Z) :
  0 <= shr_m mrs -> 0 <= shr_m (fst (shr mrs e n)).
Proof.
  intros H. unfold shr. destruct n; simpl; auto.
  now apply iter_pos_nonneg.
Qed.

Lemma shr_record_of_loc_m (m : Z) (l : location) :
  shr_m (shr_record_of_loc m l) = m.
Proof. destruct l as [|[| |]]; reflexivity. Qed.

Lemma shr_fexp_nonneg (p e : Z) (m : Z) (ex : Z) (l : location) :
  0 <= m -> 0 <= shr_m (fst (shr_fexp p e m ex l)).
Proof.
  intros H. unfold shr_fexp. apply shr_nonneg.
  now rewrite shr_record_of_loc_m.
Qed.

Lemma round_nearest_even_nonneg (mx : Z) (lx : location) :
  0 <= mx -> 0 <= round_nearest_even mx lx.
Proof.
  intros H. unfold round_nearest_even.
  destruct lx as [|[| |]]; try lia. destruct (Z.even mx); lia.
Qed.

(** Rounding a non-negative mantissa with a positive sign never gives a
    negative number nor [NaN]. *)
Lemma binary_round_aux_nonneg (p e : Z) (mx ex : Z) (lx : location) :
  0 <= mx -> nonneg (binary_round_aux p e false mx ex lx) = true.
Proof.
  intros H. unfold binary_round_aux.
  assert (H1 := shr_fexp_nonneg p e ex lx H).
  destruct (shr_fexp p e mx ex lx) as [mrs' e']. simpl in H1.
  assert (H2 := shr_fexp_nonneg p e e' loc_Exact
                  (round_nearest_even_nonneg (loc_of_shr_record mrs') H1)).
  destruct (shr_fexp p e (round_nearest_even (shr_m mrs') (loc_of_shr_record mrs'))
                     e' loc_Exact) as [mrs'' e'']. simpl in H2.
  destruct (shr_m mrs'') as [|m|m]; [reflexivity | | lia].
  destruct (e'' <=? e - p); reflexivity.
Qed.

Lemma binary_round_nonneg (p e : Z) (m : positive) (ex : Z) :
  nonneg (binary_round p e false m ex) = true.
Proof.
  unfold binary_round. destruct (shl_align _ _ _) as [mz ez].
  apply binary_round_aux_nonneg. lia.
Qed.

Lemma SFmul_self_nonneg (p e : Z) (x : spec_float) :
  x <> S754_nan -> nonneg (SFmul p e x x) = true.
Proof.
  destruct x as [s|s| |s m ex]; intros H; simpl.
  - reflexivity.
  - now destruct s.
  - contradiction.
  - rewrite xorb_nilpotent. apply binary_round_aux_nonneg. lia.
Qed.

Lemma SFadd_nonneg (p e : Z) (x y : spec_float) :
  nonneg x = true -> nonneg y = true -> nonneg (SFadd p e x y) = true.
Proof.
  destruct x as [sx|sx| |sx mx ex], y as [sy|sy| |sy my ey]; simpl;
    try discriminate; try (destruct sx, sy; simpl; congruence); auto.
  destruct sx, sy; simpl; try discriminate. intros _ _.
  apply binary_round_nonneg.
Qed.

Lemma sqrtrem_nonneg (n : Z) : 0 <= fst (Z.sqrtrem n).
Proof.
  destruct n as [|q|q]; simpl; try lia.
  destruct (Pos.sqrtrem q) as [s [| r |]]; simpl; lia.
Qed.

Lemma SFsqrt_nonneg (p e : Z) (x : spec_float) :
  nonneg x = true -> nonneg (SFsqrt p e x) = true.
Proof.
  destruct x as [s|s| |s m ex]; simpl; try discriminate; auto.
  - destruct s; [discriminate | reflexivity].
  - destruct s; [discriminate |]. intros _.
    unfold SFsqrt_core_binary.
    match goal with
    | |- context [Z.sqrtrem ?n] =>
        assert (H := sqrtrem_nonneg n); destruct (Z.sqrtrem n) as [q r]
    end.
    apply binary_round_aux_nonneg. exact H.
Qed.

Lemma SFleb_zero_nonneg (x : spec_float) :
  nonneg x = true -> SFleb (S754_zero false) x = true.
Proof.
  destruct x as [s|s| |s m ex]; simpl; try discriminate; auto;
    destruct s; simpl; auto; discriminate.
Qed.

Lemma not_nan (x : float) : is_nan x = false -> Prim2SF x <> S754_nan.
Proof.
  unfold is_nan. rewrite FloatAxioms.eqb_spec. intros H E.
  rewrite E in H. discriminate.
Qed.

(** [Math.sqrt(c * c + d * d) >= 0] as soon as neither [c] nor [d] is
    [NaN]. *)
Lemma sqrt_sum_squares_nonneg (c d : float) :
  is_nan c = false -> is_nan d = false ->
  PrimFloat.leb 0 (sqrt (c * c + d * d))%float = true.
Proof.
  intros Hc Hd.
  rewrite FloatAxioms.leb_spec, FloatAxioms.sqrt_spec, FloatAxioms.add_spec,
    !FloatAxioms.mul_spec.
  change (Prim2SF 0) with (S754_zero false).
  apply SFleb_zero_nonneg, SFsqrt_nonneg, SFadd_nonneg;
    apply SFmul_self_nonneg, not_nan; assumption.
Qed.

End FloatFacts.

(** ** The viewer core *)

Module PDFViewerFacts.

Import JSString PDFViewer JSStringFacts.
Local Open Scope nat_scope.

(** *** The overlay builder *)

Section WithMath.

Variable atan2 : float -> float -> float.

Lemma createSpan_present (viewport : Viewport) (textItem : TextItem) :
  present (transform textItem) = true ->
  exists span, createSpan atan2 viewport textItem = Some span
               /\ spanText span = str textItem.
Proof.
  unfold createSpan. destruct (transform textItem) as [m|]; [| discriminate].
  intros _. eexists. split; reflexivity.
Qed.

Lemma createSpan_missing (viewport : Viewport) (textItem : TextItem) :
  present (transform textItem) = false ->
  createSpan atan2 viewport textItem = None.
Proof.
  unfold createSpan. destruct (transform textItem); [discriminate | reflexivity].
Qed.

Lemma appendSpans_spec (viewport : Viewport) (textItems : list TextItem) :
  forall container : TextLayer,
    map Some (children (appendSpans atan2 viewport textItems container))
    = (map Some (children container)
       ++ map (createSpan atan2 viewport) (filter kept textItems))%list
    /\ warned (appendSpans atan2 viewport textItems container)
       = (warned container ++ filter skipped textItems)%list
    /\ textElementCount (appendSpans atan2 viewport textItems container)
       = textElementCount container + length (filter kept textItems)
    /\ layerWidth (appendSpans atan2 viewport textItems container)
       = layerWidth container
    /\ layerHeight (appendSpans atan2 viewport textItems container)
       = layerHeight container.
Proof.
  induction textItems as [|textItem rest IH]; intros container.
  - simpl. rewrite !app_nil_r, Nat.add_0_r. repeat split; reflexivity.
  - cbn [appendSpans filter].
    assert (Hk : kept textItem
                 = negb (isBlank textItem) && present (transform textItem))
      by reflexivity.
    assert (Hs' : skipped textItem
                  = negb (isBlank textItem) && negb (present (transform textItem)))
      by reflexivity.
    rewrite Hk, Hs'. clear Hk Hs'.
    destruct (isBlank textItem); cbn [negb andb]; [apply IH |].
    destruct (transform textItem) as [m|] eqn:E; cbn [present negb].
    + destruct (createSpan_present viewport textItem) as (span & Hs & _);
        [now rewrite E |].
      rewrite Hs.
      match goal with
      | |- context [appendSpans atan2 viewport rest ?c] =>
          destruct (IH c) as (H1 & H2 & H3 & H4 & H5)
      end.
      rewrite H1, H2, H3, H4, H5. cbn [children warned textElementCount
                                       layerWidth layerHeight map length].
      rewrite map_app, <- app_assoc, Hs. cbn [map app].
      repeat split; try reflexivity. lia.
    + rewrite (createSpan_missing viewport textItem) by now rewrite E.
      match goal with
      | |- context [appendSpans atan2 viewport rest ?c] =>
          destruct (IH c) as (H1 & H2 & H3 & H4 & H5)
      end.
      rewrite H1, H2, H3, H4, H5. cbn [children warned textElementCount
                                       layerWidth layerHeight].
      rewrite <- app_assoc. repeat split; reflexivity.
Qed.

(** C8 (as the code has it): for every list of text items the build
    returns a layer; its spans are, in item order, one for each item
    whose text is not blank and whose transform is present, built by
    [createSpan] and carrying the item's text; the items whose text is
    not blank and whose transform is missing are the ones reported by
    [console.warn], and nothing else happens for them; the counter the
    code logs is the number of spans. *)
Theorem createTextLayer_spans (textItems : list TextItem)
        (container : TextLayer) (viewport : Viewport) :
  map Some (children (createTextLayer atan2 (Some textItems) container viewport))
  = map (createSpan atan2 viewport) (filter kept textItems)
  /\ map spanText (children (createTextLayer atan2 (Some textItems) container viewport))
     = map str (filter kept textItems)
  /\ warned (createTextLayer atan2 (Some textItems) container viewport)
     = (warned container ++ filter skipped textItems)%list
  /\ textElementCount (createTextLayer atan2 (Some textItems) container viewport)
     = length (children (createTextLayer atan2 (Some textItems) container viewport)).
Proof.
  unfold createTextLayer.
  match goal with
  | |- context [appendSpans atan2 viewport textItems ?c] =>
      destruct (appendSpans_spec viewport textItems c) as (H1 & H2 & H3 & _)
  end.
  cbn [children warned textElementCount map app] in H1, H2, H3.
  assert (Hlen : length (children
                           (appendSpans atan2 viewport textItems
                              {| children := [];
                                 layerWidth := viewportWidth viewport;
                                 layerHeight := viewportHeight viewport;
                                 warned := warned container;
                                 textElementCount := 0 |}))
                 = length (filter kept textItems))
    by (rewrite <- (length_map Some), H1; apply length_map).
  split; [exact H1 | split; [| split; [exact H2 | now rewrite H3, Hlen]]].
  assert (Hall : Forall (fun it => present (transform it) = true)
                        (filter kept textItems)).
  { apply Forall_forall. intros it Hit. apply filter_In in Hit as [_ Hk].
    unfold kept in Hk. now apply andb_true_iff in Hk as [_ Hk]. }
  revert H1 Hall. generalize (filter kept textItems).
  generalize (children
                (appendSpans atan2 viewport textItems
                   {| children := [];
                      layerWidth := viewportWidth viewport;
                      layerHeight := viewportHeight viewport;
                      warned := warned container;
                      textElementCount := 0 |})).
  intros spans. induction spans as [|span spans IH]; intros [|it its] H1 Hall;
    simpl in *; try discriminate; [reflexivity |].
  injection H1 as Hs Hr. inversion Hall as [|? ? Hp Hall']; subst.
  destruct (createSpan_present viewport it Hp) as (span' & E & Ht).
  rewrite E in Hs. injection Hs as ->. rewrite Ht. f_equal.
  now apply IH.
Qed.

(** C1 (as the code has it): for a text item whose transform is
    present, the font size of its span is the square root of
    [c^2 + d^2] of the composed matrix [a, b, c, d, e, f] (viewport
    after item), and it is [>= 0] as soon as [c] and [d] are numbers. *)
Theorem fontSize_is_vertical_norm (viewport : Viewport) (textItem : TextItem)
        (m : list float) :
  transform textItem = Some m ->
  exists span,
    createSpan atan2 viewport textItem = Some span
    /\ fontSize span = verticalNorm (Util_transform (viewportTransform viewport) m)
    /\ (is_nan (at_ (Util_transform (viewportTransform viewport) m) 2) = false ->
        is_nan (at_ (Util_transform (viewportTransform viewport) m) 3) = false ->
        geZero (fontSize span) = true).
Proof.
  intros H. unfold createSpan. rewrite H.
  eexists. split; [reflexivity |]. cbn [fontSize]. split; [reflexivity |].
  intros Hc Hd. unfold geZero. now apply FloatFacts.sqrt_sum_squares_nonneg.
Qed.

End WithMath.

Lemma fontSize_is_vertical_norm_witness :
  exists span,
    createSpan exampleAtan2 identityViewport
               (item "Hello" (Some [12; 0; 0; 12; 50; 100]%float)) = Some span
    /\ fontSize span
       = verticalNorm (Util_transform (viewportTransform identityViewport)
                                      [12; 0; 0; 12; 50; 100]%float)
    /\ geZero (fontSize span) = true.
Proof.
  destruct (@fontSize_is_vertical_norm exampleAtan2 identityViewport
              (item "Hello" (Some [12; 0; 0; 12; 50; 100]%float))
              [12; 0; 0; 12; 50; 100]%float eq_refl)
    as (span & H1 & H2 & H3).
  exists span.
  split; [exact H1 | split; [exact H2 | apply H3; reflexivity]].
Defined.

(** The first scenario of the specification: font size 12 at (50, 100),
    no rotation. *)
Example hello_at_50_100 :
  createSpan exampleAtan2 identityViewport
             (item "Hello" (Some [12; 0; 0; 12; 50; 100]%float))
  = Some {| spanText := "Hello"; spanDir := "ltr";
            left := 50; top := 100; fontSize := 12;
            fontFamily := "sans-serif"; rotate := None; size := None |}.
Proof. vm_compute. reflexivity. Qed.

(** C1 as the specification words it does not hold: on a well-formed
    transform with [b = 0], [c = 3], [d = 4] the span gets the font
    size [5], the norm of [(c, d)], where [sqrt(b^2 + d^2)] is [4]. *)
Lemma fontSize_is_not_spec_formula :
  wellFormed (Some [1; 0; 3; 4; 0; 0]%float) = true
  /\ option_map fontSize
       (createSpan exampleAtan2 identityViewport
                   (item "A" (Some [1; 0; 3; 4; 0; 0]%float)))
     = Some 5%float
  /\ specFontSize (Util_transform (viewportTransform identityViewport)
                                  [1; 0; 3; 4; 0; 0]%float)
     = 4%float
  /\ PrimFloat.eqb 5 4 = false.
Proof. vm_compute. repeat split; reflexivity. Qed.

(** Six finite entries on both sides do not make the composed matrix
    one of numbers: products can overflow to infinities of opposite
    signs, whose sum is [NaN]; the font size is then [NaN], which is
    not [>= 0]. *)
Example fontSize_nan_by_overflow :
  wellFormed (Some [1; 0; 0x1p+600; (-0x1p+600); 0; 0]%float) = true
  /\ option_map (fun span => (is_nan (fontSize span), geZero (fontSize span)))
       (createSpan exampleAtan2
          {| viewportTransform := [0x1p+600; 0; 0x1p+600; 0; 0; 0]%float;
             viewportWidth := 612; viewportHeight := 792 |}
          (item "A" (Some [1; 0; 0x1p+600; (-0x1p+600); 0; 0]%float)))
     = Some (true, false).
Proof. vm_compute. split; reflexivity. Qed.

Lemma createTextLayer_spans_witness :
  map spanText
      (children (createTextLayer exampleAtan2
                   (Some [item "Hello" (Some [12; 0; 0; 12; 50; 100]%float);
                          item "lost" None;
                          item "World" (Some [12; 0; 0; 12; 90; 100]%float)])
                   emptyLayer identityViewport))
  = ["Hello"; "World"]
  /\ map str
         (warned (createTextLayer exampleAtan2
                    (Some [item "Hello" (Some [12; 0; 0; 12; 50; 100]%float);
                           item "lost" None;
                           item "World" (Some [12; 0; 0; 12; 90; 100]%float)])
                    emptyLayer identityViewport))
     = ["lost"].
Proof.
  destruct (@createTextLayer_spans exampleAtan2
              [item "Hello" (Some [12; 0; 0; 12; 50; 100]%float);
               item "lost" None;
               item "World" (Some [12; 0; 0; 12; 90; 100]%float)]
              emptyLayer identityViewport) as (_ & H1 & H2 & _).
  rewrite H1, H2. split; reflexivity.
Defined.

(** C8 as the specification words it does not hold: an item whose
    transform is present but malformed (three entries instead of six)
    is not skipped and not logged, its span is built with [NaN] as font
    size; and an item whose text is not empty but blank gets no span. *)
Lemma malformed_transform_is_not_skipped :
  wellFormed (Some [12; 0; 0]%float) = false
  /\ map (fun span => (spanText span, is_nan (fontSize span)))
         (children (createTextLayer exampleAtan2
                      (Some [item "A" (Some [12; 0; 0]%float)])
                      emptyLayer identityViewport))
     = [("A", true)]
  /\ warned (createTextLayer exampleAtan2
               (Some [item "A" (Some [12; 0; 0]%float)])
               emptyLayer identityViewport)
     = []
  /\ children (createTextLayer exampleAtan2
                 (Some [item "  " (Some [12; 0; 0; 12; 50; 100]%float)])
                 emptyLayer identityViewport)
     = [].
Proof. vm_compute. repeat split; reflexivity. Qed.

(** *** Selection tracking *)

Lemma handleSelectionChange_last (this : Selection) (selection : string) :
  lastSelectedText (handleSelectionChange this selection)
  = if truthy (trim selection) then Some (trim selection)
    else lastSelectedText this.
Proof.
  unfold handleSelectionChange, getSelectedText.
  rewrite truthy_length.
  destruct (0 <? String.length (trim selection)); reflexivity.
Qed.

Lemma handleSelectionChange_info (this : Selection) (selection : string) :
  selectionInfo (handleSelectionChange this selection)
  = (if truthy (trim selection) then DisplayBlock else DisplayNone)
  /\ selectionCount (handleSelectionChange this selection)
     = String.length (trim selection).
Proof.
  unfold handleSelectionChange, getSelectedText.
  rewrite truthy_length.
  destruct (0 <? String.length (trim selection)) eqn:E; simpl;
    [split; reflexivity |].
  apply Nat.ltb_ge in E. split; [reflexivity | lia].
Qed.

Lemma selectionChanges_last (events : list string) :
  forall this,
  lastSelectedText (selectionChanges events this)
  = lastNonEmpty events (lastSelectedText this).
Proof.
  unfold selectionChanges.
  induction events as [|selection rest IH]; intros this; simpl;
    [reflexivity |].
  now rewrite IH, handleSelectionChange_last.
Qed.

(** C7: after any run of selection changes, [lastSelectedText] is the
    most recent non-empty selected text of the run, or what it was
    before when the run has none; one change whose selection is empty
    leaves it as it is; and the visibility of the selection info and
    the character count are those of the last selection alone. *)
Theorem selection_tracking (events : list string) (this : Selection) :
  lastSelectedText (selectionChanges events this)
  = lastNonEmpty events (lastSelectedText this)
  /\ (forall selection,
        truthy (getSelectedText selection) = false ->
        lastSelectedText (handleSelectionChange this selection)
        = lastSelectedText this)
  /\ (forall earlier selection,
        events = (earlier ++ [selection])%list ->
        selectionInfo (selectionChanges events this)
        = (if truthy (getSelectedText selection)
           then DisplayBlock else DisplayNone)
        /\ selectionCount (selectionChanges events this)
           = String.length (getSelectedText selection)).
Proof.
  split; [apply selectionChanges_last | split].
  - intros selection H. rewrite handleSelectionChange_last.
    unfold getSelectedText in H. now rewrite H.
  - intros earlier selection ->. unfold selectionChanges.
    rewrite fold_left_app. cbn [fold_left].
    apply handleSelectionChange_info.
Qed.

Lemma selection_tracking_witness :
  lastSelectedText (selectionChanges ["abc"; " "; "de "; ""] constructor)
  = Some "de"
  /\ lastSelectedText (handleSelectionChange
                         (selectionChanges ["abc"] constructor) "  ")
     = Some "abc"
  /\ selectionInfo (selectionChanges ["abc"; " "; "de "; ""] constructor)
     = DisplayNone
  /\ selectionCount (selectionChanges ["abc"; " "; "de "; ""] constructor) = 0.
Proof.
  destruct (selection_tracking ["abc"; " "; "de "; ""] constructor)
    as (H1 & _ & H3).
  destruct (selection_tracking [] (selectionChanges ["abc"] constructor))
    as (_ & H2 & _).
  destruct (H3 ["abc"; " "; "de "] "" eq_refl) as (H4 & H5).
  split; [rewrite H1; reflexivity |].
  split; [rewrite (H2 "  " eq_refl); reflexivity |].
  split; [rewrite H4; reflexivity | rewrite H5; reflexivity].
Defined.

End PDFViewerFacts.

(** ** The search module: what the matches are *)

Module SearchMatchFacts.

Import JSString DOM SearchManager SearchManagerRest.
Import JSStringFacts DOMFacts SearchManagerFacts.
Local Open Scope nat_scope.

Lemma prefix_refl (s : string) : prefix s s = true.
Proof.
  induction s as [|c s IH]; simpl; [reflexivity |].
  destruct (ascii_dec c c); [exact IH | contradiction].
Qed.

(** *** Every stored match comes from [matchAt] *)

Lemma searchLayer_matches (term : string) (page : nat) (layer : TextLayer) :
  forall node ms next,
    Forall (isMatchAt term) ms ->
    Forall (isMatchAt term)
           (fst (fst (forEach (searchSpan term (toLowerCase term) page)
                              layer node (ms, next)))).
Proof.
  induction layer as [|span rest IH]; intros node ms next H; [exact H |].
  cbn [forEach]. rewrite searchSpan_eq.
  destruct (firstOccurrence _ _) as [i|] eqn:E.
  - specialize (IH (S node)
                   (ms ++ [matchAt term page node span (length ms) next i])%list
                   (S (S next))).
    destruct (forEach _ rest _ _) as [[ms' next'] rest']. cbn [fst] in *.
    apply IH, Forall_app. split; [exact H |].
    constructor; [| constructor].
    exists page, node, span, (length ms), next, i. now split.
  - specialize (IH (S node) ms next H).
    destruct (forEach _ rest _ _) as [[ms' next'] rest']. exact IH.
Qed.

Lemma searchDocument_matches (term : string) (d : Document) :
  forall page ms next,
    Forall (isMatchAt term) ms ->
    Forall (isMatchAt term)
           (fst (fst (forEach (searchLayer term (toLowerCase term))
                              d page (ms, next)))).
Proof.
  induction d as [|layer rest IH]; intros page ms next H; [exact H |].
  cbn [forEach]. unfold searchLayer at 1.
  assert (H1 := @searchLayer_matches term page layer 0 ms next H).
  destruct (forEach (searchSpan term (toLowerCase term) page) layer 0 (ms, next))
    as [[ms1 next1] layer']. cbn [fst] in H1.
  specialize (IH (S page) ms1 next1 H1).
  destruct (forEach _ rest _ _) as [[ms' next'] rest']. exact IH.
Qed.

Lemma performSearch_matches (term : string) (this : State) :
  Forall (isMatchAt term) (searchMatches (performSearch term this)).
Proof.
  unfold performSearch.
  destruct (negb _ || negb _)%bool; [constructor |].
  assert (H := @searchDocument_matches term
                 (document (setCurrentSearchIndex (-1)%Z
                              (setSearchMatches [] (clearSearchHighlights this))))
                 0 []
                 (nextId (setCurrentSearchIndex (-1)%Z
                            (setSearchMatches [] (clearSearchHighlights this))))
                 (Forall_nil (isMatchAt term))).
  cbn [searchMatches setCurrentSearchIndex setSearchMatches].
  destruct (forEach _ _ _ _) as [[ms next] d]. cbn [fst] in H.
  match goal with
  | |- context [updateSearchResults ?st] =>
      destruct (updateSearchResults_fields st) as (A1 & _); rewrite A1
  end.
  cbn [searchMatches setDocument setSearchMatches].
  destruct (0 <? length ms); [| exact H].
  match goal with
  | |- context [highlightCurrentMatch ?st] =>
      destruct (highlightCurrentMatch_fields st) as (B1 & _); rewrite B1
  end.
  exact H.
Qed.

End SearchMatchFacts.

(** ** The search module: results, context, export, keys *)

Module SearchRestFacts.

Import JSString DOM SearchManager SearchManagerRest.
Import JSStringFacts DOMFacts SearchManagerFacts SearchMatchFacts.
Local Open Scope nat_scope.

(** X2: what [performSearch] finds depends on the term and on the texts
    of the overlay nodes only, not on earlier highlights or matches: two
    states with the same node texts (both with, or both without, a
    loaded document) give the same matches; and where no overlay node
    has a CR or a U+0000 in its text, a second search for the same term
    finds what the first one found. *)
Theorem matches_depend_on_texts (term : string) (this other : State) :
  pdfDoc this = pdfDoc other ->
  overlayText (document this) = overlayText (document other) ->
  map toSpec (searchMatches (performSearch term this))
  = map toSpec (searchMatches (performSearch term other))
  /\ (parserSafeOverlay (document this) = true ->
      map toSpec (searchMatches (performSearch term (performSearch term this)))
      = map toSpec (searchMatches (performSearch term this))).
Proof.
  assert (G : forall a b : State,
             pdfDoc a = pdfDoc b ->
             overlayText (document a) = overlayText (document b) ->
             map toSpec (searchMatches (performSearch term a))
             = map toSpec (searchMatches (performSearch term b))).
  { intros a b Hd Ht.
    destruct (pdfDoc a) eqn:Ha; [destruct (truthy term) eqn:Hterm |].
    - destruct (performSearch_outcome term a Ha Hterm) as (d1 & E1 & _).
      destruct (performSearch_outcome term b (eq_sym Hd) Hterm) as (d2 & E2 & _).
      now rewrite E1, E2, Ht.
    - destruct (performSearch_early term a (or_intror Hterm)) as [-> _].
      now destruct (performSearch_early term b (or_intror Hterm)) as [-> _].
    - destruct (performSearch_early term a (or_introl Ha)) as [-> _].
      now destruct (performSearch_early term b (or_introl (eq_sym Hd))) as [-> _]. }
  intros Hd Ht. split; [now apply G |].
  intros Hs. apply G; [| now apply performSearch_text].
  unfold performSearch.
  destruct (negb _ || negb _)%bool; [reflexivity |].
  destruct (forEach _ _ _ _) as [[ms next] d].
  unfold updateSearchResults, highlightCurrentMatch, updateSearchResults.
  repeat match goal with
         | |- context [match ?x with _ => _ end] => destruct x
         end; reflexivity.
Qed.

Lemma matches_depend_on_texts_witness :
  map toSpec (searchMatches (performSearch "cat" (search "sat" exampleCats)))
  = map toSpec (searchMatches (performSearch "cat" exampleCats))
  /\ map toSpec (searchMatches
                   (performSearch "cat"
                      (performSearch "cat" (search "sat" exampleCats))))
     = map toSpec (searchMatches (performSearch "cat" (search "sat" exampleCats))).
Proof.
  destruct (@matches_depend_on_texts "cat" (search "sat" exampleCats) exampleCats
              eq_refl eq_refl) as [H1 H2].
  split; [exact H1 | apply H2; reflexivity].
Defined.

(** Where a text holds a U+0000 the second search can find another
    piece of the text than the first: the first search leaves the text
    without the U+0000. *)
Example second_search_after_NUL :
  map text
      (searchMatches
         (performSearch "cat"
            (constructor true
               (overlayOf [["Ca" ++ String NUL "t cat"]%string]) 0)))
  = ["cat"%string]
  /\ map text
         (searchMatches
            (performSearch "cat"
               (performSearch "cat"
                  (constructor true
                     (overlayOf [["Ca" ++ String NUL "t cat"]%string]) 0))))
     = ["Cat"%string].
Proof. split; reflexivity. Qed.

(** *** [getMatchContext] and the export *)

Lemma indexOf_self (s : string) : indexOf s s 0 = Some 0.
Proof.
  unfold indexOf. replace (Nat.min 0 (String.length s)) with 0 by lia.
  rewrite drop_0. destruct s; simpl; [reflexivity |].
  destruct (ascii_dec a a); [| contradiction].
  now rewrite prefix_refl.
Qed.

Lemma substring_whole (s : string) : substring s 0 (String.length s) = s.
Proof.
  rewrite substring_ordered by lia.
  replace (Nat.min 0 (String.length s)) with 0 by lia.
  replace (Nat.min (String.length s) (String.length s)) with (String.length s)
    by lia.
  rewrite drop_0, Nat.sub_0_r. now apply take_all.
Qed.

Lemma getMatchContext_own_text (m : SearchMatch) (contextLength : nat) :
  textContent (element m) = text m ->
  getMatchContext m contextLength = text m.
Proof.
  intros H. unfold getMatchContext, closestSpan. rewrite H, indexOf_self.
  cbn [Nat.sub Nat.max Nat.add].
  replace (Nat.min (String.length (text m))
                   (String.length (text m) + contextLength))
    with (String.length (text m)) by lia.
  rewrite substring_whole, Nat.ltb_irrefl. reflexivity.
Qed.

Lemma stored_context (term : string) (this : State) (m : SearchMatch)
      (contextLength : nat) :
  In m (searchMatches (performSearch term this)) ->
  getMatchContext m contextLength = text m.
Proof.
  intros Hm. apply getMatchContext_own_text.
  assert (H := performSearch_matches term this).
  rewrite Forall_forall in H.
  destruct (H m Hm) as (page & node & span & index & next & i & _ & ->).
  reflexivity.
Qed.

(** X3: for every match [performSearch] stores, [getMatchContext]
    returns the matched text itself, whatever the context length: the
    span it looks the text up in is the stored highlight element, which
    holds the match and nothing around it. *)
Theorem context_is_the_match (term : string) (this : State) (m : SearchMatch)
        (contextLength : nat) :
  In m (searchMatches (performSearch term this)) ->
  getMatchContext m contextLength = text m
  /\ closestSpan (element m) = Some (element m)
  /\ textContent (element m) = text m.
Proof.
  intros Hm. split; [now apply (stored_context term this) |].
  split; [reflexivity |].
  assert (H := performSearch_matches term this).
  rewrite Forall_forall in H.
  destruct (H m Hm) as (page & node & span & index & next & i & _ & ->).
  reflexivity.
Qed.

Lemma context_is_the_match_witness :
  getMatchContext
    {| element := {| eid := 2; className := search_highlight;
                     dataSearchMatch := 1; textContent := "cat" |};
       pageIndex := 2; spanIndex := 2; text := "cat" |} 50
  = "cat".
Proof.
  apply (@context_is_the_match "cat" exampleCats
           {| element := {| eid := 2; className := search_highlight;
                            dataSearchMatch := 1; textContent := "cat" |};
              pageIndex := 2; spanIndex := 2; text := "cat" |} 50).
  vm_compute. right. left. reflexivity.
Defined.

Lemma mapIndexed_map {A B C : Type} (f : A -> nat -> B) (g : B -> C)
      (h : A -> C) (l : list A) :
  (forall x i, g (f x i) = h x) ->
  forall i, map g (mapIndexed f l i) = map h l.
Proof.
  intros H. induction l as [|x l IH]; intros i; simpl;
    [reflexivity | now rewrite H, IH].
Qed.

Lemma mapIndexed_index {A B : Type} (f : A -> nat -> B) (g : B -> nat)
      (l : list A) :
  (forall x i, g (f x i) = i + 1) ->
  forall i, map g (mapIndexed f l i) = seq (i + 1) (length l).
Proof.
  intros H. induction l as [|x l IH]; intros i; simpl; [reflexivity |].
  rewrite H, IH. do 2 f_equal.
Qed.

Lemma mapIndexed_ext_in {A B : Type} (f g : A -> nat -> B) (l : list A) :
  (forall x i, In x l -> f x i = g x i) ->
  forall i, mapIndexed f l i = mapIndexed g l i.
Proof.
  induction l as [|x l IH]; intros H i; simpl; [reflexivity |].
  rewrite H by now left. f_equal. apply IH. intros y j Hy. apply H. now right.
Qed.

(** X4: [exportSearchResults] after [performSearch]: without matches it
    only alerts; otherwise it exports one entry per match, in the order
    of the match list, numbered 1, 2, ..., with the match's page and
    text, and with the matched text again as its context. *)
Theorem export_after_search (term : string) (this : State) :
  match exportSearchResults (performSearch term this) with
  | AlertNoResults => searchMatches (performSearch term this) = []
  | Download data =>
      searchMatches (performSearch term this) <> []
      /\ exportedTotal data = length (searchMatches (performSearch term this))
      /\ map index (results data)
         = seq 1 (length (searchMatches (performSearch term this)))
      /\ map page (results data)
         = map pageIndex (searchMatches (performSearch term this))
      /\ map resultText (results data)
         = map text (searchMatches (performSearch term this))
      /\ map context (results data)
         = map text (searchMatches (performSearch term this))
  end.
Proof.
  unfold exportSearchResults.
  destruct (searchMatches (performSearch term this)) as [|m ms] eqn:E;
    [reflexivity |].
  cbn [length Nat.eqb results exportedTotal].
  split; [discriminate | split; [reflexivity |]].
  rewrite <- E.
  rewrite (@mapIndexed_ext_in _ _
             (fun m0 i => {| index := i + 1; page := pageIndex m0;
                             resultText := text m0;
                             context := getMatchContext m0 50 |})
             (fun m0 i => {| index := i + 1; page := pageIndex m0;
                             resultText := text m0; context := text m0 |}))
    by (intros x i Hx; f_equal; now apply (stored_context term this)).
  repeat split.
  - now rewrite (mapIndexed_index _ index), E.
  - now apply mapIndexed_map.
  - now apply mapIndexed_map.
  - now apply mapIndexed_map.
Qed.

(** *** [getSearchStats] *)

Lemma newSet_from (xs : list nat) :
  forall set,
    NoDup set ->
    NoDup (fold_left (fun set x => if existsb (Nat.eqb x) set then set
                                   else set ++ [x])%list xs set)
    /\ forall p,
        In p (fold_left (fun set x => if existsb (Nat.eqb x) set then set
                                      else set ++ [x])%list xs set)
        <-> In p set \/ In p xs.
Proof.
  induction xs as [|x xs IH]; intros set H; simpl.
  - split; [exact H | intros p; tauto].
  - destruct (existsb (Nat.eqb x) set) eqn:E.
    + destruct (IH set H) as [N I]. split; [exact N |].
      intros p. rewrite I.
      apply existsb_exists in E as (y & Hy & Exy). apply Nat.eqb_eq in Exy.
      subst y. split; [tauto |]. intros [Hp | [<- | Hp]]; auto.
    + assert (Hx : ~ In x set).
      { intros Hin. apply not_true_iff_false in E. apply E.
        apply existsb_exists. exists x. split; [exact Hin | apply Nat.eqb_refl]. }
      destruct (IH (set ++ [x])%list) as [N I].
      { apply NoDup_app; [exact H | constructor; [intros [] | constructor] |].
        intros a Ha [<- | []]. contradiction. }
      split; [exact N |].
      intros p. rewrite I, in_app_iff. simpl. tauto.
Qed.

Lemma specScanNodes_page (term : string) (page : nat) (nodes : list string) :
  forall node index,
  Forall (fun r => pageNumber r = page) (specScanNodes term page nodes node index).
Proof.
  intros node index.
  destruct (specScanNodes_owner term page nodes node index) as [F _].
  eapply Forall_impl; [| exact F]. now intros r [H _].
Qed.

Lemma specScanPages_pages (term : string) (pages : list (list string)) :
  forall page index,
  Forall (fun r => page <= pageNumber r < page + length pages)
         (specScanPages term pages page index).
Proof.
  induction pages as [|nodes pages IH]; intros page index; simpl;
    [constructor |].
  apply Forall_app. split.
  - eapply Forall_impl; [| apply specScanNodes_page].
    intros r Hr. simpl in Hr. lia.
  - eapply Forall_impl; [| apply IH]. intros r Hr. simpl in Hr. lia.
Qed.

Lemma performSearch_pages (term : string) (this : State) (m : SearchMatch) :
  In m (searchMatches (performSearch term this)) ->
  1 <= pageIndex m <= length (document this).
Proof.
  intros Hm.
  destruct (pdfDoc this) eqn:Hd; [destruct (truthy term) eqn:Ht |].
  - destruct (performSearch_outcome term this Hd Ht) as (d' & E & _).
    assert (Hin : In (toSpec m) (specSearch term (overlayText (document this))))
      by (rewrite <- E; now apply in_map).
    assert (F := specScanPages_pages term (overlayText (document this)) 1 0).
    rewrite Forall_forall in F. specialize (F _ Hin).
    unfold overlayText in F. rewrite length_map in F.
    cbn [toSpec pageNumber] in F. destruct F as [F1 F2].
    split; [exact F1 | apply Nat.lt_succ_r; exact F2].
  - destruct (performSearch_early term this (or_intror Ht)) as [E _].
    rewrite E in Hm. destruct Hm.
  - destruct (performSearch_early term this (or_introl Hd)) as [E _].
    rewrite E in Hm. destruct Hm.
Qed.

(** X5: the statistics after [performSearch]: the total is the number
    of matches, the current match is 1 when there is a match and 0
    otherwise, and the pages with matches are listed once each, are
    exactly the pages of the matches, and are pages of the document. *)
Theorem stats_after_search (term : string) (this : State) :
  totalMatches (getSearchStats (performSearch term this))
  = length (searchMatches (performSearch term this))
  /\ currentMatch (getSearchStats (performSearch term this))
     = match searchMatches (performSearch term this) with
       | [] => 0%Z
       | _ :: _ => 1%Z
       end
  /\ NoDup (pagesWithMatches (getSearchStats (performSearch term this)))
  /\ forall p,
      In p (pagesWithMatches (getSearchStats (performSearch term this)))
      <-> (exists m, In m (searchMatches (performSearch term this))
                     /\ pageIndex m = p)
          /\ 1 <= p <= length (document this).
Proof.
  unfold getSearchStats. cbn [totalMatches currentMatch pagesWithMatches].
  destruct (newSet_from (map pageIndex (searchMatches (performSearch term this)))
                        (NoDup_nil nat)) as [N I].
  split; [reflexivity | split; [| split; [exact N |]]].
  - rewrite performSearch_index.
    destruct (searchMatches (performSearch term this)); reflexivity.
  - intros p. unfold newSet. rewrite I, in_map_iff. split.
    + intros [[] | (m & E & Hm)]. split; [now exists m |].
      subst p. now apply (performSearch_pages term this).
    + intros [(m & Hm & E) _]. right. now exists m.
Qed.

(** *** [clearSearch] twice, and the keys of the search box *)

(** X6: [clearSearch] is idempotent: a second [clearSearch] changes
    nothing at all. *)
Theorem clearSearch_idempotent (this : State) :
  clearSearch (clearSearch this) = clearSearch this.
Proof.
  assert (H : document (clearSearchHighlights (setSearchInput "" (clearSearch this)))
              = document (clearSearch this)).
  { apply clear_plain. rewrite clearSearch_document.
    apply (clear_elements (setSearchInput "" this)). }
  unfold clearSearch at 1.
  unfold clearSearchHighlights at 1. unfold clearSearchHighlights at 1 in H.
  cbn [document setDocument] in H.
  cbn [document setSearchInput nextId] in *.
  rewrite H. reflexivity.
Qed.

Lemma previous_after_next (this : State) :
  indexInvariant this -> searchMatches this <> [] ->
  currentSearchIndex (goToPreviousMatch (goToNextMatch this))
  = currentSearchIndex this
  /\ searchMatches (goToPreviousMatch (goToNextMatch this)) = searchMatches this.
Proof.
  intros [_ Hi] Hne. specialize (Hi Hne).
  destruct (goToNextMatch_fields this Hne) as (A1 & A2).
  assert (Hne' : searchMatches (goToNextMatch this) <> []) by now rewrite A1.
  destruct (goToPreviousMatch_fields (goToNextMatch this) Hne') as (B1 & B2).
  rewrite B1, B2, A1, A2. split; [| reflexivity].
  set (n := Z.of_nat (length (searchMatches this))) in *.
  set (i := currentSearchIndex this) in *.
  rewrite Z.rem_mod_nonneg by lia.
  destruct (Z.eq_dec (i + 1) n) as [E | E].
  - rewrite E, Z.mod_same by lia. simpl. lia.
  - rewrite Z.mod_small by lia.
    destruct (i + 1 <=? 0)%Z eqn:C; [apply Z.leb_le in C; lia | lia].
Qed.

Lemma next_after_previous (this : State) :
  indexInvariant this -> searchMatches this <> [] ->
  currentSearchIndex (goToNextMatch (goToPreviousMatch this))
  = currentSearchIndex this
  /\ searchMatches (goToNextMatch (goToPreviousMatch this)) = searchMatches this.
Proof.
  intros [_ Hi] Hne. specialize (Hi Hne).
  destruct (goToPreviousMatch_fields this Hne) as (A1 & A2).
  assert (Hne' : searchMatches (goToPreviousMatch this) <> []) by now rewrite A1.
  destruct (goToNextMatch_fields (goToPreviousMatch this) Hne') as (B1 & B2).
  rewrite B1, B2, A1, A2. split; [| reflexivity].
  set (n := Z.of_nat (length (searchMatches this))) in *.
  set (i := currentSearchIndex this) in *.
  destruct (i <=? 0)%Z eqn:C; [apply Z.leb_le in C | apply Z.leb_gt in C].
  - replace (n - 1 + 1)%Z with n by lia.
    rewrite Z.rem_mod_nonneg, Z.mod_same by lia. lia.
  - replace (i - 1 + 1)%Z with i by lia.
    rewrite Z.rem_mod_nonneg, Z.mod_small by lia. reflexivity.
Qed.

(** X7: in the search box, with at least one match and the index on a
    match, Enter followed by Shift+Enter, and Shift+Enter followed by
    Enter, bring the current index back to where it was and keep the
    match list; Escape is [clearSearch]; any other key changes
    nothing. *)
Theorem search_box_keys (this : State) (event : KeyboardEvent) :
  indexInvariant this -> searchMatches this <> [] ->
  (currentSearchIndex (handleSearchKeydown shiftEnter (handleSearchKeydown enter this))
   = currentSearchIndex this
   /\ searchMatches (handleSearchKeydown shiftEnter (handleSearchKeydown enter this))
      = searchMatches this)
  /\ (currentSearchIndex (handleSearchKeydown enter (handleSearchKeydown shiftEnter this))
      = currentSearchIndex this
      /\ searchMatches (handleSearchKeydown enter (handleSearchKeydown shiftEnter this))
         = searchMatches this)
  /\ handleSearchKeydown escape this = clearSearch this
  /\ (SearchManagerRest.key event <> "Enter"%string ->
      SearchManagerRest.key event <> "Escape"%string ->
      handleSearchKeydown event this = this).
Proof.
  intros Hi Hne.
  split; [exact (previous_after_next Hi Hne) |].
  split; [exact (next_after_previous Hi Hne) |].
  split; [reflexivity |].
  intros H1 H2. unfold handleSearchKeydown.
  apply String.eqb_neq in H1, H2. now rewrite H1, H2.
Qed.

Lemma search_box_keys_witness :
  (currentSearchIndex
     (handleSearchKeydown shiftEnter
        (handleSearchKeydown enter (search "cat" exampleCats)))
   = currentSearchIndex (search "cat" exampleCats)
   /\ searchMatches
        (handleSearchKeydown shiftEnter
           (handleSearchKeydown enter (search "cat" exampleCats)))
      = searchMatches (search "cat" exampleCats))
  /\ handleSearchKeydown {| SearchManagerRest.key := "a"; shiftKey := false |}
                         (search "cat" exampleCats)
     = search "cat" exampleCats.
Proof.
  destruct (@search_box_keys (search "cat" exampleCats)
              {| SearchManagerRest.key := "a"; shiftKey := false |})
    as (H1 & _ & _ & H4).
  - apply indexInvariant_of. reflexivity.
  - discriminate.
  - split; [exact H1 | apply H4; discriminate].
Defined.

(** *** The label and the buttons *)

Lemma updateSearchResults_agrees (this : State) :
  displayAgrees (updateSearchResults this).
Proof.
  unfold displayAgrees, updateSearchResults.
  destruct (searchMatches this) as [|m ms] eqn:E; simpl; rewrite E;
    repeat split; reflexivity.
Qed.

Lemma highlightCurrentMatch_agrees (this : State) :
  displayAgrees (highlightCurrentMatch this).
Proof. unfold highlightCurrentMatch. apply updateSearchResults_agrees. Qed.

Lemma scrollToCurrentMatch_agrees (this : State) :
  displayAgrees this -> displayAgrees (scrollToCurrentMatch this).
Proof.
  unfold scrollToCurrentMatch.
  destruct (_ && _)%bool; [| auto].
  destruct (nth_error _ _); [| auto].
  destruct (querySelector _ _); auto.
Qed.

Lemma performSearch_agrees (term : string) (this : State) :
  pdfDoc this = true -> truthy term = true ->
  displayAgrees (performSearch term this).
Proof.
  intros Hd Ht. unfold performSearch.
  replace (negb _ || negb (truthy term))%bool with false
    by (cbn [pdfDoc setCurrentSearchIndex setSearchMatches
               clearSearchHighlights setDocument];
        now rewrite Hd, Ht).
  destruct (forEach _ _ _ _) as [[ms next] d].
  apply updateSearchResults_agrees.
Qed.

Lemma search_agrees (term : string) (this : State) :
  pdfDoc this = true ->
  String.length (trim term) <> 1 ->
  displayAgrees (search term this).
Proof.
  intros Hd Hl. unfold search, handleSearch. cbn [searchInput setSearchInput].
  destruct (String.length (trim term) =? 0) eqn:E0;
    [apply updateSearchResults_agrees |].
  apply Nat.eqb_neq in E0.
  replace (String.length (trim term) <? 2) with false
    by (symmetry; apply Nat.ltb_ge; lia).
  apply performSearch_agrees; [exact Hd |].
  rewrite truthy_length. apply Nat.ltb_lt. lia.
Qed.

(** X8: the result label and the two buttons are in step with the
    match list when the label reads [index + 1] of [count] and the
    buttons are disabled exactly when there is no match. [clear] brings
    them in step from any state; with a document loaded so does a
    search whose trimmed term is not a single character; and with a
    document loaded every operation of the module keeps them in
    step. *)
Theorem display_follows_matches (this : State) (op : Op) (term : string) :
  displayAgrees (clear this)
  /\ (pdfDoc this = true -> String.length (trim term) <> 1 ->
      displayAgrees (search term this))
  /\ (pdfDoc this = true -> displayAgrees this -> displayAgrees (step this op)).
Proof.
  split; [apply updateSearchResults_agrees |].
  split; [intros Hd Hl; now apply search_agrees |].
  intros Hd Ha.
  destruct op as [term'| | |]; cbn [step].
  - destruct (Nat.eq_dec (String.length (trim term')) 1) as [E | E];
      [| now apply search_agrees].
    unfold search, handleSearch. cbn [searchInput setSearchInput].
    rewrite E. exact Ha.
  - unfold nextMatch, goToNextMatch.
    destruct (length (searchMatches this) =? 0); [exact Ha |].
    apply scrollToCurrentMatch_agrees, highlightCurrentMatch_agrees.
  - unfold previousMatch, goToPreviousMatch.
    destruct (length (searchMatches this) =? 0); [exact Ha |].
    apply scrollToCurrentMatch_agrees, highlightCurrentMatch_agrees.
  - apply updateSearchResults_agrees.
Qed.

Lemma display_follows_matches_witness :
  displayAgrees (clear (constructor true (overlayOf [["Hello"; "World"]]) 0))
  /\ displayAgrees (search "cat" exampleCats)
  /\ displayAgrees (step (search "cat" exampleCats) OpNext).
Proof.
  destruct (@display_follows_matches
              (constructor true (overlayOf [["Hello"; "World"]]) 0)
              OpNext "cat") as (H1 & _).
  destruct (@display_follows_matches exampleCats OpNext "cat") as (_ & H2 & _).
  destruct (@display_follows_matches (search "cat" exampleCats) OpNext "cat")
    as (_ & H3 & H4).
  split; [exact H1 |].
  split; [apply H2; [reflexivity | discriminate] |].
  apply H4; [reflexivity |].
  apply H2; [reflexivity | discriminate].
Defined.

(** *** The current mark *)

Lemma updateFirstOf_app (p : Element -> bool) (f : Element -> Element)
      (a b : list Element) :
  updateFirstOf p f (a ++ b)
  = if existsb p a then (updateFirstOf p f a ++ b)%list
    else (a ++ updateFirstOf p f b)%list.
Proof.
  induction a as [|e a IH]; simpl; [reflexivity |].
  destruct (p e); simpl; [reflexivity |].
  rewrite IH. destruct (existsb p a); reflexivity.
Qed.

Lemma updateFirstInSpan_elements (p : Element -> bool) (f : Element -> Element)
      (span : Span) :
  spanElements (fst (updateFirstInSpan p f span))
  = updateFirstOf p f (spanElements span)
  /\ snd (updateFirstInSpan p f span) = existsb p (spanElements span).
Proof.
  induction span as [|[s|e] span [IH1 IH2]]; simpl.
  - split; reflexivity.
  - destruct (updateFirstInSpan p f span) as [rest' found]. simpl in *.
    split; assumption.
  - destruct (p e); [split; reflexivity |].
    destruct (updateFirstInSpan p f span) as [rest' found]. simpl in *.
    split; [now rewrite IH1 | assumption].
Qed.

Lemma updateFirstInLayer_elements (p : Element -> bool) (f : Element -> Element)
      (l : TextLayer) :
  layerElements (fst (updateFirstInLayer p f l))
  = updateFirstOf p f (layerElements l)
  /\ snd (updateFirstInLayer p f l) = existsb p (layerElements l).
Proof.
  unfold layerElements.
  induction l as [|span l [IH1 IH2]]; simpl; [split; reflexivity |].
  destruct (updateFirstInSpan_elements p f span) as [S1 S2].
  destruct (updateFirstInSpan p f span) as [span' found]. simpl in S1, S2.
  rewrite updateFirstOf_app, existsb_app, <- S2.
  destruct found; simpl; [now rewrite S1 |].
  destruct (updateFirstInLayer p f l) as [rest' found']. simpl in *.
  split; [now rewrite IH1 | assumption].
Qed.

Lemma updateFirst_elements (p : Element -> bool) (f : Element -> Element)
      (d : Document) :
  documentElements (updateFirst p f d)
  = updateFirstOf p f (documentElements d).
Proof.
  unfold documentElements.
  induction d as [|l d IH]; simpl; [reflexivity |].
  destruct (updateFirstInLayer_elements p f l) as [L1 L2].
  destruct (updateFirstInLayer p f l) as [l' found]. simpl in L1, L2.
  rewrite updateFirstOf_app, <- L2.
  destruct found; simpl; [now rewrite L1 | now rewrite IH].
Qed.

Lemma updateFirstOf_absent (p : Element -> bool) (f : Element -> Element)
      (es : list Element) :
  find p es = None -> updateFirstOf p f es = es.
Proof.
  induction es as [|e es IH]; simpl; [reflexivity |].
  destruct (p e); [discriminate |]. intros H. now rewrite IH.
Qed.

Lemma current_after_mark (p : Element -> bool) (es : list Element) :
  filter isCurrent es = [] ->
  filter isCurrent (updateFirstOf p (setClass search_current) es)
  = match find p es with
    | Some e => [setClass search_current e]
    | None => []
    end.
Proof.
  induction es as [|e es IH]; simpl; [reflexivity |].
  destruct (isCurrent e) eqn:C; [discriminate |]. intros H.
  destruct (p e); simpl; [now rewrite H |].
  rewrite C. now apply IH.
Qed.

Lemma current_after_unmark (es : list Element) :
  filter isCurrent
         (map (fun el => if isCurrent el then setClass search_highlight el else el)
              es) = [].
Proof.
  induction es as [|e es IH]; simpl; [reflexivity |].
  destruct (isCurrent e) eqn:C; simpl; [exact IH | now rewrite C].
Qed.

(** The elements that are current after [highlightCurrentMatch]. *)
Lemma highlightCurrentMatch_current (this : State) :
  filter isCurrent (documentElements (document (highlightCurrentMatch this)))
  = if ((0 <=? currentSearchIndex this)
        && (currentSearchIndex this <? Z.of_nat (length (searchMatches this))))%Z
    then match find (hasSearchMatch (currentSearchIndex this))
                    (map (fun el => if isCurrent el
                                    then setClass search_highlight el else el)
                         (documentElements (document this))) with
         | Some e => [setClass search_current e]
         | None => []
         end
    else [].
Proof.
  unfold highlightCurrentMatch.
  match goal with
  | |- context [updateSearchResults ?st] =>
      destruct (updateSearchResults_fields st) as (_ & _ & H & _); rewrite H
  end.
  cbn [document setDocument].
  destruct (_ && _)%bool;
    [| rewrite mapElements_elements; apply current_after_unmark].
  unfold querySelector. rewrite mapElements_elements.
  destruct (find _ _) as [e|] eqn:E.
  - rewrite updateFirst_elements, mapElements_elements.
    rewrite current_after_mark by apply current_after_unmark.
    now rewrite E.
  - rewrite mapElements_elements. apply current_after_unmark.
Qed.

(** X9: whatever the state, after [highlightCurrentMatch] at most one
    element of the document carries the class [search-current], and an
    element that carries it has the current index as its
    [data-search-match], with that index inside the match list. *)
Theorem one_current_mark (this : State) :
  currentCount (document (highlightCurrentMatch this)) <= 1
  /\ forall e,
      In e (documentElements (document (highlightCurrentMatch this))) ->
      isCurrent e = true ->
      Z.of_nat (dataSearchMatch e) = currentSearchIndex this
      /\ (0 <= currentSearchIndex this
          < Z.of_nat (length (searchMatches this)))%Z.
Proof.
  assert (H := highlightCurrentMatch_current this).
  split.
  - unfold currentCount. rewrite H.
    destruct (_ && _)%bool; [| simpl; lia].
    destruct (find _ _); simpl; lia.
  - intros e He Hc.
    assert (Hin : In e (filter isCurrent
                          (documentElements (document (highlightCurrentMatch this)))))
      by (apply filter_In; now split).
    rewrite H in Hin.
    destruct (_ && _)%bool eqn:R; [| destruct Hin].
    destruct (find _ _) as [e0|] eqn:F; [| destruct Hin].
    destruct Hin as [<- | []].
    apply find_some in F as [_ F]. unfold hasSearchMatch in F.
    apply Z.eqb_eq in F. apply andb_true_iff in R as [R1 R2].
    apply Z.leb_le in R1. apply Z.ltb_lt in R2.
    split; [exact F | lia].
Qed.

Lemma one_current_mark_witness :
  Z.of_nat 1 = currentSearchIndex (nextMatch (search "cat" exampleCats))
  /\ (0 <= currentSearchIndex (nextMatch (search "cat" exampleCats))
      < Z.of_nat (length (searchMatches (nextMatch (search "cat" exampleCats)))))%Z.
Proof.
  destruct (one_current_mark (nextMatch (search "cat" exampleCats))) as [_ H].
  apply (H {| eid := 3; className := search_current;
              dataSearchMatch := 1; textContent := "cat" |}).
  - vm_compute. right. left. reflexivity.
  - reflexivity.
Defined.

(** *** Moving between the matches of a search *)

Lemma performSearch_attrsInOrder (term : string) (this : State) :
  attrsInOrder (performSearch term this).
Proof.
  unfold attrsInOrder.
  destruct (pdfDoc this) eqn:Hd; [destruct (truthy term) eqn:Ht |].
  - destruct (performSearch_outcome term this Hd Ht)
      as (d' & Hs & _ & _ & He & _ & U).
    apply upToClass_key, map_key_match in U.
    rewrite U, He, map_map. cbn [live dataSearchMatch].
    assert (E := f_equal (map matchIndex) Hs). rewrite map_map in E.
    cbn [toSpec matchIndex] in E. rewrite E.
    unfold specSearch. rewrite specScanPages_index.
    fold (specSearch term (overlayText (document this))).
    now rewrite <- Hs, length_map.
  - destruct (performSearch_early term this (or_intror Ht)) as [-> ->].
    now rewrite clear_elements.
  - destruct (performSearch_early term this (or_introl Hd)) as [-> ->].
    now rewrite clear_elements.
Qed.

Lemma highlightCurrentMatch_elements (this : State) :
  documentElements (document (highlightCurrentMatch this))
  = let es := map (fun el => if isCurrent el
                             then setClass search_highlight el else el)
                  (documentElements (document this)) in
    if ((0 <=? currentSearchIndex this)
        && (currentSearchIndex this <? Z.of_nat (length (searchMatches this))))%Z
    then match find (hasSearchMatch (currentSearchIndex this)) es with
         | Some _ => updateFirstOf (hasSearchMatch (currentSearchIndex this))
                                   (setClass search_current) es
         | None => es
         end
    else es.
Proof.
  unfold highlightCurrentMatch.
  match goal with
  | |- context [updateSearchResults ?st] =>
      destruct (updateSearchResults_fields st) as (_ & _ & H & _); rewrite H
  end.
  cbn [document setDocument]. cbv zeta.
  destruct (_ && _)%bool; [| apply mapElements_elements].
  unfold querySelector. rewrite mapElements_elements.
  destruct (find _ _) as [e|] eqn:E.
  - now rewrite updateFirst_elements, mapElements_elements.
  - apply mapElements_elements.
Qed.

Lemma highlightCurrentMatch_effects (this : State) :
  effects (highlightCurrentMatch this) = effects this.
Proof.
  unfold highlightCurrentMatch, updateSearchResults.
  cbn [searchMatches setDocument].
  destruct (searchMatches this); reflexivity.
Qed.

Lemma highlightCurrentMatch_attrs (this : State) :
  map dataSearchMatch (documentElements (document (highlightCurrentMatch this)))
  = map dataSearchMatch (documentElements (document this)).
Proof.
  apply map_key_match, upToClass_key, highlightCurrentMatch_upToClass.
Qed.

Lemma find_attr (es : list Element) (n k : nat) :
  map dataSearchMatch es = seq 0 n -> k < n ->
  exists e, find (hasSearchMatch (Z.of_nat k)) es = Some e.
Proof.
  intros H Hk.
  destruct (find (hasSearchMatch (Z.of_nat k)) es) as [e|] eqn:F;
    [now exists e | exfalso].
  assert (Hin : In k (map dataSearchMatch es))
    by (rewrite H; apply in_seq; lia).
  apply in_map_iff in Hin as (e & E & He).
  assert (C := find_none _ _ F e He). unfold hasSearchMatch in C.
  apply Z.eqb_neq in C. lia.
Qed.

Lemma find_updateFirstOf (p : Element -> bool) (f : Element -> Element)
      (es : list Element) (e : Element) :
  (forall x, p (f x) = p x) ->
  find p es = Some e -> find p (updateFirstOf p f es) = Some (f e).
Proof.
  intros Hp. induction es as [|x es IH]; simpl; [discriminate |].
  destruct (p x) eqn:E.
  - intros [= ->]. simpl. now rewrite Hp, E.
  - intros H. simpl. rewrite E. now apply IH.
Qed.

(** Setting the index to [j], then [highlightCurrentMatch], then
    [scrollToCurrentMatch]: the common part of next and previous. *)
Lemma move_arrives (this : State) (j : Z) :
  attrsInOrder this ->
  (0 <= j < Z.of_nat (length (searchMatches this)))%Z ->
  arrives this
          (scrollToCurrentMatch
             (highlightCurrentMatch (setCurrentSearchIndex j this)))
  /\ attrsInOrder
       (scrollToCurrentMatch
          (highlightCurrentMatch (setCurrentSearchIndex j this))).
Proof.
  intros Ha Hj.
  set (st1 := setCurrentSearchIndex j this).
  set (st2 := highlightCurrentMatch st1).
  destruct (highlightCurrentMatch_fields st1) as (M2 & I2).
  change (searchMatches st1) with (searchMatches this) in M2.
  change (currentSearchIndex st1) with j in I2.
  fold st2 in M2, I2.
  assert (R : ((0 <=? j) && (j <? Z.of_nat (length (searchMatches this))))%Z = true)
    by (apply andb_true_iff; split; [apply Z.leb_le | apply Z.ltb_lt]; lia).
  set (es := map (fun el => if isCurrent el
                            then setClass search_highlight el else el)
                 (documentElements (document this))).
  assert (Hes : map dataSearchMatch es = seq 0 (length (searchMatches this))).
  { unfold es. rewrite map_map. rewrite <- Ha. apply map_ext.
    intros x. now destruct (isCurrent x). }
  destruct (@find_attr es (length (searchMatches this)) (Z.to_nat j) Hes)
    as [e0 F]; [lia |].
  rewrite Z2Nat.id in F by lia.
  assert (E2 : documentElements (document st2)
               = updateFirstOf (hasSearchMatch j) (setClass search_current) es).
  { unfold st2. rewrite highlightCurrentMatch_elements. cbv zeta.
    change (currentSearchIndex st1) with j.
    change (searchMatches st1) with (searchMatches this).
    change (document st1) with (document this).
    fold es. now rewrite R, F. }
  assert (C2 : filter isCurrent (documentElements (document st2))
               = [setClass search_current e0]).
  { rewrite E2, current_after_mark by apply current_after_unmark.
    now rewrite F. }
  assert (Q2 : querySelector (hasSearchMatch j) (document st2)
               = Some (setClass search_current e0)).
  { unfold querySelector. rewrite E2.
    apply find_updateFirstOf; [reflexivity | exact F]. }
  destruct (nth_error (searchMatches this) (Z.to_nat j)) as [m|] eqn:N.
  2:{ apply nth_error_None in N. lia. }
  assert (S3 : scrollToCurrentMatch st2
               = addEffects [GoToPage (pageIndex m);
                             ScrollIntoView (setClass search_current e0)] st2).
  { unfold scrollToCurrentMatch. now rewrite I2, M2, R, N, Q2. }
  rewrite S3. split.
  - exists m, (setClass search_current e0).
    cbn [searchMatches currentSearchIndex document effects addEffects].
    rewrite M2, I2, N, C2.
    repeat split.
    + apply find_some in F as [_ F]. unfold hasSearchMatch in F.
      apply Z.eqb_eq in F. exact F.
    + unfold st2. now rewrite highlightCurrentMatch_effects.
  - unfold attrsInOrder.
    cbn [searchMatches document addEffects]. rewrite M2.
    unfold st2. rewrite highlightCurrentMatch_attrs. exact Ha.
Qed.

(** X10: after [performSearch] the highlight elements carry the match
    indices 0, 1, 2, ... in document order; and in every such state
    with at least one match and a valid index, [nextMatch] and
    [previousMatch] each arrive at a match: the new index points at a
    stored match, exactly one element is marked current and it is the
    one that carries the new index, [goToPage] is asked for that
    match's page and that element is then scrolled into view; the
    elements keep carrying the indices in order. *)
Theorem moves_arrive (term : string) (this : State) :
  attrsInOrder (performSearch term this)
  /\ (attrsInOrder this -> indexInvariant this -> searchMatches this <> [] ->
      arrives this (nextMatch this) /\ attrsInOrder (nextMatch this)
      /\ arrives this (previousMatch this) /\ attrsInOrder (previousMatch this)).
Proof.
  split; [apply performSearch_attrsInOrder |].
  intros Ha [_ Hi] Hne. specialize (Hi Hne).
  assert (Hn : (0 < Z.of_nat (length (searchMatches this)))%Z) by lia.
  assert (E0 : (length (searchMatches this) =? 0) = false)
    by (apply Nat.eqb_neq; lia).
  unfold nextMatch, previousMatch, goToNextMatch, goToPreviousMatch.
  rewrite E0.
  assert (A : forall j, (0 <= j < Z.of_nat (length (searchMatches this)))%Z ->
              arrives this (scrollToCurrentMatch
                              (highlightCurrentMatch (setCurrentSearchIndex j this)))
              /\ attrsInOrder (scrollToCurrentMatch
                                 (highlightCurrentMatch
                                    (setCurrentSearchIndex j this))))
    by (intros j Hj; now apply move_arrives).
  destruct (A (Z.rem (currentSearchIndex this + 1)
                     (Z.of_nat (length (searchMatches this))))) as [N1 N2].
  { rewrite Z.rem_mod_nonneg by lia. apply Z.mod_pos_bound. lia. }
  destruct (A (if (currentSearchIndex this <=? 0)%Z
               then Z.of_nat (length (searchMatches this)) - 1
               else currentSearchIndex this - 1)%Z) as [P1 P2].
  { destruct (currentSearchIndex this <=? 0)%Z eqn:C;
      [apply Z.leb_le in C | apply Z.leb_gt in C]; lia. }
  repeat split; assumption.
Qed.

Lemma moves_arrive_witness :
  arrives (search "cat" exampleCats) (nextMatch (search "cat" exampleCats))
  /\ attrsInOrder (nextMatch (search "cat" exampleCats))
  /\ arrives (search "cat" exampleCats) (previousMatch (search "cat" exampleCats))
  /\ attrsInOrder (previousMatch (search "cat" exampleCats)).
Proof.
  destruct (moves_arrive "cat" (search "cat" exampleCats)) as [_ H].
  apply H.
  - reflexivity.
  - apply indexInvariant_of. reflexivity.
  - discriminate.
Defined.

End SearchRestFacts.

(** ** The stored elements and the elements of the document *)

Module SearchLocateFacts.

Import JSString DOM SearchManager SearchManagerRest.
Import JSStringFacts DOMFacts SearchManagerFacts SearchRestFacts.
Local Open Scope nat_scope.

(** C10: after [performSearch], no element of the document is one of
    the elements stored in the match list; for every match index the
    document holds exactly one element whose [data-search-match] is
    that index; and for every match index [j], whatever elements are
    stored in the match list, [highlightCurrentMatch] with the index at
    [j] marks as current exactly one element, the element of the
    document that carries [j], which is not the stored element of match
    [j], and [scrollToCurrentMatch] then asks for the page of match [j]
    and for that element of the document to be scrolled into view. *)
Theorem stored_elements_detached (term : string) (this : State) :
  (forall m, In m (searchMatches (performSearch term this)) ->
             ~ In (eid (element m))
                  (map eid (documentElements (document (performSearch term this)))))
  /\ (forall i, i < length (searchMatches (performSearch term this)) ->
                length (filter (hasSearchMatch (Z.of_nat i))
                               (documentElements (document (performSearch term this))))
                = 1)
  /\ (forall j f,
        j < length (searchMatches (performSearch term this)) ->
        exists m e,
          nth_error (searchMatches (performSearch term this)) j = Some m
          /\ filter isCurrent
               (documentElements
                  (document (highlightCurrentMatch
                               (pointedAt j f (performSearch term this)))))
             = [e]
          /\ dataSearchMatch e = j
          /\ In (eid e)
                (map eid (documentElements (document (performSearch term this))))
          /\ eid e <> eid (element m)
          /\ effects (scrollToCurrentMatch
                        (highlightCurrentMatch
                           (pointedAt j f (performSearch term this))))
             = (effects (performSearch term this)
                ++ [GoToPage (pageIndex m); ScrollIntoView e])%list).
Proof.
  split; [intros m; apply performSearch_detached |].
  split; [intros i; apply performSearch_one_carrier |].
  intros j f Hj.
  set (found := performSearch term this) in *.
  set (stored := setSearchMatches (withElements f (searchMatches found)) found).
  assert (A : attrsInOrder stored).
  { pose proof (performSearch_attrsInOrder term this) as A.
    unfold attrsInOrder in *. fold found in A.
    change (document stored) with (document found).
    change (searchMatches stored) with (withElements f (searchMatches found)).
    now rewrite withElements_length. }
  assert (R : (0 <= Z.of_nat j < Z.of_nat (length (searchMatches stored)))%Z).
  { change (searchMatches stored) with (withElements f (searchMatches found)).
    rewrite withElements_length. lia. }
  destruct (@move_arrives stored (Z.of_nat j) A R) as [(m' & e & N & C & D & F) _].
  change (setCurrentSearchIndex (Z.of_nat j) stored)
    with (pointedAt j f found) in N, C, D, F.
  destruct (scrollToCurrentMatch_fields
              (highlightCurrentMatch (pointedAt j f found))) as (S1 & S2 & S3).
  destruct (highlightCurrentMatch_fields (pointedAt j f found)) as (H1 & H2).
  rewrite S1, S2, H1, H2 in N. rewrite S2, H2 in D. rewrite S3 in C.
  change (currentSearchIndex (pointedAt j f found)) with (Z.of_nat j) in N, D.
  change (searchMatches (pointedAt j f found))
    with (withElements f (searchMatches found)) in N.
  rewrite Nat2Z.id in N. unfold withElements in N. rewrite nth_error_map in N.
  destruct (nth_error (searchMatches found) j) as [m |] eqn:Nm;
    [| discriminate N].
  cbn [option_map] in N. injection N as <-. cbn [pageIndex] in F.
  exists m, e.
  split; [reflexivity |]. split; [exact C |].
  split; [now apply Nat2Z.inj |].
  assert (I : In (eid e) (map eid (documentElements (document found)))).
  { pose proof (highlightCurrentMatch_upToClass (pointedAt j f found)) as U.
    apply upToClass_key, map_key_eid in U.
    change (document (pointedAt j f found)) with (document found) in U.
    rewrite <- U. apply in_map.
    assert (Ie : In e (filter isCurrent
                         (documentElements
                            (document (highlightCurrentMatch
                                         (pointedAt j f found))))))
      by (rewrite C; now left).
    now apply filter_In in Ie. }
  split; [exact I |]. split; [| exact F].
  intros E. apply (@performSearch_detached term this m).
  - fold found. eapply nth_error_In. exact Nm.
  - fold found. now rewrite <- E.
Qed.

Lemma stored_elements_detached_witness :
  ~ In 0 (map eid (documentElements (document (performSearch "cat" exampleCats))))
  /\ length (filter (hasSearchMatch (Z.of_nat 1))
                    (documentElements (document (performSearch "cat" exampleCats))))
     = 1
  /\ exists m e,
      nth_error (searchMatches (performSearch "cat" exampleCats)) 1 = Some m
      /\ filter isCurrent
           (documentElements
              (document (highlightCurrentMatch
                           (pointedAt 1 element (performSearch "cat" exampleCats)))))
         = [e]
      /\ dataSearchMatch e = 1
      /\ In (eid e)
            (map eid (documentElements (document (performSearch "cat" exampleCats))))
      /\ eid e <> eid (element m)
      /\ effects (scrollToCurrentMatch
                    (highlightCurrentMatch
                       (pointedAt 1 element (performSearch "cat" exampleCats))))
         = (effects (performSearch "cat" exampleCats)
            ++ [GoToPage (pageIndex m); ScrollIntoView e])%list.
Proof.
  destruct (stored_elements_detached "cat" exampleCats) as (H1 & H2 & H3).
  split; [| split].
  - apply (H1 {| element := {| eid := 0; className := search_highlight;
                               dataSearchMatch := 0; textContent := "Cat" |};
                 pageIndex := 2; spanIndex := 0; text := "Cat" |}).
    vm_compute. left. reflexivity.
  - apply H2. vm_compute. lia.
  - apply H3. vm_compute. lia.
Defined.

(** The second match of the two-page scenario: the element marked and
    scrolled to is the one the parser created (identity 3), not the
    stored one (identity 2). *)
Example second_match_located :
  map eid (map element (searchMatches (performSearch "cat" exampleCats)))
  = [0; 2]
  /\ map SearchManager.key
         (filter isCurrent
            (documentElements
               (document (nextMatch (performSearch "cat" exampleCats)))))
     = [(3, 1, "cat"%string)]
  /\ effects (nextMatch (performSearch "cat" exampleCats))
     = [GoToPage 2;
        ScrollIntoView {| eid := 3; className := search_current;
                          dataSearchMatch := 1; textContent := "cat" |}].
Proof. vm_compute. repeat split; reflexivity. Qed.

End SearchLocateFacts.

(** ** The viewer core: pages, zoom and keys *)

Module PDFViewerNavigationFacts.

Import PDFViewerNavigation.
Local Open Scope Z_scope.

Lemma scrollToPage_fields (p : num) (this : Viewer) :
  pdfDoc (scrollToPage p this) = pdfDoc this
  /\ currentPage (scrollToPage p this) = currentPage this
  /\ pageInput (scrollToPage p this) = pageInput this
  /\ prevBtnDisabled (scrollToPage p this) = prevBtnDisabled this
  /\ nextBtnDisabled (scrollToPage p this) = nextBtnDisabled this
  /\ zoomOptions (scrollToPage p this) = zoomOptions this.
Proof.
  unfold scrollToPage. destruct p as [z|]; [| repeat split; reflexivity].
  destruct (_ && _)%bool; repeat split; reflexivity.
Qed.

(** What a successful move to page [z] leaves behind. *)
Lemma moved_to (this : Viewer) (numPages z : Z) (input : num) :
  pdfDoc this = Some numPages ->
  let this' := scrollToPage (Int z)
                 (updateNavigationButtons
                    (setPageInput input (setPage (Int z) this))) in
  pdfDoc this' = Some numPages
  /\ currentPage this' = Int z
  /\ pageInput this' = input
  /\ prevBtnDisabled this' = (z <=? 1)
  /\ nextBtnDisabled this' = (numPages <=? z)
  /\ zoomOptions this' = zoomOptions this.
Proof.
  intros Hd this'.
  destruct (scrollToPage_fields (Int z)
              (updateNavigationButtons
                 (setPageInput input (setPage (Int z) this))))
    as (H1 & H2 & H3 & H4 & H5 & H6).
  subst this'. rewrite H1, H2, H3, H4, H5, H6.
  unfold updateNavigationButtons. cbn. rewrite Hd.
  repeat split; reflexivity.
Qed.

Lemma previousPage_moves (this : Viewer) (numPages z : Z) :
  pdfDoc this = Some numPages -> currentPage this = Int z -> 1 < z ->
  previousPage this
  = scrollToPage (Int (z - 1))
      (updateNavigationButtons
         (setPageInput (Int (z - 1)) (setPage (Int (z - 1)) this))).
Proof.
  intros Hd Hc Hz. unfold previousPage. rewrite Hc. cbn [leNum decr].
  replace (z <=? 1) with false by (symmetry; apply Z.leb_gt; lia).
  reflexivity.
Qed.

Lemma nextPage_moves (this : Viewer) (numPages z : Z) :
  pdfDoc this = Some numPages -> currentPage this = Int z -> z < numPages ->
  nextPage this
  = scrollToPage (Int (z + 1))
      (updateNavigationButtons
         (setPageInput (Int (z + 1)) (setPage (Int (z + 1)) this))).
Proof.
  intros Hd Hc Hz. unfold nextPage. rewrite Hd, Hc. cbn [geNum leNum incr].
  replace (numPages <=? z) with false by (symmetry; apply Z.leb_gt; lia).
  reflexivity.
Qed.

Lemma goToPage_moves (this : Viewer) (numPages z : Z) :
  pdfDoc this = Some numPages -> 1 <= z <= numPages ->
  goToPage (Int z) this
  = scrollToPage (Int z)
      (updateNavigationButtons
         (setPageInput (pageInput this) (setPage (Int z) this))).
Proof.
  intros Hd Hz. unfold goToPage. rewrite Hd. cbn [ltNum gtNum].
  replace (z <? 1) with false by (symmetry; apply Z.ltb_ge; lia).
  replace (numPages <? z) with false by (symmetry; apply Z.ltb_ge; lia).
  reflexivity.
Qed.

Lemma goToPage_stays (this : Viewer) (z : Z) :
  (pdfDoc this = None
   \/ exists numPages, pdfDoc this = Some numPages /\ (z < 1 \/ numPages < z)) ->
  goToPage (Int z) this = this.
Proof.
  unfold goToPage. intros [-> | (n & -> & H)]; [reflexivity |].
  cbn [ltNum gtNum].
  destruct H as [H | H].
  - now replace (z <? 1) with true by (symmetry; apply Z.ltb_lt; lia).
  - replace (n <? z) with true by (symmetry; apply Z.ltb_lt; lia).
    now rewrite orb_true_r.
Qed.

Lemma previousPage_stays (this : Viewer) (z : Z) :
  currentPage this = Int z -> z <= 1 -> previousPage this = this.
Proof.
  intros Hc Hz. unfold previousPage. rewrite Hc. cbn [leNum].
  now replace (z <=? 1) with true by (symmetry; apply Z.leb_le; lia).
Qed.

Lemma nextPage_stays (this : Viewer) (numPages z : Z) :
  pdfDoc this = Some numPages -> currentPage this = Int z -> numPages <= z ->
  nextPage this = this.
Proof.
  intros Hd Hc Hz. unfold nextPage. rewrite Hd, Hc. cbn [geNum leNum].
  now replace (numPages <=? z) with true by (symmetry; apply Z.leb_le; lia).
Qed.

Lemma previousPage_onAPage (this : Viewer) :
  onAPage this -> onAPage (previousPage this).
Proof.
  intros (n & z & Hd & Hc & Hr).
  destruct (Z_le_gt_dec z 1) as [Hz | Hz].
  - rewrite (previousPage_stays this Hc Hz). now exists n, z.
  - rewrite (previousPage_moves this Hd Hc) by lia.
    destruct (moved_to this (z - 1) (Int (z - 1)) Hd) as (H1 & H2 & _).
    exists n, (z - 1). repeat split; [exact H1 | exact H2 | lia | lia].
Qed.

Lemma nextPage_onAPage (this : Viewer) :
  onAPage this -> onAPage (nextPage this).
Proof.
  intros (n & z & Hd & Hc & Hr).
  destruct (Z_lt_ge_dec z n) as [Hz | Hz].
  - rewrite (nextPage_moves this Hd Hc Hz).
    destruct (moved_to this (z + 1) (Int (z + 1)) Hd) as (H1 & H2 & _).
    exists n, (z + 1). repeat split; [exact H1 | exact H2 | lia | lia].
  - rewrite (nextPage_stays this Hd Hc) by lia. now exists n, z.
Qed.

Lemma goToPage_onAPage (this : Viewer) (p : Z) :
  onAPage this -> onAPage (goToPage (Int p) this).
Proof.
  intros (n & z & Hd & Hc & Hr).
  destruct (Z_lt_ge_dec p 1) as [Hp | Hp].
  - rewrite goToPage_stays; [now exists n, z |].
    right. exists n. split; [exact Hd | lia].
  - destruct (Z_lt_ge_dec n p) as [Hq | Hq].
    + rewrite goToPage_stays; [now exists n, z |].
      right. exists n. split; [exact Hd | lia].
    + rewrite (goToPage_moves this Hd) by lia.
      destruct (moved_to this p (pageInput this) Hd) as (H1 & H2 & _).
      exists n, p. repeat split; [exact H1 | exact H2 | lia | lia].
Qed.

(** X11: with a document loaded and the current page one of its pages,
    [previousPage], [nextPage] and [goToPage] with any integer leave the
    current page one of the document's pages. *)
Theorem paging_stays_on_a_page (this : Viewer) (p : Z) :
  onAPage this ->
  onAPage (previousPage this) /\ onAPage (nextPage this)
  /\ onAPage (goToPage (Int p) this).
Proof.
  intros H. split; [now apply previousPage_onAPage |].
  split; [now apply nextPage_onAPage | now apply goToPage_onAPage].
Qed.

Lemma paging_stays_on_a_page_witness :
  onAPage (previousPage (loaded 3 exampleOptions))
  /\ onAPage (nextPage (loaded 3 exampleOptions))
  /\ onAPage (goToPage (Int 7) (loaded 3 exampleOptions)).
Proof.
  apply (@paging_stays_on_a_page (loaded 3 exampleOptions) 7).
  exists 3, 1. repeat split; [lia | lia].
Defined.

(** X12: [goToPage] with an integer changes nothing at all when no
    document is loaded or the integer is not a page of the document;
    otherwise it makes that page the current one, sets the two buttons
    by the page's position, asks for the page's container to be scrolled
    into view when there is one, and does not write the page input. *)
Theorem goToPage_guard (this : Viewer) (p : Z) :
  (pdfDoc this = None -> goToPage (Int p) this = this)
  /\ (forall numPages,
        pdfDoc this = Some numPages -> (p < 1 \/ numPages < p) ->
        goToPage (Int p) this = this)
  /\ (forall numPages,
        pdfDoc this = Some numPages -> 1 <= p <= numPages ->
        currentPage (goToPage (Int p) this) = Int p
        /\ buttonsAgree (goToPage (Int p) this)
        /\ pageInput (goToPage (Int p) this) = pageInput this
        /\ effects (goToPage (Int p) this)
           = if p <=? pageContainers this
             then (effects this ++ [ScrollIntoView p])%list
             else effects this).
Proof.
  split; [intros H; apply goToPage_stays; now left |].
  split.
  - intros n Hd Hp. apply goToPage_stays. right. now exists n.
  - intros n Hd Hp. rewrite (goToPage_moves this Hd Hp).
    destruct (moved_to this p (pageInput this) Hd)
      as (H1 & H2 & H3 & H4 & H5 & _).
    split; [exact H2 | split; [| split; [exact H3 |]]].
    + exists n, p. now repeat split.
    + unfold scrollToPage. cbn [pageContainers updateNavigationButtons
                                 setButtons setPageInput setPage].
      replace (1 <=? p) with true by (symmetry; apply Z.leb_le; lia).
      cbn [andb]. destruct (p <=? pageContainers this); reflexivity.
Qed.

Lemma goToPage_guard_witness :
  goToPage (Int 0) (loaded 3 exampleOptions) = loaded 3 exampleOptions
  /\ currentPage (goToPage (Int 2) (loaded 3 exampleOptions)) = Int 2
  /\ effects (goToPage (Int 2) (loaded 3 exampleOptions)) = [ScrollIntoView 2].
Proof.
  destruct (@goToPage_guard (loaded 3 exampleOptions) 0) as (_ & H1 & _).
  destruct (@goToPage_guard (loaded 3 exampleOptions) 2) as (_ & _ & H2).
  destruct (H2 3 eq_refl) as (A & _ & _ & B); [lia |].
  split; [apply (H1 3 eq_refl); lia | split; [exact A | exact B]].
Defined.

(** X13: the guard of [goToPage] lets [NaN] through: with a document
    loaded, [goToPage(NaN)] makes the current page [NaN], enables both
    buttons and scrolls nowhere; and while the current page is [NaN],
    [previousPage] and [nextPage] leave it [NaN]. *)
Theorem goToPage_NaN (this : Viewer) (numPages : Z) :
  pdfDoc this = Some numPages ->
  currentPage (goToPage NaN this) = NaN
  /\ prevBtnDisabled (goToPage NaN this) = false
  /\ nextBtnDisabled (goToPage NaN this) = false
  /\ effects (goToPage NaN this) = effects this
  /\ currentPage (previousPage (goToPage NaN this)) = NaN
  /\ currentPage (nextPage (goToPage NaN this)) = NaN.
Proof.
  intros Hd.
  assert (E : goToPage NaN this
              = updateNavigationButtons (setPage NaN this))
    by (unfold goToPage; rewrite Hd; reflexivity).
  rewrite E. unfold updateNavigationButtons, previousPage, nextPage.
  cbn. rewrite Hd. cbn. repeat split; reflexivity.
Qed.

Lemma goToPage_NaN_witness :
  currentPage (goToPage NaN (loaded 3 exampleOptions)) = NaN
  /\ prevBtnDisabled (goToPage NaN (loaded 3 exampleOptions)) = false
  /\ nextBtnDisabled (goToPage NaN (loaded 3 exampleOptions)) = false
  /\ effects (goToPage NaN (loaded 3 exampleOptions))
     = effects (loaded 3 exampleOptions)
  /\ currentPage (previousPage (goToPage NaN (loaded 3 exampleOptions))) = NaN
  /\ currentPage (nextPage (goToPage NaN (loaded 3 exampleOptions))) = NaN.
Proof.
  apply (@goToPage_NaN (loaded 3 exampleOptions) 3). reflexivity.
Defined.

(** X14: on a page of the document that is not the last, [nextPage]
    followed by [previousPage] comes back to the page, and on a page
    that is not the first so does [previousPage] followed by
    [nextPage]; either way the page input and the two buttons then show
    that page. On the first page [previousPage], and on the last page
    [nextPage], change nothing. *)
Theorem next_previous_inverse (this : Viewer) (numPages z : Z) :
  pdfDoc this = Some numPages -> currentPage this = Int z ->
  1 <= z <= numPages ->
  (z < numPages ->
   currentPage (previousPage (nextPage this)) = Int z
   /\ pageInput (previousPage (nextPage this)) = Int z
   /\ buttonsAgree (previousPage (nextPage this)))
  /\ (1 < z ->
      currentPage (nextPage (previousPage this)) = Int z
      /\ pageInput (nextPage (previousPage this)) = Int z
      /\ buttonsAgree (nextPage (previousPage this)))
  /\ (z = 1 -> previousPage this = this)
  /\ (z = numPages -> nextPage this = this).
Proof.
  intros Hd Hc Hr. split; [| split; [| split]].
  - intros Hz. rewrite (nextPage_moves this Hd Hc Hz).
    destruct (moved_to this (z + 1) (Int (z + 1)) Hd) as (H1 & H2 & _).
    cbv zeta in H1, H2.
    rewrite (previousPage_moves _ H1 H2) by lia.
    match goal with
    | |- context [setPage (Int (z + 1 - 1)) ?st] =>
        destruct (moved_to st (z + 1 - 1) (Int (z + 1 - 1)) H1)
          as (A1 & A2 & A3 & A4 & A5 & _)
    end.
    cbv zeta in A1, A2, A3, A4, A5.
    replace (z + 1 - 1) with z in * by lia.
    split; [exact A2 | split; [exact A3 |]].
    exists numPages, z. now repeat split.
  - intros Hz. rewrite (previousPage_moves this Hd Hc Hz).
    destruct (moved_to this (z - 1) (Int (z - 1)) Hd) as (H1 & H2 & _).
    cbv zeta in H1, H2.
    rewrite (nextPage_moves _ H1 H2) by lia.
    match goal with
    | |- context [setPage (Int (z - 1 + 1)) ?st] =>
        destruct (moved_to st (z - 1 + 1) (Int (z - 1 + 1)) H1)
          as (A1 & A2 & A3 & A4 & A5 & _)
    end.
    cbv zeta in A1, A2, A3, A4, A5.
    replace (z - 1 + 1) with z in * by lia.
    split; [exact A2 | split; [exact A3 |]].
    exists numPages, z. now repeat split.
  - intros ->. now apply (previousPage_stays this Hc).
  - intros ->. apply (nextPage_stays this Hd Hc). lia.
Qed.

Lemma next_previous_inverse_witness :
  currentPage (previousPage (nextPage (loaded 3 exampleOptions))) = Int 1
  /\ pageInput (previousPage (nextPage (loaded 3 exampleOptions))) = Int 1
  /\ previousPage (loaded 3 exampleOptions) = loaded 3 exampleOptions.
Proof.
  destruct (@next_previous_inverse (loaded 3 exampleOptions) 3 1 eq_refl eq_refl)
    as (H1 & _ & H3 & _); [lia |].
  destruct H1 as (A & B & _); [lia |].
  split; [exact A | split; [exact B | now apply H3]].
Defined.

(** *** Zoom and keys *)

Lemma findSelected_from (options : list ZoomOption) (j i : Z) :
  j <= i < j + Z.of_nat (List.length options) ->
  (forall k o, nth_error options k = Some o ->
               selected o = (Z.of_nat k + j =? i)) ->
  findSelected options j = i.
Proof.
  revert j. induction options as [| o rest IH]; intros j Hr H.
  - cbn in Hr. lia.
  - cbn [findSelected]. pose proof (H 0%nat o eq_refl) as H0. cbn in H0.
    rewrite H0. destruct (Z.eqb_spec j i) as [E | E]; [exact E |].
    apply IH.
    + cbn [List.length] in Hr. lia.
    + intros k o' Hk. rewrite (H (S k) o' Hk). f_equal. lia.
Qed.

Lemma findSelected_only (options : list ZoomOption) (i : Z) :
  onlySelected options i -> findSelected options 0 = i.
Proof.
  intros [Hr H]. apply findSelected_from; [lia |].
  intros k o Hk. rewrite (H k o Hk). f_equal. lia.
Qed.

Lemma selectAt_length (options : list ZoomOption) (i : Z) :
  List.length (selectAt options i) = List.length options.
Proof.
  revert i. induction options as [| o rest IH]; intros i; cbn; [reflexivity |].
  now rewrite IH.
Qed.

Lemma selectAt_selected (options : list ZoomOption) (i : Z) (k : nat)
      (o : ZoomOption) :
  nth_error (selectAt options i) k = Some o ->
  selected o = (Z.of_nat k =? i).
Proof.
  revert i k. induction options as [| o' rest IH]; intros i k H.
  - destruct k; discriminate H.
  - destruct k as [| k]; cbn in H.
    + injection H as <-. cbn. apply Z.eqb_sym.
    + rewrite (IH _ _ H).
      destruct (Z.eqb_spec (Z.of_nat k) (i - 1));
        destruct (Z.eqb_spec (Z.of_nat (S k)) i); try reflexivity; lia.
Qed.

Lemma selectAt_only (options : list ZoomOption) (i : Z) :
  0 <= i < Z.of_nat (List.length options) ->
  onlySelected (selectAt options i) i.
Proof.
  intros Hr. split; [now rewrite selectAt_length |].
  intros k o. apply selectAt_selected.
Qed.

Lemma selectValue_selectAt (options : list ZoomOption) (i : Z)
      (o : ZoomOption) :
  0 <= i -> nth_error options (Z.to_nat i) = Some o ->
  selectValue (selectAt options i) = value o.
Proof.
  revert i. induction options as [| o' rest IH]; intros i Hi H.
  - destruct (Z.to_nat i); discriminate H.
  - cbn [selectAt selectValue selected value].
    destruct (Z.eqb_spec i 0) as [-> | E].
    + cbn in H. now injection H as ->.
    + apply IH; [lia |].
      replace (Z.to_nat i) with (S (Z.to_nat (i - 1))) in H by lia.
      exact H.
Qed.

Lemma nth_error_selectAt (options : list ZoomOption) (j : Z) (k : nat)
      (o : ZoomOption) :
  nth_error options k = Some o ->
  exists b, nth_error (selectAt options j) k
            = Some {| value := value o; selected := b |}.
Proof.
  revert j k. induction options as [| o' rest IH]; intros j k H.
  - destruct k; discriminate H.
  - destruct k as [| k]; cbn in H |- *.
    + injection H as ->. now eexists.
    + now apply IH.
Qed.

Section WithParse.

Variable parseFloat : string -> float.

(** The scale [handleZoomChange] takes from the value of an option. *)
Lemma handleZoomChange_fields (this : Viewer) :
  pdfDoc (handleZoomChange parseFloat this) = pdfDoc this
  /\ currentPage (handleZoomChange parseFloat this) = currentPage this
  /\ zoomOptions (handleZoomChange parseFloat this) = zoomOptions this
  /\ effects (handleZoomChange parseFloat this)
     = (effects this ++ [Rerender])%list
  /\ scale (handleZoomChange parseFloat this)
     = (if (String.eqb (selectValue (zoomOptions this)) "fit-width"
            || String.eqb (selectValue (zoomOptions this)) "fit-page")%bool
        then 1%float
        else parseFloat (selectValue (zoomOptions this))).
Proof.
  unfold handleZoomChange. destruct (_ || _)%bool; repeat split; reflexivity.
Qed.

Lemma zoomIn_page (this : Viewer) :
  pdfDoc (zoomIn parseFloat this) = pdfDoc this
  /\ currentPage (zoomIn parseFloat this) = currentPage this.
Proof.
  unfold zoomIn. destruct (_ <? _); [| split; reflexivity].
  destruct (handleZoomChange_fields
              (setZoom (selectAt (zoomOptions this)
                                 (findSelected (zoomOptions this) 0 + 1))
                       (scale this) this)) as (H1 & H2 & _).
  rewrite H1, H2. split; reflexivity.
Qed.

Lemma zoomOut_page (this : Viewer) :
  pdfDoc (zoomOut parseFloat this) = pdfDoc this
  /\ currentPage (zoomOut parseFloat this) = currentPage this.
Proof.
  unfold zoomOut. destruct (_ <? _); [| split; reflexivity].
  destruct (handleZoomChange_fields
              (setZoom (selectAt (zoomOptions this)
                                 (findSelected (zoomOptions this) 0 - 1))
                       (scale this) this)) as (H1 & H2 & _).
  rewrite H1, H2. split; reflexivity.
Qed.

Lemma zoomIn_moves (this : Viewer) (i : Z) (o : ZoomOption) :
  onlySelected (zoomOptions this) i ->
  i < Z.of_nat (List.length (zoomOptions this)) - 3 ->
  nth_error (zoomOptions this) (Z.to_nat (i + 1)) = Some o ->
  onlySelected (zoomOptions (zoomIn parseFloat this)) (i + 1)
  /\ effects (zoomIn parseFloat this) = (effects this ++ [Rerender])%list
  /\ scale (zoomIn parseFloat this)
     = (if (String.eqb (value o) "fit-width"
            || String.eqb (value o) "fit-page")%bool
        then 1%float else parseFloat (value o)).
Proof.
  intros Hs Hi Ho. pose proof (findSelected_only Hs) as Hf.
  destruct Hs as [Hr _].
  unfold zoomIn. rewrite Hf.
  replace (i <? _) with true by (symmetry; apply Z.ltb_lt; lia).
  destruct (handleZoomChange_fields
              (setZoom (selectAt (zoomOptions this) (i + 1)) (scale this) this))
    as (_ & _ & H3 & H4 & H5).
  rewrite H3, H4, H5. cbn [zoomOptions effects setZoom].
  rewrite (@selectValue_selectAt (zoomOptions this) (i + 1) o) by (lia || exact Ho).
  split; [apply selectAt_only; lia | split; reflexivity].
Qed.

Lemma zoomOut_moves (this : Viewer) (i : Z) (o : ZoomOption) :
  onlySelected (zoomOptions this) i ->
  0 < i ->
  nth_error (zoomOptions this) (Z.to_nat (i - 1)) = Some o ->
  onlySelected (zoomOptions (zoomOut parseFloat this)) (i - 1)
  /\ effects (zoomOut parseFloat this) = (effects this ++ [Rerender])%list
  /\ scale (zoomOut parseFloat this)
     = (if (String.eqb (value o) "fit-width"
            || String.eqb (value o) "fit-page")%bool
        then 1%float else parseFloat (value o)).
Proof.
  intros Hs Hi Ho. pose proof (findSelected_only Hs) as Hf.
  destruct Hs as [Hr _].
  unfold zoomOut. rewrite Hf.
  replace (0 <? i) with true by (symmetry; apply Z.ltb_lt; lia).
  destruct (handleZoomChange_fields
              (setZoom (selectAt (zoomOptions this) (i - 1)) (scale this) this))
    as (_ & _ & H3 & H4 & H5).
  rewrite H3, H4, H5. cbn [zoomOptions effects setZoom].
  rewrite (@selectValue_selectAt (zoomOptions this) (i - 1) o) by (lia || exact Ho).
  split; [apply selectAt_only; lia | split; reflexivity].
Qed.

Lemma zoomIn_stays (this : Viewer) (i : Z) :
  onlySelected (zoomOptions this) i ->
  Z.of_nat (List.length (zoomOptions this)) - 3 <= i ->
  zoomIn parseFloat this = this.
Proof.
  intros Hs Hi. unfold zoomIn. rewrite (findSelected_only Hs).
  now replace (i <? _) with false by (symmetry; apply Z.ltb_ge; lia).
Qed.

Lemma zoomOut_stays (this : Viewer) :
  onlySelected (zoomOptions this) 0 -> zoomOut parseFloat this = this.
Proof.
  intros Hs. unfold zoomOut. now rewrite (findSelected_only Hs).
Qed.

Lemma zoomIn_options (this : Viewer) (i : Z) :
  onlySelected (zoomOptions this) i ->
  i < Z.of_nat (List.length (zoomOptions this)) - 3 ->
  zoomOptions (zoomIn parseFloat this) = selectAt (zoomOptions this) (i + 1).
Proof.
  intros Hs Hi. unfold zoomIn. rewrite (findSelected_only Hs).
  replace (i <? _) with true by (symmetry; apply Z.ltb_lt; lia).
  now destruct (handleZoomChange_fields
         (setZoom (selectAt (zoomOptions this) (i + 1)) (scale this) this))
    as (_ & _ & -> & _).
Qed.

Lemma zoomOut_options (this : Viewer) (i : Z) :
  onlySelected (zoomOptions this) i -> 0 < i ->
  zoomOptions (zoomOut parseFloat this) = selectAt (zoomOptions this) (i - 1).
Proof.
  intros Hs Hi. unfold zoomOut. rewrite (findSelected_only Hs).
  replace (0 <? i) with true by (symmetry; apply Z.ltb_lt; lia).
  now destruct (handleZoomChange_fields
         (setZoom (selectAt (zoomOptions this) (i - 1)) (scale this) this))
    as (_ & _ & -> & _).
Qed.

Lemma nth_error_inside (options : list ZoomOption) (i : Z) :
  0 <= i < Z.of_nat (List.length options) ->
  exists o, nth_error options (Z.to_nat i) = Some o.
Proof.
  intros Hi. destruct (nth_error options (Z.to_nat i)) as [o |] eqn:E.
  - now exists o.
  - apply nth_error_None in E. lia.
Qed.

(** X15: with exactly the option at index [i] of the zoom select
    selected, [zoomIn] selects the option at [i + 1] when [i] is less
    than the number of options minus three and changes nothing
    otherwise, so it never arrives at one of the last two options;
    [zoomOut] selects the option at [i - 1] when [i > 0] and changes
    nothing at index 0. A step that moves takes the scale from the
    value of the newly selected option (1.0 for the two fit values),
    asks for one more rendering of the pages, and leaves exactly one
    option selected. *)
Theorem zoom_steps (this : Viewer) (i : Z) :
  onlySelected (zoomOptions this) i ->
  let last := Z.of_nat (List.length (zoomOptions this)) - 3 in
  let scaleOf (o : ZoomOption) :=
    if (String.eqb (value o) "fit-width" || String.eqb (value o) "fit-page")%bool
    then 1%float else parseFloat (value o) in
  (i < last ->
   exists o, nth_error (zoomOptions this) (Z.to_nat (i + 1)) = Some o
     /\ onlySelected (zoomOptions (zoomIn parseFloat this)) (i + 1)
     /\ effects (zoomIn parseFloat this) = (effects this ++ [Rerender])%list
     /\ scale (zoomIn parseFloat this) = scaleOf o)
  /\ (last <= i -> zoomIn parseFloat this = this)
  /\ (0 < i ->
      exists o, nth_error (zoomOptions this) (Z.to_nat (i - 1)) = Some o
        /\ onlySelected (zoomOptions (zoomOut parseFloat this)) (i - 1)
        /\ effects (zoomOut parseFloat this) = (effects this ++ [Rerender])%list
        /\ scale (zoomOut parseFloat this) = scaleOf o)
  /\ (i = 0 -> zoomOut parseFloat this = this).
Proof.
  intros Hs last scaleOf. pose proof Hs as [Hr _].
  split; [| split; [| split]].
  - intros Hi. subst last.
    destruct (@nth_error_inside (zoomOptions this) (i + 1)) as [o Ho]; [lia |].
    exists o. split; [exact Ho |]. exact (@zoomIn_moves this i o Hs Hi Ho).
  - intros Hi. exact (@zoomIn_stays this i Hs Hi).
  - intros Hi.
    destruct (@nth_error_inside (zoomOptions this) (i - 1)) as [o Ho]; [lia |].
    exists o. split; [exact Ho |]. exact (@zoomOut_moves this i o Hs Hi Ho).
  - intros ->. exact (@zoomOut_stays this Hs).
Qed.

(** X16: [zoomIn] followed by [zoomOut], when [zoomIn] can move, and
    [zoomOut] followed by [zoomIn], from an index above 0 and not among
    the last two, select the option that was selected before and set
    the scale that this option stands for; the pages are rendered twice
    on the way. From one of the last two options (and an index above 0)
    [zoomOut] moves one option down and [zoomIn] does not come back. *)
Theorem zoom_in_out_inverse (this : Viewer) (i : Z) (o : ZoomOption) :
  onlySelected (zoomOptions this) i ->
  nth_error (zoomOptions this) (Z.to_nat i) = Some o ->
  let scaleOf :=
    if (String.eqb (value o) "fit-width" || String.eqb (value o) "fit-page")%bool
    then 1%float else parseFloat (value o) in
  (i < Z.of_nat (List.length (zoomOptions this)) - 3 ->
   onlySelected (zoomOptions (zoomOut parseFloat (zoomIn parseFloat this))) i
   /\ scale (zoomOut parseFloat (zoomIn parseFloat this)) = scaleOf
   /\ effects (zoomOut parseFloat (zoomIn parseFloat this))
      = (effects this ++ [Rerender; Rerender])%list)
  /\ (0 < i -> i <= Z.of_nat (List.length (zoomOptions this)) - 3 ->
      onlySelected (zoomOptions (zoomIn parseFloat (zoomOut parseFloat this))) i
      /\ scale (zoomIn parseFloat (zoomOut parseFloat this)) = scaleOf
      /\ effects (zoomIn parseFloat (zoomOut parseFloat this))
         = (effects this ++ [Rerender; Rerender])%list)
  /\ (0 < i -> Z.of_nat (List.length (zoomOptions this)) - 3 < i ->
      zoomIn parseFloat (zoomOut parseFloat this) = zoomOut parseFloat this
      /\ onlySelected (zoomOptions (zoomOut parseFloat this)) (i - 1)).
Proof.
  intros Hs Ho scaleOf. pose proof Hs as [Hr _].
  split; [intros Hi | split; [intros Hi Hi2 | intros Hi Hi2]].
  - destruct (@nth_error_inside (zoomOptions this) (i + 1)) as [o1 Ho1]; [lia |].
    destruct (@zoomIn_moves this i o1 Hs Hi Ho1) as (A1 & A2 & _).
    pose proof (@zoomIn_options this i Hs Hi) as E.
    destruct (@nth_error_selectAt (zoomOptions this) (i + 1) (Z.to_nat i) o Ho)
      as [b Ho'].
    rewrite <- E in Ho'.
    replace (Z.to_nat i) with (Z.to_nat (i + 1 - 1)) in Ho' by lia.
    assert (L : 0 < i + 1) by lia.
    destruct (@zoomOut_moves (zoomIn parseFloat this) (i + 1) _ A1 L Ho')
      as (B1 & B2 & B3).
    replace (i + 1 - 1) with i in B1 by lia.
    split; [exact B1 | split; [exact B3 |]].
    rewrite B2, A2, <- app_assoc. reflexivity.
  - destruct (@nth_error_inside (zoomOptions this) (i - 1)) as [o1 Ho1]; [lia |].
    destruct (@zoomOut_moves this i o1 Hs Hi Ho1) as (A1 & A2 & _).
    pose proof (@zoomOut_options this i Hs Hi) as E.
    destruct (@nth_error_selectAt (zoomOptions this) (i - 1) (Z.to_nat i) o Ho)
      as [b Ho'].
    rewrite <- E in Ho'.
    replace (Z.to_nat i) with (Z.to_nat (i - 1 + 1)) in Ho' by lia.
    assert (L : i - 1
                < Z.of_nat (List.length (zoomOptions (zoomOut parseFloat this))) - 3).
    { rewrite E, selectAt_length. lia. }
    destruct (@zoomIn_moves (zoomOut parseFloat this) (i - 1) _ A1 L Ho')
      as (B1 & B2 & B3).
    replace (i - 1 + 1) with i in B1 by lia.
    split; [exact B1 | split; [exact B3 |]].
    rewrite B2, A2, <- app_assoc. reflexivity.
  - destruct (@nth_error_inside (zoomOptions this) (i - 1)) as [o1 Ho1]; [lia |].
    destruct (@zoomOut_moves this i o1 Hs Hi Ho1) as (A1 & _).
    split; [| exact A1].
    apply (@zoomIn_stays (zoomOut parseFloat this) (i - 1) A1).
    rewrite (@zoomOut_options this i Hs Hi), selectAt_length. lia.
Qed.

Lemma previousPage_zoomOptions (this : Viewer) :
  zoomOptions (previousPage this) = zoomOptions this.
Proof.
  unfold previousPage. destruct (leNum _ _); [reflexivity |]. cbv zeta.
  match goal with
  | |- zoomOptions (scrollToPage ?p ?st) = _ =>
      destruct (scrollToPage_fields p st) as (_ & _ & _ & _ & _ & ->)
  end.
  reflexivity.
Qed.

Lemma nextPage_zoomOptions (this : Viewer) :
  zoomOptions (nextPage this) = zoomOptions this.
Proof.
  unfold nextPage. destruct (pdfDoc this); [| reflexivity].
  destruct (geNum _ _); [reflexivity |]. cbv zeta.
  match goal with
  | |- zoomOptions (scrollToPage ?p ?st) = _ =>
      destruct (scrollToPage_fields p st) as (_ & _ & _ & _ & _ & ->)
  end.
  reflexivity.
Qed.

Lemma zoomIn_onAPage (this : Viewer) :
  onAPage this -> onAPage (zoomIn parseFloat this).
Proof.
  intros (n & z & Hd & Hc & Hr). destruct (zoomIn_page this) as [H1 H2].
  exists n, z. rewrite H1, H2. now repeat split.
Qed.

Lemma zoomOut_onAPage (this : Viewer) :
  onAPage this -> onAPage (zoomOut parseFloat this).
Proof.
  intros (n & z & Hd & Hc & Hr). destruct (zoomOut_page this) as [H1 H2].
  exists n, z. rewrite H1, H2. now repeat split.
Qed.

Lemma zoomIn_one_selected (this : Viewer) (i : Z) :
  onlySelected (zoomOptions this) i ->
  exists j, onlySelected (zoomOptions (zoomIn parseFloat this)) j.
Proof.
  intros Hs. pose proof Hs as [Hr _].
  destruct (Z_lt_ge_dec i (Z.of_nat (List.length (zoomOptions this)) - 3))
    as [Hi | Hi].
  - destruct (@nth_error_inside (zoomOptions this) (i + 1)) as [o Ho]; [lia |].
    exists (i + 1). exact (proj1 (@zoomIn_moves this i o Hs Hi Ho)).
  - exists i. rewrite (@zoomIn_stays this i Hs); [exact Hs | lia].
Qed.

Lemma zoomOut_one_selected (this : Viewer) (i : Z) :
  onlySelected (zoomOptions this) i ->
  exists j, onlySelected (zoomOptions (zoomOut parseFloat this)) j.
Proof.
  intros Hs. pose proof Hs as [Hr _].
  destruct (Z_lt_ge_dec 0 i) as [Hi | Hi].
  - destruct (@nth_error_inside (zoomOptions this) (i - 1)) as [o Ho]; [lia |].
    exists (i - 1). exact (proj1 (@zoomOut_moves this i o Hs Hi Ho)).
  - assert (i = 0) as -> by lia.
    exists 0. rewrite (@zoomOut_stays this Hs). exact Hs.
Qed.

(** X17: whatever key is pressed, on a page of the loaded document and
    with exactly one zoom option selected, [handleKeydown] leaves the
    current page one of the document's pages and leaves exactly one
    zoom option selected. *)
Theorem keys_keep_page_and_zoom (event : KeyboardEvent) (this : Viewer)
        (i : Z) :
  onAPage this -> onlySelected (zoomOptions this) i ->
  onAPage (handleKeydown parseFloat event this)
  /\ exists j, onlySelected (zoomOptions (handleKeydown parseFloat event this)) j.
Proof.
  intros Hp Hs. unfold handleKeydown.
  destruct (pdfDoc this) as [numPages |] eqn:Hd;
    [| split; [exact Hp | now exists i]].
  destruct (_ && _)%bool.
  { split; [| now exists i].
    destruct Hp as (n & p & H1 & H2 & H3). now exists n, p. }
  destruct (_ || _)%bool.
  { split; [now apply previousPage_onAPage |].
    exists i. now rewrite previousPage_zoomOptions. }
  destruct (_ || _)%bool.
  { split; [now apply nextPage_onAPage |].
    exists i. now rewrite nextPage_zoomOptions. }
  destruct (_ || _)%bool.
  { split; [now apply zoomIn_onAPage | now apply zoomIn_one_selected with i]. }
  destruct (String.eqb _ _).
  { split; [now apply zoomOut_onAPage | now apply zoomOut_one_selected with i]. }
  split; [exact Hp | now exists i].
Qed.

End WithParse.

Lemma exampleOptions_selected : onlySelected exampleOptions 1.
Proof.
  split; [cbn; lia |]. intros k o H.
  do 6 (destruct k as [| k]; [injection H as <-; reflexivity |]).
  destruct k; discriminate H.
Qed.

Lemma zoom_steps_witness :
  scale (zoomIn exampleParseFloat (loaded 3 exampleOptions)) = 1.5%float
  /\ scale (zoomOut exampleParseFloat (loaded 3 exampleOptions)) = 0.5%float.
Proof.
  destruct (@zoom_steps exampleParseFloat (loaded 3 exampleOptions) 1
              exampleOptions_selected) as (A & _ & C & _).
  destruct A as (o & Ho & _ & _ & A); [cbn; lia |].
  destruct C as (o' & Ho' & _ & _ & C); [lia |].
  cbn in Ho, Ho'. injection Ho as <-. injection Ho' as <-.
  split; [exact A | exact C].
Defined.

Lemma zoom_in_out_inverse_witness :
  onlySelected
    (zoomOptions (zoomOut exampleParseFloat
                    (zoomIn exampleParseFloat (loaded 3 exampleOptions)))) 1
  /\ scale (zoomOut exampleParseFloat
              (zoomIn exampleParseFloat (loaded 3 exampleOptions))) = 1%float.
Proof.
  destruct (@zoom_in_out_inverse exampleParseFloat (loaded 3 exampleOptions) 1
              {| value := "1"; selected := true |}
              exampleOptions_selected eq_refl) as (A & _).
  destruct A as (A1 & A2 & _); [cbn; lia |].
  split; [exact A1 | exact A2].
Defined.

Lemma keys_keep_page_and_zoom_witness :
  onAPage (handleKeydown exampleParseFloat
             {| key := "ArrowRight"; ctrlKey := false |}
             (loaded 3 exampleOptions))
  /\ exists j,
      onlySelected
        (zoomOptions (handleKeydown exampleParseFloat
                        {| key := "ArrowRight"; ctrlKey := false |}
                        (loaded 3 exampleOptions))) j.
Proof.
  apply (@keys_keep_page_and_zoom exampleParseFloat
           {| key := "ArrowRight"; ctrlKey := false |}
           (loaded 3 exampleOptions) 1).
  - exists 3, 1. repeat split; [lia | lia].
  - exact exampleOptions_selected.
Defined.

End PDFViewerNavigationFacts.

(** ** Debounced functions *)

Module UtilsFacts.

Import Utils.
Local Open Scope nat_scope.

Lemma calls_app {A : Type} (es es' : list (Event A)) :
  calls (es ++ es') = calls es ++ calls es'.
Proof.
  induction es as [| [now a | now] rest IH]; cbn; [reflexivity | | exact IH].
  now rewrite IH.
Qed.

Lemma follows_idle {A : Type} (wait : nat) : follows wait (@idle A) [].
Proof.
  repeat split; cbn; try contradiction; try discriminate; lia.
Qed.

Lemma follows_step {A : Type} (wait : nat) (d d' : Debounced A)
      (cs : list (nat * A)) (e : Event A) :
  follows wait d cs -> step wait d e = Some d' ->
  follows wait d' (cs ++ calls [e]).
Proof.
  intros (Ha & Hb & Hc & Hd) H. destruct e as [now a | now]; cbn in H.
  - destruct (Nat.leb_spec (clock d) now) as [L | L]; [| discriminate H].
    injection H as <-. cbn [calls]. split; [| split; [| split]]; cbn.
    + intros t1 a1 [I | [I | []]]%in_app_or.
      * specialize (Ha _ _ I). lia.
      * injection I as <- <-. lia.
    + intros t [= <-]. cbn. split; [apply in_or_app; right; now left |].
      intros t1 a1 [I | [I | []]]%in_app_or.
      * specialize (Ha _ _ I). lia.
      * injection I as <- <-. lia.
    + intros t a0 I. destruct (Hc _ _ I) as (Ht & t0 & I0 & Hw & Hq).
      split; [lia |]. exists t0. split; [apply in_or_app; now left |].
      split; [exact Hw |].
      intros t1 a1 [I1 | [I1 | []]]%in_app_or.
      * exact (Hq _ _ I1).
      * injection I1 as <- <-. right. lia.
    + rewrite length_app. cbn. destruct (timeout d); lia.
  - destruct (timeout d) as [t |] eqn:Et; [| discriminate H].
    destruct (Nat.leb_spec (clock d) now) as [L | L]; [| discriminate H].
    destruct (Nat.leb_spec (setAt t + wait) now) as [W | W]; [| discriminate H].
    cbn in H. injection H as <-. cbn [calls]. rewrite app_nil_r.
    destruct (Hb t eq_refl) as [It Hlast].
    split; [| split; [| split]]; cbn.
    + intros t1 a1 I. specialize (Ha _ _ I). lia.
    + intros ? [=].
    + intros t' a0 [I | [I | []]]%in_app_or.
      * destruct (Hc _ _ I) as (Ht & t0 & I0 & Hw & Hq).
        split; [lia |]. now exists t0.
      * injection I as <- <-. split; [lia |].
        exists (setAt t). split; [exact It | split; [exact W |]].
        intros t1 a1 I1. left. exact (Hlast _ _ I1).
    + rewrite length_app. cbn. lia.
Qed.

Lemma follows_run {A : Type} (wait : nat) (es : list (Event A)) :
  forall (d d' : Debounced A) (cs : list (nat * A)),
    follows wait d cs -> run wait d es = Some d' ->
    follows wait d' (cs ++ calls es).
Proof.
  induction es as [| e rest IH]; intros d d' cs F H; cbn in H.
  - injection H as <-. cbn. now rewrite app_nil_r.
  - destruct (step wait d e) as [d1 |] eqn:E; [| discriminate H].
    pose proof (@follows_step A wait d d1 cs e F E) as F1.
    specialize (IH _ _ _ F1 H).
    change (e :: rest) with ([e] ++ rest).
    now rewrite calls_app, app_assoc.
Qed.

(** X18: however calls of a debounced function and runs of its timer
    follow one another from the start, each run of [func] comes [wait]
    milliseconds or more after a call of the debounced function, with
    the arguments of that call, and no call was made after that call
    and before the run; and [func] is run at most once for each call. *)
Theorem debounce_waits_for_quiet {A : Type} (wait : nat)
        (es : list (Event A)) (d : Debounced A) :
  run wait idle es = Some d ->
  (forall t a, In (t, a) (invoked d) ->
     exists t0, In (t0, a) (calls es) /\ t0 + wait <= t
       /\ forall t1 a1, In (t1, a1) (calls es) -> t1 <= t0 \/ t <= t1)
  /\ List.length (invoked d) <= List.length (calls es).
Proof.
  intros H.
  destruct (@follows_run A wait es idle d [] (follows_idle wait) H)
    as (_ & _ & Hc & Hd).
  cbn [app] in Hc, Hd. split.
  - intros t a I. exact (proj2 (Hc t a I)).
  - destruct (timeout d); lia.
Qed.

Lemma debounce_waits_for_quiet_witness :
  (forall t a,
     In (t, a) [(700, "pdf"%string)] ->
     exists t0,
       In (t0, a) [(0, "p"%string); (100, "pd"%string); (250, "pdf"%string)] /\ t0 + 300 <= t
       /\ forall t1 a1,
            In (t1, a1) [(0, "p"%string); (100, "pd"%string); (250, "pdf"%string)] ->
            t1 <= t0 \/ t <= t1)
  /\ 1 <= 3.
Proof.
  apply (@debounce_waits_for_quiet string 300
           [Called 0 "p"%string; Called 100 "pd"%string; Called 250 "pdf"%string; TimerFires 700]
           {| clock := 700; timeout := None; invoked := [(700, "pdf"%string)] |}).
  reflexivity.
Defined.

End UtilsFacts.

(** ** The text layer: rebuilding, boxes, and its use by the search *)

Module OverlayFacts.

Import JSString DOM PDFViewer Overlay.
Local Open Scope nat_scope.

Lemma abs_not_negative (x : float) :
  is_nan (abs x) = false -> geZero (abs x) = true.
Proof.
  intros H. apply FloatFacts.not_nan in H. revert H.
  unfold geZero. rewrite FloatAxioms.leb_spec, FloatAxioms.abs_spec.
  change (Prim2SF 0) with (SpecFloat.S754_zero false).
  destruct (Prim2SF x) as [s | s | | s m e]; cbn; intros H;
    try reflexivity. now contradiction H.
Qed.

Section WithMath.

Variable atan2 : float -> float -> float.

(** X19: [createTextLayer] replaces what the container held: its spans,
    its width and height and the count it logs are the same whatever
    the container held before, the width and height are the viewport's,
    and building the same items twice gives the spans of building them
    once. Without text content the container is not touched. *)
Theorem rebuild_replaces (textItems : list TextItem)
        (container : PDFViewer.TextLayer) (viewport : Viewport) :
  children (createTextLayer atan2 (Some textItems) container viewport)
  = children (createTextLayer atan2 (Some textItems) emptyLayer viewport)
  /\ textElementCount (createTextLayer atan2 (Some textItems) container viewport)
     = List.length (filter kept textItems)
  /\ layerWidth (createTextLayer atan2 (Some textItems) container viewport)
     = viewportWidth viewport
  /\ layerHeight (createTextLayer atan2 (Some textItems) container viewport)
     = viewportHeight viewport
  /\ children (createTextLayer atan2 (Some textItems)
                 (createTextLayer atan2 (Some textItems) container viewport)
                 viewport)
     = children (createTextLayer atan2 (Some textItems) container viewport)
  /\ createTextLayer atan2 None container viewport = container.
Proof.
  assert (E : forall c,
             map Some (children (createTextLayer atan2 (Some textItems) c viewport))
             = map (createSpan atan2 viewport) (filter kept textItems)).
  { intros c. unfold createTextLayer.
    match goal with
    | |- context [appendSpans atan2 viewport textItems ?c0] =>
        destruct (PDFViewerFacts.appendSpans_spec atan2 viewport textItems c0)
          as (H1 & _)
    end.
    exact H1. }
  assert (I : forall l l' : list OverlaySpan, map Some l = map Some l' -> l = l').
  { induction l as [| x l IH]; intros [| y l'] H; try discriminate H;
      [reflexivity |].
    cbn in H. injection H as -> H. f_equal. now apply IH. }
  split; [apply I; now rewrite !E |].
  assert (F : textElementCount (createTextLayer atan2 (Some textItems) container viewport)
              = List.length (filter kept textItems)
              /\ layerWidth (createTextLayer atan2 (Some textItems) container viewport)
                 = viewportWidth viewport
              /\ layerHeight (createTextLayer atan2 (Some textItems) container viewport)
                 = viewportHeight viewport);
    [| destruct F as (H3 & H4 & H5);
       split; [exact H3 | split; [exact H4 | split; [exact H5 |]]];
       split; [apply I; now rewrite !E | reflexivity]].
  unfold createTextLayer.
  match goal with
  | |- context [appendSpans atan2 viewport textItems ?c0] =>
      destruct (PDFViewerFacts.appendSpans_spec atan2 viewport textItems c0)
        as (_ & _ & H3 & H4 & H5)
  end.
  split; [exact H3 | split; [exact H4 | exact H5]].
Qed.

(** X20: the box of a span. A span gets a width and a height exactly
    when the item's width and height are both numbers other than zero,
    and neither of the two is then negative: each is [NaN] or [>= 0]. *)
Theorem span_box_not_negative (viewport : Viewport) (textItem : TextItem)
        (span : OverlaySpan) :
  createSpan atan2 viewport textItem = Some span ->
  (numTruthy (width textItem) && numTruthy (height textItem) = false ->
   size span = None)
  /\ (numTruthy (width textItem) && numTruthy (height textItem) = true ->
      exists w h, size span = Some (w, h)
        /\ (is_nan w = false -> geZero w = true)
        /\ (is_nan h = false -> geZero h = true)).
Proof.
  unfold createSpan. destruct (transform textItem) as [m |]; [| discriminate].
  intros [= <-]. cbn [size].
  destruct (numTruthy (width textItem) && numTruthy (height textItem));
    split; intros H; try discriminate H; [| reflexivity].
  eexists _, _. split; [reflexivity |].
  split; apply abs_not_negative.
Qed.

Lemma spanNodes_plain (span : OverlaySpan) :
  truthy (spanText span) = true -> SearchManager.plainSpan (spanNodes span) = true.
Proof. intros H. unfold spanNodes. rewrite H. exact H. Qed.

Lemma kept_truthy (textItem : TextItem) :
  kept textItem = true -> truthy (str textItem) = true.
Proof.
  unfold kept, isBlank. destruct (truthy (str textItem)); [reflexivity |].
  discriminate.
Qed.

Lemma built_spans (textItems : list TextItem) (viewport : Viewport) :
  Forall (fun span => truthy (spanText span) = true)
         (children (createTextLayer atan2 (Some textItems) emptyLayer viewport))
  /\ map spanText
         (children (createTextLayer atan2 (Some textItems) emptyLayer viewport))
     = map str (filter kept textItems).
Proof.
  assert (E : map spanText
                (children (createTextLayer atan2 (Some textItems) emptyLayer viewport))
              = map str (filter kept textItems)).
  { unfold createTextLayer.
    match goal with
    | |- context [appendSpans atan2 viewport textItems ?c0] =>
        destruct (PDFViewerFacts.appendSpans_spec atan2 viewport textItems c0)
          as (H1 & _)
    end.
    cbn [children map app] in H1.
    remember (children (appendSpans atan2 viewport textItems _)) as l eqn:El.
    clear El. revert l H1.
    induction (filter kept textItems) as [| textItem rest IH];
      intros [| span l] H; try discriminate H; [reflexivity |].
    cbn in H. injection H as H0 H. cbn. f_equal; [| now apply IH].
    symmetry in H0. unfold createSpan in H0.
    destruct (transform textItem); [| discriminate H0].
    now injection H0 as <-. }
  split; [| exact E].
  assert (F : Forall (fun s => truthy s = true) (map str (filter kept textItems))).
  { apply Forall_forall. intros s [textItem [<- I]]%in_map_iff.
    apply filter_In in I. now apply kept_truthy. }
  rewrite <- E in F. apply Forall_forall. intros span I.
  rewrite Forall_forall in F. apply F. now apply in_map.
Qed.

Lemma textLayers_plain (pages : list (list TextItem * Viewport)) :
  SearchManager.plainOverlay (textLayers atan2 pages) = true.
Proof.
  unfold SearchManager.plainOverlay, textLayers. apply forallb_forall.
  intros layer [[textItems viewport] [<- _]]%in_map_iff.
  unfold layerNodes. apply forallb_forall.
  intros nodes [span [<- I]]%in_map_iff. apply spanNodes_plain.
  destruct (built_spans textItems viewport) as [F _]. cbn [fst snd] in I.
  rewrite Forall_forall in F. now apply F.
Qed.

Lemma textLayers_text (pages : list (list TextItem * Viewport)) :
  SearchManager.overlayText (textLayers atan2 pages)
  = map (fun page => map str (filter kept (fst page))) pages.
Proof.
  unfold SearchManager.overlayText, textLayers. rewrite map_map. apply map_ext.
  intros [textItems viewport]. cbn [fst snd].
  destruct (built_spans textItems viewport) as [F E]. rewrite <- E.
  unfold layerNodes. rewrite map_map.
  apply map_ext_in. intros span I. rewrite Forall_forall in F.
  unfold spanNodes. rewrite (F span I). cbn. apply JSStringFacts.append_empty_r.
Qed.

Lemma forallb_map {A B : Type} (f : B -> bool) (g : A -> B) (l : list A) :
  forallb f (map g l) = forallb (fun x => f (g x)) l.
Proof. induction l as [| x l IH]; cbn; [reflexivity | now rewrite IH]. Qed.

Lemma textLayers_safe (pages : list (list TextItem * Viewport)) :
  SearchManager.parserSafeOverlay (textLayers atan2 pages)
  = parserSafeItems pages.
Proof.
  unfold SearchManager.parserSafeOverlay. rewrite textLayers_text.
  unfold parserSafeItems. rewrite forallb_map.
  induction pages as [| page pages IH]; cbn [forallb]; [reflexivity |].
  now rewrite IH, forallb_map.
Qed.

(** X21: the text layers [createTextLayer] builds for the pages of a
    document hold, page by page and in item order, the strings of the
    items it keeps, each as the single text node of its span; and where
    none of these strings has a CR or a U+0000 in it, a search on the
    layers followed by [clear] gives back the very same layers,
    whatever the term. *)
Theorem search_on_built_layers (pages : list (list TextItem * Viewport))
        (term : string) (this : SearchManager.State) :
  SearchManager.overlayText (textLayers atan2 pages)
  = map (fun page => map str (filter kept (fst page))) pages
  /\ SearchManager.plainOverlay (textLayers atan2 pages) = true
  /\ (parserSafeItems pages = true ->
      SearchManager.document this = textLayers atan2 pages ->
      SearchManager.document
        (SearchManager.clear (SearchManager.search term this))
      = textLayers atan2 pages).
Proof.
  split; [apply textLayers_text | split; [apply textLayers_plain |]].
  intros Hs Hd. rewrite <- Hd.
  apply SearchManagerFacts.search_clear_document; rewrite Hd.
  - now rewrite textLayers_safe.
  - apply textLayers_plain.
Qed.

End WithMath.

Lemma search_on_built_layers_witness :
  SearchManager.document
    (SearchManager.clear
       (SearchManager.search "orl"
          (SearchManager.constructor true
             (textLayers exampleAtan2 examplePages) 0)))
  = textLayers exampleAtan2 examplePages.
Proof.
  destruct (@search_on_built_layers exampleAtan2 examplePages "orl"
              (SearchManager.constructor true
                 (textLayers exampleAtan2 examplePages) 0))
    as (_ & _ & H).
  apply H; reflexivity.
Defined.

Lemma span_box_not_negative_witness :
  exists w h,
    size {| spanText := "Hello"; spanDir := "ltr";
            left := 50; top := 100; fontSize := 12;
            fontFamily := "sans-serif"; rotate := None;
            size := Some (360, 144)%float |}
    = Some (w, h)
    /\ (is_nan w = false -> geZero w = true)
    /\ (is_nan h = false -> geZero h = true).
Proof.
  apply (@span_box_not_negative exampleAtan2 identityViewport
           {| str := "Hello"; dir := ""; transform := Some [12; 0; 0; 12; 50; 100]%float;
              width := 30; height := 12; fontName := "" |}
           {| spanText := "Hello"; spanDir := "ltr";
              left := 50; top := 100; fontSize := 12;
              fontFamily := "sans-serif"; rotate := None;
              size := Some (360, 144)%float |});
    reflexivity.
Defined.

End OverlayFacts.
